(** * Mikoshi: the seeded pseudo-random generator and what is built on it

    A shallow embedding of [packages/shared/src/random/seeded-random.ts]
    (class [SeededRandom]) and of the error classes it can raise, followed by
    a store-level reading of [shuffle] and by the configurations of the chaos
    engine; then the adapter over [Math.random()] of the same file and
    the two factories of the test utilities, [ChaosFactory] and
    [ConversationFactory], which build configurations for the engine and
    conversations from the generator.

    Numbers.  A JavaScript [number] is an IEEE-754 double.  The embedding keeps
    the three special values and represents every finite value by the exact
    rational it denotes.  All integer arithmetic the generator performs on its
    seed is exact in double precision (the largest product is below 2^47), so
    nothing is lost there.  The quotient returned by [next()] and the products
    formed in [nextInt] and [nextFloat] are rounded to 53 bits by JavaScript.
    Module [SeededRandom] computes them exactly; module [Double] rounds every
    operation to the nearest double, as the program does, and the statements
    on the values of [nextInt] and [nextFloat] are made there.  The sign of
    zero is not tracked. *)

From Stdlib Require Import ZArith QArith Qround Qabs Qreduction Qcanon Qpower.
From Stdlib Require Import String Ascii DecimalString DecimalPos DecimalZ Lia.
From Stdlib Require Import Lqa.
From stdpp Require Import base option list gmap strings.

Local Open Scope Z_scope.

(** ** JavaScript numbers *)

Module Number.

Inductive number : Type :=
| Finite (q : Q)
| PosInfinity
| NegInfinity
| NaN.

(** Finite values are stored in lowest terms, so that equal values are equal
    terms. *)
Definition fin (q : Q) : number := Finite (Qred q).
Definition ofZ (z : Z) : number := Finite (inject_Z z).

Definition is_zero (q : Q) : bool := Qeq_bool q 0.
Definition is_pos (q : Q) : bool := negb (Qle_bool q 0).
Definition infinity (positive : bool) : number :=
  if positive then PosInfinity else NegInfinity.

(** ToBoolean: 0 and NaN are falsy. *)
Definition truthy (x : number) : bool :=
  match x with
  | Finite q => negb (is_zero q)
  | NaN => false
  | _ => true
  end.

(** [a || b] *)
Definition or_else (a b : number) : number := if truthy a then a else b.

Definition Math_floor (x : number) : number :=
  match x with
  | Finite q => ofZ (Qfloor q)
  | _ => x
  end.

Definition Math_abs (x : number) : number :=
  match x with
  | Finite q => fin (Qabs q)
  | NegInfinity => PosInfinity
  | _ => x
  end.

(** Comparisons: every comparison with NaN is false. *)
Definition lt (a b : number) : bool :=
  match a, b with
  | Finite x, Finite y => negb (Qle_bool y x)
  | Finite _, PosInfinity => true
  | NegInfinity, Finite _ => true
  | NegInfinity, PosInfinity => true
  | _, _ => false
  end.

Definition strict_eq (a b : number) : bool :=
  match a, b with
  | Finite x, Finite y => Qeq_bool x y
  | PosInfinity, PosInfinity => true
  | NegInfinity, NegInfinity => true
  | _, _ => false
  end.

Definition gt (a b : number) : bool := lt b a.
Definition le (a b : number) : bool := lt a b || strict_eq a b.
Definition ge (a b : number) : bool := le b a.

Definition neg (a : number) : number :=
  match a with
  | Finite x => fin (- x)
  | PosInfinity => NegInfinity
  | NegInfinity => PosInfinity
  | NaN => NaN
  end.

Definition add (a b : number) : number :=
  match a, b with
  | NaN, _ | _, NaN => NaN
  | Finite x, Finite y => fin (x + y)
  | PosInfinity, NegInfinity | NegInfinity, PosInfinity => NaN
  | PosInfinity, _ | _, PosInfinity => PosInfinity
  | NegInfinity, _ | _, NegInfinity => NegInfinity
  end.

Definition sub (a b : number) : number := add a (neg b).

Definition mul (a b : number) : number :=
  match a, b with
  | NaN, _ | _, NaN => NaN
  | Finite x, Finite y => fin (x * y)
  | Finite x, PosInfinity | PosInfinity, Finite x =>
      if is_zero x then NaN else infinity (is_pos x)
  | Finite x, NegInfinity | NegInfinity, Finite x =>
      if is_zero x then NaN else infinity (negb (is_pos x))
  | PosInfinity, PosInfinity | NegInfinity, NegInfinity => PosInfinity
  | PosInfinity, NegInfinity | NegInfinity, PosInfinity => NegInfinity
  end.

Definition div (a b : number) : number :=
  match a, b with
  | NaN, _ | _, NaN => NaN
  | Finite x, Finite y =>
      if is_zero y
      then (if is_zero x then NaN else infinity (is_pos x))
      else fin (x / y)
  | Finite _, _ => ofZ 0
  | PosInfinity, Finite y => infinity (is_zero y || is_pos y)
  | NegInfinity, Finite y => infinity (negb (is_zero y || is_pos y))
  | _, _ => NaN
  end.

(** Truncation toward zero, and the remainder [a % b], which takes the sign
    of the dividend and is exact in IEEE arithmetic. *)
Definition trunc (q : Q) : Z := Z.quot (Qnum q) (Zpos (Qden q)).

Definition remainder (a b : number) : number :=
  match a, b with
  | NaN, _ | _, NaN => NaN
  | Finite x, Finite y =>
      if is_zero y then NaN else fin (x - y * inject_Z (trunc (x / y)))
  | Finite x, _ => Finite x
  | _, _ => NaN
  end.

(** An array index is a non-negative integer. *)
Definition as_index (x : number) : option nat :=
  match x with
  | Finite q =>
      if Qeq_bool q (inject_Z (Qfloor q)) && (0 <=? Qfloor q)
      then Some (Z.to_nat (Qfloor q))
      else None
  | _ => None
  end.

(** Number to string, for the integers that appear in messages (plain
    decimal, as JavaScript prints every integer below 10^21). *)
Definition string_of_Z (z : Z) : string := NilZero.string_of_int (Z.to_int z).

End Number.

Export Number.

Declare Scope js_scope.
Delimit Scope js_scope with js.
Bind Scope js_scope with number.
Infix "+" := add : js_scope.
Infix "-" := sub : js_scope.
Infix "*" := mul : js_scope.
Infix "/" := div : js_scope.
Infix "rem" := remainder (at level 40, no associativity) : js_scope.
Infix "||" := or_else : js_scope.
Infix "<?" := lt : js_scope.
Infix ">?" := gt : js_scope.
Infix ">=?" := ge : js_scope.
Infix "<=?" := le : js_scope.
Infix "===" := strict_eq (at level 70) : js_scope.

(** ** Errors

    The built-in classes the generator can meet and the hierarchy declared in
    [packages/shared/src/errors.ts].  An error value carries the class it was
    constructed with and its message. *)

Module Errors.

Inductive ErrorClass : Type :=
| Error | RangeError | TypeError
| MikoshiError | ValidationError | ParseError | ChaosError
| InvariantViolationError | TimeoutError | ConfigurationError
| NotImplementedError | NotFoundError | AgentError | TestExecutionError
| AggregateError | RetryableError.

#[global] Instance ErrorClass_eq_dec : EqDecision ErrorClass.
Proof. solve_decision. Defined.

(** [class C extends P] *)
Definition parent (c : ErrorClass) : option ErrorClass :=
  match c with
  | Error => None
  | RangeError | TypeError | MikoshiError => Some Error
  | _ => Some MikoshiError
  end.


(** The prototype chain of a class, shortest first; the hierarchy is two
    levels deep. *)
Definition ancestors (c : ErrorClass) : list ErrorClass :=
  c :: match parent c with
       | None => []
       | Some p => p :: match parent p with
                        | None => []
                        | Some pp => [pp]
                        end
       end.

Record JsError : Type := mkError { err_class : ErrorClass; err_message : string }.

(** [e instanceof C] *)
Definition instanceof (e : JsError) (c : ErrorClass) : bool :=
  bool_decide (c ∈ ancestors (err_class e)).


(** [new Error(message)] *)
Definition new_Error (message : string) : JsError := mkError Error message.

End Errors.

Export Errors.

(** ** Arrays

    Reading [array[index]] where [index] is not an index of the array gives
    [undefined], which TypeScript lets inhabit the element type.  Writing
    [array[index] = v] past the end extends the array, and writing under a key
    that is not an index (a negative number, a fraction, NaN) leaves the
    elements as they are.  JavaScript keeps such a write as a property of the
    array object and a later read under the same key finds it; the lists here
    hold the elements only, and that read gives [undefined].  The generator
    computes such a key only from a seed that is no integer of
    [1, 2^31 - 2]. *)

Section Arrays.
Context {T : Type} (undefined : T).

Definition array_get (array : list T) (index : number) : T :=
  match as_index index with
  | Some k => default undefined (array !! k)
  | None => undefined
  end.

Definition array_set (array : list T) (index : number) (v : T) : list T :=
  match as_index index with
  | Some k =>
      if decide (k < length array)%nat then <[k := v]> array
      else array ++ replicate (k - length array) undefined ++ [v]
  | None => array
  end.

(** [array.slice(0, n)] for an integer [n]: a negative end counts from the
    end of the array. *)
Definition slice0 (array : list T) (n : Z) : list T :=
  let len := Z.of_nat (length array) in
  let stop := if n <? 0 then Z.max (len + n) 0 else Z.min n len in
  take (Z.to_nat stop) array.

(** [[result[i], result[j]] = [result[j], result[i]]]: both reads happen
    before the two writes. *)
Definition swap (result : list T) (i j : number) : list T :=
  let a := array_get result j in
  let b := array_get result i in
  array_set (array_set result i a) j b.
End Arrays.

(** ** class SeededRandom *)

Module SeededRandom.

Definition MULTIPLIER : number := ofZ 48271.
Definition MODULUS : number := ofZ 2147483647.
Definition CHECK : number := ofZ 1493962164.

(** The object: its one private field. *)
Record t : Type := mk { seed : number }.

(** A method either returns a value or throws; either way the object is left
    in some state. *)
Inductive Outcome (A : Type) : Type :=
| Returns (a : A) (g : t)
| Throws (e : JsError) (g : t).
Arguments Returns {A} a g.
Arguments Throws {A} e g.

Definition M (A : Type) : Type := t -> Outcome A.

Definition ret {A} (a : A) : M A := fun g => Returns a g.
Definition throw {A} (e : JsError) : M A := fun g => Throws e g.
Definition bind {A B} (c : M A) (k : A -> M B) : M B :=
  fun g => match c g with
           | Returns a g' => k a g'
           | Throws e g' => Throws e g'
           end.

Definition state_of {A} (o : Outcome A) : t :=
  match o with Returns _ g => g | Throws _ g => g end.

Notation "'let*' x ':=' c 'in' k" := (bind c (fun x => k))
  (at level 10, x name, c at level 100, k at level 200).

(** [constructor(seed: number = Date.now())], at an explicit seed. *)
Definition constructor (seed : number) : t :=
  let s := (Math_abs (Math_floor seed) || ofZ 1)%js in
  let s := if (s >=? MODULUS)%js then (s rem MODULUS)%js else s in
  let s := if (s === ofZ 0)%js then ofZ 1 else s in
  mk s.

(** The same constructor when the argument is left out: the seed is the
    clock reading [Date.now()]. *)
Definition constructor_default (now : number) : t := constructor now.

Definition next : M number := fun g =>
  let seed' := ((seed g * MULTIPLIER) rem MODULUS)%js in
  Returns ((seed' - ofZ 1) / (MODULUS - ofZ 1))%js (mk seed').

(** [nextInt(min, max)], for integer bounds, in exact arithmetic: the
    product [u * range] is not rounded, no sum overflows, and the message
    prints the bounds in full.  The program rounds; [Double.nextInt] below
    does as the program does, on all numbers.  The two return the same
    integer unless the rounded product reaches an integer that the exact one
    stays below. *)
Definition nextInt (min max : Z) : M number :=
  if min >? max
  then throw (new_Error ("Invalid range: min (" ++ string_of_Z min
                           ++ ") must be <= max (" ++ string_of_Z max ++ ")"))
  else
    let range := max - min + 1 in
    let* u := next in
    ret (Math_floor (u * ofZ range) + ofZ min)%js.

Section Generic.
Context {T : Type} (undefined : T).

Definition choice (array : list T) : M T :=
  if (length array =? 0)%nat
  then throw (new_Error "Cannot choose from empty array")
  else
    let* index := nextInt 0 (Z.of_nat (length array) - 1) in
    ret (array_get undefined array index).

(** The loop of [shuffle]: [for (let i = result.length - 1; i > 0; i--)]. *)
Fixpoint shuffle_loop (i : nat) (result : list T) : M (list T) :=
  match i with
  | O => ret result
  | S i' =>
      let* j := nextInt 0 (Z.of_nat i) in
      shuffle_loop i' (swap undefined result (ofZ (Z.of_nat i)) j)
  end.

Definition shuffle (array : list T) : M (list T) :=
  let result := array in
  shuffle_loop (length result - 1) result.

Definition sample (array : list T) (n : Z) : M (list T) :=
  if n >? Z.of_nat (length array)
  then throw (new_Error ("Cannot sample " ++ string_of_Z n
                           ++ " elements from array of length "
                           ++ string_of_Z (Z.of_nat (length array))))
  else if n <? 0
  then throw (new_Error ("Sample size must be non-negative, got "
                           ++ string_of_Z n))
  else
    let* shuffled := shuffle array in
    ret (slice0 shuffled n).
End Generic.

Definition clone (g : t) : t := constructor (seed g).

Definition getSeed (g : t) : number := seed g.

(** [reset(seed?: number)]: [None] is a call without argument. *)
Definition reset (seed : option number) (g : t) : t :=
  match seed with
  | Some seed =>
      let s := (Math_abs (Math_floor seed) || ofZ 1)%js in
      let s := if (s >=? MODULUS)%js then (s rem MODULUS)%js else s in
      let s := if (s === ofZ 0)%js then ofZ 1 else s in
      mk s
  | None => g
  end.

(** [n] calls of [next()] whose results are dropped. *)
Definition advance (n : positive) (rng : t) : t :=
  Pos.iter (fun g => state_of (next g)) rng n.

Definition verify : bool :=
  let rng := constructor (ofZ 1) in
  let rng := advance 9999 rng in
  (getSeed rng === CHECK)%js.

(** The first [n] values of [next()], with the state they leave. *)
Fixpoint draws (n : nat) (g : t) : list number * t :=
  match n with
  | O => ([], g)
  | S n' =>
      match next g with
      | Returns u g' => let (us, g'') := draws n' g' in (u :: us, g'')
      | Throws _ g' => ([], g')
      end
  end.

(** *** The other methods of the class

    [Number_toString] renders the number substituted in a message
    ([${min}]); it is the language's, and a parameter here.  So are the
    functions of [Math] other than [floor] and [abs]. *)

Section Rendered.
Variable Number_toString : number -> string.

(** [nextFloat(min, max)] in exact arithmetic; [Double.nextFloat] below
    rounds as the program does. *)
Definition nextFloat (min max : number) : M number :=
  if (min >=? max)%js
  then throw (new_Error ("Invalid range: min (" ++ Number_toString min
                           ++ ") must be < max (" ++ Number_toString max ++ ")"))
  else
    let* u := next in
    ret (u * (max - min) + min)%js.

(** [nextBoolean(probability: number = 0.5)]: [None] is a call without
    argument. *)
Definition nextBoolean (probability : option number) : M bool :=
  let probability := default (Finite (1 # 2)) probability in
  if ((probability <? ofZ 0)%js || (probability >? ofZ 1)%js)%bool
  then throw (new_Error ("Probability must be between 0 and 1, got "
                           ++ Number_toString probability))
  else
    let* u := next in
    ret (u <? probability)%js.

Section Transcendental.
Variables Math_sqrt Math_log Math_cos : number -> number.
Variable Math_PI : number.

(** [gaussian(mean: number = 0, stdDev: number = 1)] *)
Definition gaussian (mean stdDev : option number) : M number :=
  let mean := default (ofZ 0) mean in
  let stdDev := default (ofZ 1) stdDev in
  let* u1 := next in
  let* u2 := next in
  let z0 := (Math_sqrt (ofZ (-2) * Math_log u1)
             * Math_cos (ofZ 2 * Math_PI * u2))%js in
  ret (z0 * stdDev + mean)%js.

(** [exponential(lambda: number = 1)] *)
Definition exponential (lambda : option number) : M number :=
  let lambda := default (ofZ 1) lambda in
  if (lambda <=? ofZ 0)%js
  then throw (new_Error ("Lambda must be positive, got "
                           ++ Number_toString lambda))
  else
    let* u := next in
    ret (neg (Math_log (ofZ 1 - u)) / lambda)%js.

End Transcendental.
End Rendered.

(** [s.split('')]: the characters of [s], each as a string. *)
Definition split_chars (s : string) : list string :=
  (fun c => String c EmptyString) <$> list_ascii_of_string s.

Definition defaultCharset : string :=
  "abcdefghijklmnopqrstuvwxyzABCDEFGHIJKLMNOPQRSTUVWXYZ0123456789".

(** The loop of [string]: [result += this.choice(chars.split(''))], where an
    [undefined] would be appended as the text "undefined". *)
Fixpoint string_loop (n : nat) (chars : string) (result : string) : M string :=
  match n with
  | O => ret result
  | S n' =>
      let* c := choice "undefined" (split_chars chars) in
      string_loop n' chars (result ++ c)
  end.

(** [string(length, charset?)], for an integer [length]; an empty [charset]
    is falsy and gives way to the default one.  (Named [string_]: [string]
    is the type.) *)
Definition string_ (length : Z) (charset : option string) : M string :=
  let chars :=
    match charset with
    | Some c => if String.eqb c "" then defaultCharset else c
    | None => defaultCharset
    end in
  if length <? 0
  then throw (new_Error ("String length must be non-negative, got "
                           ++ string_of_Z length))
  else string_loop (Z.to_nat length) chars "".

(** [segments.map(f)], the calls in order. *)
Fixpoint map_M {A B : Type} (f : A -> M B) (l : list A) : M (list B) :=
  match l with
  | [] => ret []
  | a :: rest =>
      let* b := f a in
      let* bs := map_M f rest in
      ret (b :: bs)
  end.

(** [parts.join(sep)] *)
Fixpoint join (sep : string) (parts : list string) : string :=
  match parts with
  | [] => ""
  | [p] => p
  | p :: rest => p ++ sep ++ join sep rest
  end.

Definition uuid : M string :=
  let hex := "0123456789abcdef" in
  let segments := [8; 4; 4; 4; 12] in
  let* parts := map_M (fun len => string_ len (Some hex)) segments in
  ret (join "-" parts).

(** [createSeededRandom(seed?)]: [None] is a call without argument, which
    the constructor seeds with the clock reading [now]. *)
Definition createSeededRandom (now : number) (seed : option number) : t :=
  match seed with
  | Some seed => constructor seed
  | None => constructor_default now
  end.


End SeededRandom.


(** ** Vocabulary of the statements *)

Import SeededRandom.

(** The invariant of the data model: the seed is an integer of [1, 2^31-2]. *)
Definition seed_in_range (g : SeededRandom.t) : Prop :=
  exists s : Z, seed g = ofZ s /\ 1 <= s <= 2 ^ 31 - 2.

(** A finite value of the half-open interval [0, 1). *)
Definition unit_interval (u : number) : Prop :=
  exists q : Q, u = Finite q /\ (0 <= q)%Q /\ (q < 1)%Q.

(** What [next()] does to an integer seed, and what the constructor does to an
    integer argument, read on [Z]. *)
Definition lcg (s : Z) : Z := Z.rem (s * 48271) 2147483647.

Definition normalized (z : Z) : Z :=
  let a := Z.abs z in
  let a := if a =? 0 then 1 else a in
  let a := if 2147483647 <=? a then Z.rem a 2147483647 else a in
  if a =? 0 then 1 else a.

(** The integer [nextInt(min, max)] returns from the integer seed [s]. *)
Definition nextInt_Z (min max s : Z) : Z :=
  ((lcg s - 1) * (max - min + 1)) / 2147483646 + min.

(** The swap and the loop of [shuffle] when every index is in range and the
    seed is an integer: the reading the statements about arrays are proved
    on, after it is shown to agree with [swap] and [shuffle_loop]. *)
Definition swap_nat {T : Type} (result : list T) (i j : nat) : list T :=
  match result !! i, result !! j with
  | Some x, Some y => <[j := x]> (<[i := y]> result)
  | _, _ => result
  end.

Fixpoint shuffle_Z {T : Type} (i : nat) (result : list T) (s : Z) : list T * Z :=
  match i with
  | O => (result, s)
  | S i' =>
      shuffle_Z i' (swap_nat result i (Z.to_nat (nextInt_Z 0 (Z.of_nat i) s))) (lcg s)
  end.

(** ** [shuffle] on arrays that live in a store

    JavaScript arrays are objects: [shuffle] receives a reference, and the
    spread [[...array]] allocates a fresh array.  Here the store maps
    references to array contents, and every read and write of the method is
    a read or write of the store. *)

Module Store.

Definition ref : Type := positive.

Section WithElements.
Context {T : Type} (undefined : T).

Definition contents (h : gmap ref (list T)) (a : ref) : list T :=
  default [] (h !! a).

(** A new array object holding [xs]. *)
Definition alloc (h : gmap ref (list T)) (xs : list T) : ref * gmap ref (list T) :=
  let r := fresh (dom h) in (r, <[r := xs]> h).

Definition read (h : gmap ref (list T)) (a : ref) (index : number) : T :=
  array_get undefined (contents h a) index.

Definition write (h : gmap ref (list T)) (a : ref) (index : number) (v : T)
  : gmap ref (list T) :=
  <[a := array_set undefined (contents h a) index v]> h.

Fixpoint shuffle_loop (i : nat) (result : ref) (h : gmap ref (list T))
  : M (gmap ref (list T)) :=
  match i with
  | O => ret h
  | S i' =>
      let* j := nextInt 0 (Z.of_nat i) in
      let a := read h result j in
      let b := read h result (ofZ (Z.of_nat i)) in
      let h := write h result (ofZ (Z.of_nat i)) a in
      let h := write h result j b in
      shuffle_loop i' result h
  end.

Definition shuffle (array : ref) (h : gmap ref (list T))
  : M (ref * gmap ref (list T)) :=
  let (result, h) := alloc h (contents h array) in
  let* h := shuffle_loop (length (contents h result) - 1) result h in
  ret (result, h).

End WithElements.

End Store.

(** ** Chaos configurations ([chaos.ts])

    The modes, their parameter shapes and [ChaosConfiguration], which
    [ChaosFactory] builds.  [engine.ts] declares the injector that would run
    them as an interface only. *)

Module Chaos.

Inductive ChaosMode : Type :=
| message_loss | delay | reorder | corruption | agent_failure | network_partition.

Inductive LossPattern : Type := random | burst | selective.
Inductive Distribution : Type := uniform | normal | exponential.
Inductive CorruptionType : Type := truncate | scramble | replace | inject_noise.
Inductive Severity : Type := low | medium | high.
Inductive FailureType : Type := crash | timeout | slow | byzantine.

(** [ChaosParameters]: the six parameter shapes. *)
Inductive ChaosParameters : Type :=
| MessageLossParameters (lossRate : number) (pattern : option LossPattern)
    (targetAgents : option (list string))
| DelayParameters (minDelay maxDelay : number) (distribution : Distribution)
    (targetAgents : option (list string))
| ReorderParameters (windowSize maxDisplacement : number)
    (preserveCausality : bool)
| CorruptionParameters (corruptionRate : number)
    (corruptionType : CorruptionType) (severity : Severity)
| AgentFailureParameters (failureRate : number) (failureType : FailureType)
    (duration : option number) (targetAgents : option (list string))
| NetworkPartitionParameters (partitions : list (list string))
    (duration : number) (allowPartialDelivery : bool).

Module ChaosConfiguration.
Record t : Type := mk {
  mode : ChaosMode;
  seed : option number;
  probability : option number;
  parameters : ChaosParameters
}.
End ChaosConfiguration.

End Chaos.

(** ** Vocabulary of the further statements *)

(** The alphabet [string(length, charset)] draws from: the default one when
    [charset] is left out or empty. *)
Definition effective_charset (charset : option string) : string :=
  match charset with
  | Some c => if String.eqb c "" then defaultCharset else c
  | None => defaultCharset
  end.

(** Every character of [s] is one of [alphabet]. *)
Definition over_alphabet (alphabet s : string) : Prop :=
  Forall (fun c => c ∈ list_ascii_of_string alphabet) (list_ascii_of_string s).

(** ** class MathRandomGenerator

    The adapter over [Math.random()].  What [Math.random()] returns depends on
    a state of the engine that the program does not see: the state [Engine] and
    the function are parameters.  No method of the adapter throws. *)

Module MathRandomGenerator.

Section WithSource.
Variable Engine : Type.
Variable Math_random : Engine -> number * Engine.

Definition next (st : Engine) : number * Engine := Math_random st.

(** [nextInt(min, max)], for integer bounds. *)
Definition nextInt (min max : Z) (st : Engine) : number * Engine :=
  let (u, st) := Math_random st in
  ((Math_floor (u * ofZ (max - min + 1)) + ofZ min)%js, st).

Definition nextFloat (min max : number) (st : Engine) : number * Engine :=
  let (u, st) := Math_random st in
  ((u * (max - min) + min)%js, st).

(** [nextBoolean(probability: number = 0.5)] *)
Definition nextBoolean (probability : option number) (st : Engine) : bool * Engine :=
  let probability := default (Finite (1 # 2)) probability in
  let (u, st) := Math_random st in
  ((u <? probability)%js, st).

Section Generic.
Context {T : Type} (undefined : T).

Definition choice (array : list T) (st : Engine) : T * Engine :=
  let (u, st) := Math_random st in
  (array_get undefined array
             (Math_floor (u * ofZ (Z.of_nat (length array))))%js, st).

Fixpoint shuffle_loop (i : nat) (result : list T) (st : Engine) : list T * Engine :=
  match i with
  | O => (result, st)
  | S i' =>
      let (u, st) := Math_random st in
      let j := (Math_floor (u * ofZ (Z.of_nat i + 1)))%js in
      shuffle_loop i' (swap undefined result (ofZ (Z.of_nat i)) j) st
  end.

Definition shuffle (array : list T) (st : Engine) : list T * Engine :=
  let result := array in
  shuffle_loop (length result - 1) result st.

Definition sample (array : list T) (n : Z) (st : Engine) : list T * Engine :=
  let (shuffled, st) := shuffle array st in
  (slice0 shuffled n, st).

End Generic.
End WithSource.

End MathRandomGenerator.


(** ** class ChaosFactory ([chaos-factory.ts])

    The factory builds [ChaosConfiguration] values from option objects.  A
    missing field is [None].  [Date.now()] reads a clock the program does
    not see: the state [Clock] and the reading are parameters, and a creator
    hands back the clock as it leaves it. *)

Module ChaosFactory.
Import Chaos.

(** [x || d] on an optional number: a missing field, 0 and NaN give [d]. *)
Definition number_or (x : option number) (d : number) : number :=
  match x with
  | Some x => (x || d)%js
  | None => d
  end.

Module MessageLossOptions.
Record t : Type := mk {
  lossRate : option number;
  pattern : option LossPattern;
  targetAgents : option (list string);
  seed : option number
}.
End MessageLossOptions.

Module DelayOptions.
Record t : Type := mk {
  minDelay : option number;
  maxDelay : option number;
  distribution : option Distribution;
  targetAgents : option (list string);
  seed : option number
}.
End DelayOptions.

Module ReorderOptions.
Record t : Type := mk {
  windowSize : option number;
  maxDisplacement : option number;
  preserveCausality : option bool;
  seed : option number
}.
End ReorderOptions.

Module CorruptionOptions.
Record t : Type := mk {
  corruptionRate : option number;
  corruptionType : option CorruptionType;
  severity : option Severity;
  seed : option number
}.
End CorruptionOptions.

Module AgentFailureOptions.
Record t : Type := mk {
  failureRate : option number;
  failureType : option FailureType;
  duration : option number;
  targetAgents : option (list string);
  seed : option number
}.
End AgentFailureOptions.

Module NetworkPartitionOptions.
Record t : Type := mk {
  partitions : option (list (list string));
  duration : option number;
  allowPartialDelivery : option bool;
  seed : option number
}.
End NetworkPartitionOptions.

Section WithClock.
Variable Clock : Type.
Variable Date_now : Clock -> number * Clock.

(** A method of the factory: a result, and the clock after it. *)
Definition C (A : Type) : Type := Clock -> A * Clock.

(** [options.seed || Date.now()]: the clock is read only when the seed is
    missing or falsy. *)
Definition seed_or_now (seed : option number) : C number :=
  fun clock =>
    match seed with
    | Some s => if truthy s then (s, clock) else Date_now clock
    | None => Date_now clock
    end.

Definition createMessageLoss (options : MessageLossOptions.t)
  : C ChaosConfiguration.t :=
  fun clock =>
    let lossRate := number_or (MessageLossOptions.lossRate options) (Finite (1 # 10)) in
    let parameters :=
      MessageLossParameters lossRate
        (Some (default random (MessageLossOptions.pattern options)))
        (MessageLossOptions.targetAgents options) in
    let (seed, clock) := seed_or_now (MessageLossOptions.seed options) clock in
    (ChaosConfiguration.mk message_loss (Some seed) (Some lossRate) parameters, clock).

Definition createDelay (options : DelayOptions.t) : C ChaosConfiguration.t :=
  fun clock =>
    let parameters :=
      DelayParameters
        (number_or (DelayOptions.minDelay options) (ofZ 100))
        (number_or (DelayOptions.maxDelay options) (ofZ 2000))
        (default uniform (DelayOptions.distribution options))
        (DelayOptions.targetAgents options) in
    let (seed, clock) := seed_or_now (DelayOptions.seed options) clock in
    (ChaosConfiguration.mk delay (Some seed) None parameters, clock).

(** [options.preserveCausality !== false] *)
Definition createReorder (options : ReorderOptions.t) : C ChaosConfiguration.t :=
  fun clock =>
    let parameters :=
      ReorderParameters
        (number_or (ReorderOptions.windowSize options) (ofZ 5))
        (number_or (ReorderOptions.maxDisplacement options) (ofZ 3))
        (match ReorderOptions.preserveCausality options with
         | Some false => false
         | _ => true
         end) in
    let (seed, clock) := seed_or_now (ReorderOptions.seed options) clock in
    (ChaosConfiguration.mk reorder (Some seed) None parameters, clock).

Definition createCorruption (options : CorruptionOptions.t)
  : C ChaosConfiguration.t :=
  fun clock =>
    let corruptionRate :=
      number_or (CorruptionOptions.corruptionRate options) (Finite (1 # 20)) in
    let parameters :=
      CorruptionParameters corruptionRate
        (default scramble (CorruptionOptions.corruptionType options))
        (default medium (CorruptionOptions.severity options)) in
    let (seed, clock) := seed_or_now (CorruptionOptions.seed options) clock in
    (ChaosConfiguration.mk corruption (Some seed) (Some corruptionRate) parameters,
     clock).

Definition createAgentFailure (options : AgentFailureOptions.t)
  : C ChaosConfiguration.t :=
  fun clock =>
    let failureRate :=
      number_or (AgentFailureOptions.failureRate options) (Finite (1 # 10)) in
    let parameters :=
      AgentFailureParameters failureRate
        (default crash (AgentFailureOptions.failureType options))
        (Some (number_or (AgentFailureOptions.duration options) (ofZ 5000)))
        (AgentFailureOptions.targetAgents options) in
    let (seed, clock) := seed_or_now (AgentFailureOptions.seed options) clock in
    (ChaosConfiguration.mk agent_failure (Some seed) (Some failureRate) parameters,
     clock).

(** An array is truthy, also when it is empty; [x || false] on a boolean. *)
Definition createNetworkPartition (options : NetworkPartitionOptions.t)
  : C ChaosConfiguration.t :=
  fun clock =>
    let parameters :=
      NetworkPartitionParameters
        (default [["agent1"]; ["agent2"; "agent3"]]
                 (NetworkPartitionOptions.partitions options))
        (number_or (NetworkPartitionOptions.duration options) (ofZ 10000))
        (default false (NetworkPartitionOptions.allowPartialDelivery options)) in
    let (seed, clock) := seed_or_now (NetworkPartitionOptions.seed options) clock in
    (ChaosConfiguration.mk network_partition (Some seed) None parameters, clock).

(** The elements of an array literal, evaluated from left to right. *)
Fixpoint in_order {A : Type} (calls : list (C A)) : C (list A) :=
  fun clock =>
    match calls with
    | [] => ([], clock)
    | call :: rest =>
        let (x, clock) := call clock in
        let (xs, clock) := in_order rest clock in
        (x :: xs, clock)
    end.

Definition createLightChaos (seed : option number) : C (list ChaosConfiguration.t) :=
  in_order
    [createMessageLoss (MessageLossOptions.mk (Some (Finite (1 # 20))) None None seed);
     createDelay (DelayOptions.mk (Some (ofZ 50)) (Some (ofZ 500)) None None seed)].

Definition createModerateChaos (seed : option number)
  : C (list ChaosConfiguration.t) :=
  in_order
    [createMessageLoss (MessageLossOptions.mk (Some (Finite (3 # 20))) None None seed);
     createDelay (DelayOptions.mk (Some (ofZ 200)) (Some (ofZ 2000)) None None seed);
     createReorder (ReorderOptions.mk (Some (ofZ 5)) (Some (ofZ 2)) None seed);
     createCorruption
       (CorruptionOptions.mk (Some (Finite (1 # 20))) None (Some low) seed)].

Definition createExtremeChaos (seed : option number)
  : C (list ChaosConfiguration.t) :=
  in_order
    [createMessageLoss
       (MessageLossOptions.mk (Some (Finite (3 # 10))) (Some burst) None seed);
     createDelay
       (DelayOptions.mk (Some (ofZ 1000)) (Some (ofZ 10000)) (Some exponential) None seed);
     createReorder (ReorderOptions.mk (Some (ofZ 10)) (Some (ofZ 8)) (Some false) seed);
     createCorruption
       (CorruptionOptions.mk (Some (Finite (1 # 5))) (Some scramble) (Some high) seed);
     createAgentFailure
       (AgentFailureOptions.mk (Some (Finite (1 # 4))) (Some byzantine) None None seed);
     createNetworkPartition
       (NetworkPartitionOptions.mk None (Some (ofZ 15000)) None seed)].

Definition createDeterministicChaos : C (list ChaosConfiguration.t) :=
  let fixedSeed := ofZ 12345 in
  in_order
    [createMessageLoss
       (MessageLossOptions.mk (Some (Finite (1 # 10))) None None (Some fixedSeed));
     createDelay
       (DelayOptions.mk (Some (ofZ 100)) (Some (ofZ 1000)) None None
                        (Some (fixedSeed + ofZ 1)%js));
     createReorder
       (ReorderOptions.mk (Some (ofZ 3)) None None (Some (fixedSeed + ofZ 2)%js))].

(** [createScenarioChaos(scenario)]: the [switch] on the scenario's name. *)
Definition createScenarioChaos (scenario : string) : C (list ChaosConfiguration.t) :=
  if String.eqb scenario "network-unreliable" then
    in_order
      [createMessageLoss
         (MessageLossOptions.mk (Some (Finite (1 # 5))) (Some burst) None None);
       createDelay
         (DelayOptions.mk (Some (ofZ 500)) (Some (ofZ 5000)) (Some exponential) None None);
       createNetworkPartition
         (NetworkPartitionOptions.mk None (Some (ofZ 8000)) None None)]
  else if String.eqb scenario "agents-unstable" then
    in_order
      [createAgentFailure
         (AgentFailureOptions.mk (Some (Finite (3 # 10))) (Some crash) None None None);
       createAgentFailure
         (AgentFailureOptions.mk (Some (Finite (1 # 5))) (Some timeout) None None None);
       createAgentFailure
         (AgentFailureOptions.mk (Some (Finite (1 # 10))) (Some slow) None None None)]
  else if String.eqb scenario "data-corruption" then
    in_order
      [createCorruption
         (CorruptionOptions.mk (Some (Finite (3 # 20))) (Some truncate) None None);
       createCorruption
         (CorruptionOptions.mk (Some (Finite (1 # 10))) (Some scramble) None None);
       createReorder (ReorderOptions.mk (Some (ofZ 8)) None (Some false) None)]
  else createModerateChaos None.

(** The next [n] readings of the clock. *)
Fixpoint readings (n : nat) : C (list number) :=
  fun clock =>
    match n with
    | O => ([], clock)
    | S n' =>
        let (t, clock) := Date_now clock in
        let (ts, clock) := readings n' clock in
        (t :: ts, clock)
    end.

End WithClock.

(** The presets that take a seed. *)
Inductive Preset : Type := Light | Moderate | Extreme.

Definition preset (Clock : Type) (Date_now : Clock -> number * Clock) (p : Preset)
  : option number -> C Clock (list ChaosConfiguration.t) :=
  match p with
  | Light => createLightChaos Clock Date_now
  | Moderate => createModerateChaos Clock Date_now
  | Extreme => createExtremeChaos Clock Date_now
  end.

Definition preset_size (p : Preset) : nat :=
  match p with Light => 2 | Moderate => 4 | Extreme => 6 end.

(** The rate a configuration carries in its parameters, for the three modes
    that have one. *)
Definition rate (c : ChaosConfiguration.t) : option number :=
  match ChaosConfiguration.parameters c with
  | MessageLossParameters lossRate _ _ => Some lossRate
  | CorruptionParameters corruptionRate _ _ => Some corruptionRate
  | AgentFailureParameters failureRate _ _ _ => Some failureRate
  | _ => None
  end.

End ChaosFactory.

(** A clock to run the factories on: it reads one millisecond later at every
    call. *)
Definition ticking_clock (t : Z) : number * Z := (ofZ t, t + 1).

(** ** class ConversationFactory ([conversation-factory.ts])

    The factory owns a [SeededRandom], numbers the identifiers it hands out
    with the static [idCounter], which every factory of the process shares,
    and reads the clock.  The clock reads whole milliseconds; its state
    [Clock] and the reading are parameters.  A [Record<string, unknown>] is a
    finite map.  An array of strings may hold [undefined] where the generator
    hands out an index that is none: its elements are optional strings. *)

Module ConversationFactory.

(** A value stored in a [Record<string, unknown>]. *)
Inductive unknown : Type :=
| Undefined
| Num (n : number)
| Str (s : string)
| Strs (l : list (option string)).

Definition of_string (s : option string) : unknown :=
  match s with
  | Some s => Str s
  | None => Undefined
  end.

(** A value substituted in a string. *)
Definition render (s : option string) : string := default "undefined" s.

Module Agent.
Record t : Type := mk {
  id : string;
  name : string;
  type : option string;
  capabilities : list (option string);
  metadata : gmap string unknown
}.
End Agent.

Module Message.
Record t : Type := mk {
  id : string;
  agentId : string;
  content : string;
  timestamp : number;
  role : option string;
  parentMessageId : option string;
  metadata : option (gmap string unknown)
}.

Definition with_timestamp (m : t) (timestamp : number) : t :=
  mk (id m) (agentId m) (content m) timestamp (role m) (parentMessageId m) (metadata m).

Definition with_content (m : t) (content : string) : t :=
  mk (id m) (agentId m) content (timestamp m) (role m) (parentMessageId m) (metadata m).

Definition with_metadata (m : t) (metadata : option (gmap string unknown)) : t :=
  mk (id m) (agentId m) (content m) (timestamp m) (role m) (parentMessageId m) metadata.
End Message.

Module Conversation.
Record t : Type := mk {
  id : string;
  format : string;
  agents : list Agent.t;
  messages : list Message.t;
  startTime : number;
  endTime : number;
  metadata : option (gmap string unknown)
}.

Definition with_messages (c : t) (messages : list Message.t) : t :=
  mk (id c) (format c) (agents c) messages (startTime c) (endTime c) (metadata c).
End Conversation.

Module ConversationState.
Record t : Type := mk {
  activeAgents : list string;
  messageCount : nat;
  lastMessageTime : number;
  variables : gmap string unknown
}.
End ConversationState.

(** [ConversationFactoryOptions]; the counts are integers. *)
Module Options.
Record t : Type := mk {
  format : option string;
  agentCount : option Z;
  messageCount : option Z;
  seed : option number;
  includeMetadata : option bool;
  simulateDelays : option bool;
  baseTimestamp : option number
}.

End Options.

Inductive ViolationType : Type :=
| sequence | timing | content | state.

(** [s.replace(pattern, replacement)] for a string pattern: the first
    occurrence only.  No replacement below contains a dollar sign. *)
Definition replace (pattern replacement s : string) : string :=
  match String.index 0 pattern s with
  | Some n =>
      (String.substring 0 n s ++ replacement
       ++ String.substring (n + String.length pattern)
                           (String.length s - (n + String.length pattern)) s)%string
  | None => s
  end.

(** [array.slice(0, end)] for a number [end], which is made an integer. *)
Definition slice_to {T : Type} (array : list T) (stop : number) : list T :=
  match stop with
  | Finite q => slice0 array (trunc q)
  | PosInfinity => array
  | NegInfinity | NaN => []
  end.

(** [[...new Set(xs)]]: the first occurrence of every value, in order. *)
Fixpoint dedupe (seen xs : list string) : list string :=
  match xs with
  | [] => []
  | x :: rest =>
      if bool_decide (x ∈ seen) then dedupe seen rest
      else x :: dedupe (x :: seen) rest
  end.

Definition agentTypes : list string :=
  ["coordinator"; "worker"; "validator"; "observer"].

Definition allCapabilities : list string :=
  ["text-generation"; "code-execution"; "data-analysis"; "web-search";
   "file-operations"; "api-calls"].

Definition templates : list string :=
  ["Processing request for {task}";
   "Analysis complete: {result}";
   "Initiating {action} on {target}";
   "Status update: {status}";
   "Error encountered: {error}";
   "Validation passed for {item}";
   "Requesting approval for {operation}";
   "Completed {task} successfully"].

Definition piiTypes : list string :=
  [" SSN: 123-45-6789"; " CC: 4111-1111-1111-1111"; " DOB: 01/01/1990"].

(** Reading a property of [undefined]. *)
Definition undefined_has_no (property : string) : JsError :=
  mkError TypeError
    ("Cannot read properties of undefined (reading '" ++ property ++ "')").

Section WithClock.
Variable Clock : Type.
Variable Date_now : Clock -> Z * Clock.

(** What a method of the factory works on. *)
Record World : Type := mkWorld {
  rng : SeededRandom.t;
  idCounter : Z;
  clock : Clock
}.

Inductive Outcome (A : Type) : Type :=
| Returns (a : A) (w : World)
| Throws (e : JsError) (w : World).
Arguments Returns {A} a w.
Arguments Throws {A} e w.

Definition F (A : Type) : Type := World -> Outcome A.

Definition ret {A} (a : A) : F A := fun w => Returns a w.
Definition throw {A} (e : JsError) : F A := fun w => Throws e w.
Definition bind {A B} (c : F A) (k : A -> F B) : F B :=
  fun w => match c w with
           | Returns a w' => k a w'
           | Throws e w' => Throws e w'
           end.

Definition world_of {A} (o : Outcome A) : World :=
  match o with Returns _ w => w | Throws _ w => w end.

Declare Scope factory_scope.
Notation "'let*' x ':=' c 'in' k" := (bind c (fun x => k))
  (at level 10, x name, c at level 100, k at level 200) : factory_scope.
Local Open Scope factory_scope.

(** A call of a method of [this.rng]. *)
Definition lift {A} (c : SeededRandom.M A) : F A :=
  fun w => match c (rng w) with
           | SeededRandom.Returns a g => Returns a (mkWorld g (idCounter w) (clock w))
           | SeededRandom.Throws e g => Throws e (mkWorld g (idCounter w) (clock w))
           end.

(** [Date.now()] *)
Definition now : F Z :=
  fun w => let (t, c) := Date_now (clock w) in
           Returns t (mkWorld (rng w) (idCounter w) c).

(** [this.rng.choice([...])] on strings *)
Definition choice_of (array : list string) : F (option string) :=
  lift (SeededRandom.choice None (Some <$> array)).

(** [constructor(seed: number = Date.now())], in a process whose counter
    and clock are as given. *)
Definition constructor (seed : option number) (idCounter : Z) (clock : Clock)
  : World :=
  match seed with
  | Some seed => mkWorld (SeededRandom.constructor seed) idCounter clock
  | None =>
      let (t, clock) := Date_now clock in
      mkWorld (SeededRandom.constructor (ofZ t)) idCounter clock
  end.

Definition getRng (w : World) : SeededRandom.t := rng w.

Definition reset (seed : number) : F unit :=
  fun w => Returns tt (mkWorld (SeededRandom.constructor seed) (idCounter w) (clock w)).

Definition generateId (prefix : string) : F string :=
  fun w =>
    let counter := idCounter w + 1 in
    let (t, c) := Date_now (clock w) in
    Returns (prefix ++ "_" ++ string_of_Z counter ++ "_" ++ string_of_Z t)%string
            (mkWorld (rng w) counter c).

Definition generateCapabilities : F (list (option string)) :=
  let* count := lift (nextInt 2 5) in
  let* shuffled := lift (shuffle None (Some <$> allCapabilities)) in
  ret (slice_to shuffled count).

(** The receiver of the first [replace] is looked at before any argument is
    evaluated. *)
Definition generateMessageContent : F string :=
  let* template := choice_of templates in
  match template with
  | None => throw (undefined_has_no "replace")
  | Some template =>
      let* task := choice_of ["data processing"; "validation"; "optimization"] in
      let s := replace "{task}" (render task) template in
      let* result := choice_of ["success"; "partial"; "pending"] in
      let s := replace "{result}" (render result) s in
      let* action := choice_of ["scan"; "analyze"; "transform"] in
      let s := replace "{action}" (render action) s in
      let* target := choice_of ["dataset"; "model"; "pipeline"] in
      let s := replace "{target}" (render target) s in
      let* status := choice_of ["running"; "completed"; "waiting"] in
      let s := replace "{status}" (render status) s in
      let* error := choice_of ["timeout"; "invalid input"; "resource limit"] in
      let s := replace "{error}" (render error) s in
      let* item := choice_of ["configuration"; "parameters"; "constraints"] in
      let s := replace "{item}" (render item) s in
      let* operation := choice_of ["deployment"; "rollback"; "scaling"] in
      ret (replace "{operation}" (render operation) s)
  end.

Definition generateMetadata : F (gmap string unknown) :=
  let* environment := choice_of ["dev"; "staging"; "prod"] in
  let* region := choice_of ["us-east-1"; "eu-west-1"; "ap-southeast-1"] in
  let* sessionId := generateId "session" in
  let* tags :=
    lift (shuffle None (Some <$> ["test"; "automated"; "synthetic"; "validation"])) in
  ret ({[ "version" := Str "1.0.0";
          "environment" := of_string environment;
          "region" := of_string region;
          "sessionId" := Str sessionId;
          "tags" := Strs (slice0 tags 2) ]} : gmap string unknown).

Definition generateMessageMetadata : F (gmap string unknown) :=
  let* processingTime := lift (nextInt 10 500) in
  let* retryCount := lift (nextInt 0 3) in
  let* confidence := lift next in
  let* tokens := lift (nextInt 10 200) in
  ret ({[ "processingTime" := Num processingTime;
          "retryCount" := Num retryCount;
          "confidence" := Num confidence;
          "tokens" := Num tokens ]} : gmap string unknown).

(** [createAgents(count)]: the loop, [n] rounds from index [i] on. *)
Fixpoint createAgents_loop (n i : nat) (agents : list Agent.t) : F (list Agent.t) :=
  match n with
  | O => ret agents
  | S n' =>
      let* id := generateId "agent" in
      let name := ("Agent-" ++ string_of_Z (Z.of_nat i + 1))%string in
      let type := agentTypes !! (i mod length agentTypes)%nat in
      let* capabilities := generateCapabilities in
      let* framework := choice_of ["autogen"; "langchain"; "crew"] in
      createAgents_loop n' (S i)
        (agents ++ [Agent.mk id name type capabilities
                             {[ "version" := Str "1.0.0";
                                "framework" := of_string framework ]}])
  end.

Definition createAgents (count : Z) : F (list Agent.t) :=
  createAgents_loop (Z.to_nat count) 0 [].

(** [createMessages(options)]: the loop, [n] rounds from index [i] on.
    [agents[i % agents.length]] is [undefined] when there is no agent, and
    reading its [id] throws, after the delay is drawn and the identifier of
    the message is made. *)
Fixpoint createMessages_loop (agents : list Agent.t)
    (simulateDelays includeMetadata : bool) (n i : nat)
    (messages : list Message.t) (currentTime : number) : F (list Message.t) :=
  match n with
  | O => ret messages
  | S n' =>
      let agent :=
        if (length agents =? 0)%nat then None
        else agents !! (i mod length agents)%nat in
      let* delay := (if simulateDelays then lift (nextInt 100 2000) else ret (ofZ 0)) in
      let currentTime := (currentTime + delay)%js in
      let* id := generateId "msg" in
      match agent with
      | None => throw (undefined_has_no "id")
      | Some agent =>
          let* content := generateMessageContent in
          let* role := choice_of ["user"; "assistant"; "system"] in
          let* parentMessageId :=
            (if (0 <? i)%nat
             then match messages !! (i - 1)%nat with
                  | Some parent => ret (Some (Message.id parent))
                  | None => throw (undefined_has_no "id")
                  end
             else ret None) in
          let* metadata :=
            (if includeMetadata
             then let* m := generateMessageMetadata in ret (Some m)
             else ret None) in
          createMessages_loop agents simulateDelays includeMetadata n' (S i)
            (messages ++ [Message.mk id (Agent.id agent) content currentTime role
                                     parentMessageId metadata])
            currentTime
      end
  end.

Definition createMessages (agents : list Agent.t) (count : Z)
    (baseTimestamp : number) (simulateDelays includeMetadata : bool)
  : F (list Message.t) :=
  createMessages_loop agents simulateDelays includeMetadata (Z.to_nat count) 0 []
                      baseTimestamp.

(** [createMessage(agentId, content?)]: an empty content is falsy. *)
Definition createMessage (agentId : string) (content : option string)
  : F Message.t :=
  let* id := generateId "msg" in
  let* content :=
    match content with
    | Some c => if String.eqb c "" then generateMessageContent else ret c
    | None => generateMessageContent
    end in
  let* t := now in
  ret (Message.mk id agentId content (ofZ t) (Some "assistant") None None).

(** [createConversation(options = {})] *)
Definition createConversation (options : Options.t) : F Conversation.t :=
  let format := default "custom" (Options.format options) in
  let agentCount := default 3 (Options.agentCount options) in
  let messageCount := default 10 (Options.messageCount options) in
  let includeMetadata := default true (Options.includeMetadata options) in
  let simulateDelays := default true (Options.simulateDelays options) in
  let* baseTimestamp :=
    match Options.baseTimestamp options with
    | Some t => ret t
    | None => let* t := now in ret (ofZ t)
    end in
  let* agents := createAgents agentCount in
  let* messages :=
    createMessages agents messageCount baseTimestamp simulateDelays includeMetadata in
  let* id := generateId "conv" in
  let endTime :=
    match last messages with
    | Some m => (Message.timestamp m || baseTimestamp)%js
    | None => baseTimestamp
    end in
  let* metadata :=
    (if includeMetadata
     then let* m := generateMetadata in ret (Some m)
     else ret None) in
  ret (Conversation.mk id format agents messages baseTimestamp endTime metadata).

Definition createConversationState (conversation : Conversation.t)
  : F ConversationState.t :=
  let messages := Conversation.messages conversation in
  let activeAgents :=
    dedupe [] (Message.agentId <$> drop (length messages - 10) messages) in
  let lastMessageTime :=
    match last messages with
    | Some m => (Message.timestamp m || ofZ 0)%js
    | None => ofZ 0
    end in
  let* topic := choice_of ["planning"; "execution"; "validation"; "reporting"] in
  let* phase := choice_of ["initial"; "processing"; "finalizing"] in
  let* priority := lift (nextInt 1 5) in
  ret (ConversationState.mk activeAgents (length messages) lastMessageTime
         {[ "topic" := of_string topic;
            "phase" := of_string phase;
            "priority" := Num priority ]}).

(** The violations change the conversation they are given, which is handed
    back here.  The generator hands out integers, so the numbers below are
    indices, with [idx1 <= idx2 < length] where the swap is made. *)
Definition injectSequenceViolation (conversation : Conversation.t)
  : F Conversation.t :=
  let messages := Conversation.messages conversation in
  let len := Z.of_nat (length messages) in
  if 2 <=? len then
    let* idx1 := lift (nextInt 0 (len / 2)) in
    let* step := lift (nextInt 1 (len / 2)) in
    let idx2 := (idx1 + step)%js in
    if (idx2 <? ofZ len)%js
    then match as_index idx1, as_index idx2 with
         | Some i, Some j =>
             ret (Conversation.with_messages conversation (swap_nat messages i j))
         | _, _ => ret conversation
         end
    else ret conversation
  else ret conversation.

(** [messages[idx].timestamp += d]: the message is read before [d] is
    drawn. *)
Definition injectTimingViolation (conversation : Conversation.t)
  : F Conversation.t :=
  let messages := Conversation.messages conversation in
  let len := Z.of_nat (length messages) in
  if 2 <=? len then
    let* idx := lift (nextInt 1 (len - 1)) in
    match as_index idx with
    | Some i =>
        match messages !! i with
        | Some m =>
            let* d := lift (nextInt 5000 15000) in
            ret (Conversation.with_messages conversation
                   (<[i := Message.with_timestamp m (Message.timestamp m + d)%js]>
                      messages))
        | None => throw (undefined_has_no "timestamp")
        end
    | None => throw (undefined_has_no "timestamp")
    end
  else ret conversation.

Definition injectContentViolation (conversation : Conversation.t)
  : F Conversation.t :=
  let messages := Conversation.messages conversation in
  let len := Z.of_nat (length messages) in
  if 0 <? len then
    let* idx := lift (nextInt 0 (len - 1)) in
    match as_index idx with
    | Some i =>
        match messages !! i with
        | Some m =>
            let* pii := choice_of piiTypes in
            ret (Conversation.with_messages conversation
                   (<[i := Message.with_content m
                             (Message.content m ++ render pii)%string]> messages))
        | None => throw (undefined_has_no "content")
        end
    | None => throw (undefined_has_no "content")
    end
  else ret conversation.

(** [{ ...msg.metadata, state }]: a missing metadata spreads to nothing. *)
Definition injectStateViolation (conversation : Conversation.t)
  : F Conversation.t :=
  let mark (idx : nat) (msg : Message.t) : Message.t :=
    Message.with_metadata msg
      (Some (<["state" := Str (if Nat.even idx then "active" else "inactive")]>
               (default ∅ (Message.metadata msg)))) in
  ret (Conversation.with_messages conversation
         (imap mark (Conversation.messages conversation))).

Definition createConversationWithViolation (violationType : ViolationType)
    (options : Options.t) : F Conversation.t :=
  let* conversation := createConversation options in
  match violationType with
  | sequence => injectSequenceViolation conversation
  | timing => injectTimingViolation conversation
  | content => injectContentViolation conversation
  | state => injectStateViolation conversation
  end.

(** The world after [draws] calls of [next()], [ids] identifiers and
    [reads] readings of the clock. *)
Definition after (draws ids reads : nat) (w : World) : World :=
  mkWorld (snd (SeededRandom.draws draws (rng w)))
          (idCounter w + Z.of_nat ids)
          (Nat.iter reads (fun c => snd (Date_now c)) (clock w)).

End WithClock.

Arguments Returns {Clock A} a w.
Arguments Throws {Clock A} e w.
Arguments rng {Clock} w.
Arguments idCounter {Clock} w.
Arguments clock {Clock} w.
Arguments mkWorld {Clock} rng idCounter clock.
Arguments world_of {Clock A} o.

Arguments after {Clock} Date_now draws ids reads w.

(** The generator of the factory is in a state of the data model. *)
Definition good {Clock : Type} (w : World Clock) : Prop := seed_in_range (rng w).

(** [c], run in [w], returns a value of [P], and leaves the world [draws]
    draws, [ids] identifiers and [reads] readings of the clock later. *)
Definition runs {Clock : Type} (Date_now : Clock -> Z * Clock) {A : Type}
    (c : F Clock A) (w : World Clock) (draws ids reads : nat) (P : A -> Prop)
  : Prop :=
  exists a, c w = Returns a (after Date_now draws ids reads w) /\ P a.

(** The messages go to the agents in turn, from the agent of index [i] on. *)
Fixpoint round_robin (agents : list Agent.t) (i : nat) (ms : list Message.t)
  : Prop :=
  match ms with
  | [] => True
  | m :: rest =>
      (exists a, agents !! (i mod length agents)%nat = Some a /\
                 Message.agentId m = Agent.id a) /\
      round_robin agents (S i) rest
  end.

(** Every message names the one before it as its parent. *)
Fixpoint chained (parent : option string) (ms : list Message.t) : Prop :=
  match ms with
  | [] => True
  | m :: rest =>
      Message.parentMessageId m = parent /\ chained (Some (Message.id m)) rest
  end.

(** The time stamps are integers, each between [lo] and [hi] after the one
    before it, the first one after [t]. *)
Fixpoint paced (lo hi t : Z) (ms : list Message.t) : Prop :=
  match ms with
  | [] => True
  | m :: rest =>
      exists t', Message.timestamp m = ofZ t' /\ t + lo <= t' <= t + hi /\
                 paced lo hi t' rest
  end.

(** The identifiers carry the prefix and the numbers [counter + 1],
    [counter + 2], ... *)
Fixpoint numbered (prefix : string) (counter : Z) (ids : list string) : Prop :=
  match ids with
  | [] => True
  | id :: rest =>
      (exists t, id = (prefix ++ "_" ++ string_of_Z (counter + 1) ++ "_"
                         ++ string_of_Z t)%string) /\
      numbered prefix (counter + 1) rest
  end.

(** The agents are named and typed by their index, from [i] on, and each has
    2 to 5 capabilities, distinct ones of the six. *)
Fixpoint enrolled (i : nat) (agents : list Agent.t) : Prop :=
  match agents with
  | [] => True
  | a :: rest =>
      Agent.name a = ("Agent-" ++ string_of_Z (Z.of_nat i + 1))%string /\
      Agent.type a = agentTypes !! (i mod 4)%nat /\
      NoDup (Agent.capabilities a) /\
      Forall (fun c => exists x, c = Some x /\ x ∈ allCapabilities)
             (Agent.capabilities a) /\
      (2 <= length (Agent.capabilities a) <= 5)%nat /\
      enrolled (S i) rest
  end.

(** The draws one message takes. *)
Definition draws_per_message (simulateDelays includeMetadata : bool) : nat :=
  (if simulateDelays then 1 else 0) + 10 + (if includeMetadata then 4 else 0).

(** Two outcomes are alike: both return, values related by [R], or both throw
    the same error, and the generators are left in the same state. *)
Definition alike {Clock : Type} {A B : Type} (R : A -> B -> Prop)
    (o1 : Outcome Clock A) (o2 : Outcome Clock B) : Prop :=
  match o1, o2 with
  | Returns a w1, Returns b w2 => R a b /\ rng w1 = rng w2
  | Throws e1 w1, Throws e2 w2 => e1 = e2 /\ rng w1 = rng w2
  | _, _ => False
  end.

(** What of a message the generator alone decides. *)
Definition drawn (m : Message.t)
  : string * number * option string * option (gmap string unknown) :=
  (Message.content m, Message.timestamp m, Message.role m, Message.metadata m).

End ConversationFactory.

(** ** A clock, a factory and a conversation to run the factory on *)

Module FactoryExamples.
Import ConversationFactory.

(** The clock reads one millisecond later at every call. *)
Definition millisecond_clock (t : Z) : Z * Z := (t, t + 1).

(** [new ConversationFactory(42)] in a fresh process. *)
Definition factory : World Z := constructor Z millisecond_clock (Some (ofZ 42)) 0 5000.

Definition agent (id name : string) : Agent.t := Agent.mk id name (Some "worker") [] ∅.

Definition agents : list Agent.t := [agent "a1" "Agent-1"; agent "a2" "Agent-2"].

Definition message (id agentId : string) (time : Z) : Message.t :=
  Message.mk id agentId ("text of " ++ id) (ofZ time) (Some "user") None None.

Definition conversation : Conversation.t :=
  Conversation.mk "c1" "custom" agents
    [message "m1" "a1" 1000; message "m2" "a2" 1100; message "m3" "a1" 1200]
    (ofZ 1000) (ofZ 1200) None.

End FactoryExamples.

(** ** Double precision

    The definitions above compute with exact rationals.  JavaScript rounds
    the exact result of every arithmetic operation to the nearest double, the
    one with the even significand at a tie, and to an infinity from 2^1024
    on.  This module has that rounding and, with it, [next], [nextInt] and
    [nextFloat] as the machine computes them.  Comparisons, [Math.floor] and
    the remainder are exact in double precision. *)

Module Double.

(** 2^e for an integer [e]. *)
Definition pow2 (e : Z) : Q := (2 ^ e)%Q.

(** The nearest integer, the even one at a tie. *)
Definition nearest_even (q : Q) : Z :=
  let f := Qfloor q in
  match (q - inject_Z f ?= 1 # 2)%Q with
  | Lt => f
  | Gt => f + 1
  | Eq => if Z.even f then f else f + 1
  end.

(** The exponent of the last place of a positive [x]: the [e] with
    2^52 <= x / 2^e < 2^53, and -1074 in the subnormal range.  The difference
    [k] of the two logarithms is within 1 of the logarithm of [x]. *)
Definition exponent (x : Q) : Z :=
  let k := Z.log2 (Qnum x) - Z.log2 (Z.pos (Qden x)) in
  let e := if Qle_bool (pow2 k) x then k - 52 else k - 53 in
  Z.max e (-1074).

(** The nearest multiple of the last place of a positive [a], the even one
    at a tie. *)
Definition nearest (a : Q) : Q :=
  let e := exponent a in
  (inject_Z (nearest_even (a / pow2 e)) * pow2 e)%Q.

(** Round to nearest, ties to even. *)
Definition round (x : Q) : number :=
  if is_zero x then ofZ 0
  else
    let y := nearest (Qabs x) in
    if Qle_bool (pow2 1024) y then infinity (is_pos x)
    else fin (if is_pos x then y else - y).

Definition rounded (x : number) : number :=
  match x with
  | Finite q => round q
  | _ => x
  end.

Definition add (a b : number) : number := rounded (a + b)%js.
Definition sub (a b : number) : number := rounded (a - b)%js.
Definition mul (a b : number) : number := rounded (a * b)%js.
Definition div (a b : number) : number := rounded (a / b)%js.

(** A number the program can hold. *)
Definition is_double (x : number) : Prop := rounded x = x.

(** [next()] *)
Definition next : M number := fun g =>
  let seed' := (mul (seed g) MULTIPLIER rem MODULUS)%js in
  Returns (div (sub seed' (ofZ 1)) (sub MODULUS (ofZ 1))) (SeededRandom.mk seed').

Section Rendered.
Variable Number_toString : number -> string.

(** [nextInt(min, max)], for any two numbers. *)
Definition nextInt (min max : number) : M number :=
  if (min >? max)%js
  then throw (new_Error ("Invalid range: min (" ++ Number_toString min
                           ++ ") must be <= max (" ++ Number_toString max ++ ")"))
  else
    let range := add (sub max min) (ofZ 1) in
    let* u := next in
    ret (add (Math_floor (mul u range)) min).

(** [nextFloat(min, max)] *)
Definition nextFloat (min max : number) : M number :=
  if (min >=? max)%js
  then throw (new_Error ("Invalid range: min (" ++ Number_toString min
                           ++ ") must be < max (" ++ Number_toString max ++ ")"))
  else
    let* u := next in
    ret (add (mul u (sub max min)) min).
End Rendered.

(** [String(x)] where it is plain: an integer below 10^21 is printed in
    full, and the values that are no numbers by name.  The digits of a
    fraction and the exponent form of a larger integer are not modelled. *)
Definition decimal (x : number) : string :=
  match x with
  | Finite q =>
      if Qeq_bool q (inject_Z (Qfloor q)) && (Z.abs (Qfloor q) <? 10 ^ 21)
      then string_of_Z (Qfloor q)
      else "?"
  | PosInfinity => "Infinity"
  | NegInfinity => "-Infinity"
  | NaN => "NaN"
  end.

End Double.
(** * Properties *)

(** ** Arithmetic on integer-valued numbers *)

Section IntegerArithmetic.
Implicit Types (a b z : Z) (q : Q).

Lemma Qred_inject_Z z : Qred (inject_Z z) = inject_Z z.
Proof. apply Qred_identity. simpl. apply Z.gcd_1_r. Qed.

Lemma fin_ofZ q z : (q == inject_Z z)%Q -> fin q = ofZ z.
Proof.
  intros H. unfold fin, ofZ. f_equal.
  rewrite (Qred_complete _ _ H). apply Qred_inject_Z.
Qed.

Lemma is_zero_ofZ z : is_zero (inject_Z z) = (z =? 0).
Proof.
  unfold is_zero. apply eq_true_iff_eq.
  rewrite Qeq_bool_iff, Z.eqb_eq. unfold Qeq. simpl. lia.
Qed.

Lemma Qle_bool_inject_Z a b : Qle_bool (inject_Z a) (inject_Z b) = (a <=? b).
Proof.
  apply eq_true_iff_eq.
  rewrite Qle_bool_iff, Z.leb_le. unfold Qle. simpl. lia.
Qed.

Lemma Qeq_bool_inject_Z a b : Qeq_bool (inject_Z a) (inject_Z b) = (a =? b).
Proof.
  apply eq_true_iff_eq.
  rewrite Qeq_bool_iff, Z.eqb_eq. unfold Qeq. simpl. lia.
Qed.

Lemma add_ofZ a b : (ofZ a + ofZ b)%js = ofZ (a + b).
Proof. simpl. apply fin_ofZ. now rewrite inject_Z_plus. Qed.

Lemma neg_ofZ a : neg (ofZ a) = ofZ (- a).
Proof. simpl. apply fin_ofZ. now rewrite inject_Z_opp. Qed.

Lemma sub_ofZ a b : (ofZ a - ofZ b)%js = ofZ (a - b).
Proof. unfold sub. rewrite neg_ofZ, add_ofZ. f_equal. Qed.

Lemma mul_ofZ a b : (ofZ a * ofZ b)%js = ofZ (a * b).
Proof. simpl. apply fin_ofZ. now rewrite inject_Z_mult. Qed.

Lemma lt_ofZ a b : (ofZ a <? ofZ b)%js = (a <? b).
Proof. simpl. rewrite Qle_bool_inject_Z. lia. Qed.

Lemma strict_eq_ofZ a b : (ofZ a === ofZ b)%js = (a =? b).
Proof. simpl. apply Qeq_bool_inject_Z. Qed.

Lemma ge_ofZ a b : (ofZ a >=? ofZ b)%js = (b <=? a).
Proof.
  unfold ge, le. rewrite lt_ofZ, strict_eq_ofZ. lia.
Qed.

Lemma truthy_ofZ z : truthy (ofZ z) = negb (z =? 0).
Proof. simpl. now rewrite is_zero_ofZ. Qed.

Lemma Math_floor_ofZ z : Math_floor (ofZ z) = ofZ z.
Proof. unfold Math_floor, ofZ. now rewrite Qfloor_Z. Qed.

Lemma Math_abs_ofZ z : Math_abs (ofZ z) = ofZ (Z.abs z).
Proof. simpl. apply fin_ofZ. reflexivity. Qed.

Lemma trunc_div_ofZ a b : b <> 0 -> trunc (inject_Z a / inject_Z b) = Z.quot a b.
Proof.
  intros Hb. unfold trunc, Qdiv, Qinv, Qmult, inject_Z. simpl.
  destruct b as [|p|p]; [congruence| |]; simpl.
  - now rewrite Z.mul_1_r.
  - rewrite <- (Z.quot_opp_opp a (Z.neg p)) by discriminate.
    simpl. f_equal. lia.
Qed.

Lemma rem_ofZ a b : b <> 0 -> (ofZ a rem ofZ b)%js = ofZ (Z.rem a b).
Proof.
  intros Hb. unfold remainder, ofZ at 1 2.
  rewrite is_zero_ofZ. destruct (Z.eqb_spec b 0) as [|_]; [congruence|].
  apply fin_ofZ. rewrite trunc_div_ofZ by assumption.
  rewrite <- inject_Z_mult. unfold Qminus. rewrite <- inject_Z_opp, <- inject_Z_plus.
  apply inject_Z_injective. pose proof (Z.quot_rem' a b). lia.
Qed.

Lemma div_ofZ a b : 0 < b -> (ofZ a / ofZ b)%js = fin (a # Z.to_pos b).
Proof.
  intros Hb. unfold div, ofZ.
  rewrite is_zero_ofZ. destruct (Z.eqb_spec b 0) as [|_]; [lia|].
  unfold fin. f_equal. apply Qred_complete.
  rewrite (Qmake_Qdiv a (Z.to_pos b)). now rewrite Z2Pos.id.
Qed.

Lemma Qfloor_scaled a (d : positive) r :
  Qfloor (Qred (Qred (a # d) * inject_Z r)) = (a * r) / Z.pos d.
Proof.
  rewrite (Qfloor_comp _ ((a # d) * inject_Z r)%Q).
  - unfold Qmult, inject_Z, Qfloor. simpl. now rewrite Pos.mul_1_r.
  - rewrite Qred_correct. now rewrite Qred_correct.
Qed.

Lemma floor_fin_scaled a (d : positive) r :
  Math_floor (fin (a # d) * ofZ r)%js = ofZ ((a * r) / Z.pos d).
Proof.
unfold fin, ofZ, mul, fin, Math_floor, ofZ. now rewrite Qfloor_scaled.
Qed.

Lemma floor_scaled a b r :
  0 < b -> Math_floor (ofZ a / ofZ b * ofZ r)%js = ofZ ((a * r) / b).
Proof.
  intros Hb. rewrite div_ofZ by assumption.
  unfold fin, ofZ, mul, fin, Math_floor, ofZ.
  rewrite Qfloor_scaled. now rewrite Z2Pos.id.
Qed.

Lemma as_index_ofZ z : 0 <= z -> as_index (ofZ z) = Some (Z.to_nat z).
Proof.
  intros Hz. unfold as_index, ofZ. rewrite Qfloor_Z.
  rewrite Qeq_bool_inject_Z, Z.eqb_refl. simpl.
  destruct (Z.leb_spec 0 z); [reflexivity | lia].
Qed.

Lemma as_index_of_nat (k : nat) : as_index (ofZ (Z.of_nat k)) = Some k.
Proof. rewrite as_index_ofZ by lia. now rewrite Nat2Z.id. Qed.

Lemma ofZ_inj a b : ofZ a = ofZ b -> a = b.
Proof. unfold ofZ, inject_Z. congruence. Qed.
End IntegerArithmetic.

(** ** The generator on integer seeds *)

Lemma normalized_range z : 1 <= normalized z <= 2 ^ 31 - 2.
Proof.
unfold normalized.
destruct (Z.eqb_spec (Z.abs z) 0) as [E|E]; simpl.
- lia.
- destruct (Z.leb_spec 2147483647 (Z.abs z)) as [L|L].
  + pose proof (Z.rem_bound_pos (Z.abs z) 2147483647 ltac:(lia) ltac:(lia)).
    destruct (Z.eqb_spec (Z.rem (Z.abs z) 2147483647) 0); lia.
  + destruct (Z.eqb_spec (Z.abs z) 0); lia.
Qed.

Lemma constructor_finite q :
  constructor (Finite q) = mk (ofZ (normalized (Qfloor q))).
Proof.
unfold constructor, normalized.
change (Math_floor (Finite q)) with (ofZ (Qfloor q)).
rewrite Math_abs_ofZ. unfold or_else. rewrite truthy_ofZ.
set (a := Z.abs (Qfloor q)).
destruct (Z.eqb_spec a 0) as [E|E]; simpl negb; cbv iota.
- reflexivity.
- unfold MODULUS. rewrite ge_ofZ.
  destruct (Z.leb_spec 2147483647 a) as [L|L].
  + rewrite rem_ofZ by lia. rewrite strict_eq_ofZ.
    now destruct (Z.eqb_spec (Z.rem a 2147483647) 0).
  + rewrite strict_eq_ofZ. now destruct (Z.eqb_spec a 0).
Qed.

Lemma constructor_ofZ z : constructor (ofZ z) = mk (ofZ (normalized z)).
Proof. unfold ofZ at 1. rewrite constructor_finite. now rewrite Qfloor_Z. Qed.

Lemma constructor_in_range q : seed_in_range (constructor (Finite q)).
Proof.
rewrite constructor_finite. eexists. split; [reflexivity|]. apply normalized_range.
Qed.

Lemma lcg_range s : 1 <= s <= 2 ^ 31 - 2 -> 1 <= lcg s <= 2 ^ 31 - 2.
Proof.
intros Hs. unfold lcg.
rewrite Z.rem_mod_nonneg by lia.
pose proof (Z.mod_pos_bound (s * 48271) 2147483647 ltac:(lia)) as Hb.
assert (Hne : (s * 48271) mod 2147483647 <> 0).
{ intros H0. apply Z.mod_divide in H0; [|lia].
  destruct H0 as [k Hk].
  (* 48271 is invertible modulo 2^31-1 *)
  assert (Hinv : 1899818559 * 48271 = 1 + 2147483647 * 42704) by reflexivity.
  assert (Hdiv : s = 2147483647 * (1899818559 * k - 42704 * s)) by lia.
  lia. }
change (2 ^ 31 - 2) with 2147483646. lia.
Qed.

Lemma next_ofZ s :
  next (mk (ofZ s)) =
  Returns (fin ((lcg s - 1) # 2147483646)) (mk (ofZ (lcg s))).
Proof.
unfold next, MULTIPLIER, MODULUS. simpl seed.
rewrite mul_ofZ, rem_ofZ by lia. fold (lcg s).
rewrite !sub_ofZ. change (2147483647 - 1) with 2147483646.
now rewrite div_ofZ by lia.
Qed.

Lemma next_in_range g :
  seed_in_range g ->
  exists u g', next g = Returns u g' /\ unit_interval u /\ seed_in_range g'.
Proof.
intros (s & Hs & Hr). destruct g as [sd]. simpl in Hs. subst sd.
rewrite next_ofZ. do 2 eexists. split; [reflexivity|].
pose proof (lcg_range s Hr) as Hl. split.
- eexists. split; [reflexivity|].
  rewrite !Qred_correct. unfold Qle, Qlt. simpl.
  change (2 ^ 31 - 2) with 2147483646 in Hl. lia.
- exists (lcg s). now split.
Qed.

Lemma nextInt_ofZ min max s :
  min <= max ->
  nextInt min max (mk (ofZ s)) =
  Returns (ofZ (nextInt_Z min max s)) (mk (ofZ (lcg s))).
Proof.
intros Hle. unfold nextInt.
destruct (Z.gtb_spec min max) as [G|_]; [lia|].
unfold bind. rewrite next_ofZ. unfold ret.
rewrite floor_fin_scaled, add_ofZ. reflexivity.
Qed.

Lemma nextInt_Z_range min max s :
  min <= max -> 1 <= s <= 2 ^ 31 - 2 -> min <= nextInt_Z min max s <= max.
Proof.
intros Hle Hs. unfold nextInt_Z.
pose proof (lcg_range s Hs) as Hl. change (2 ^ 31 - 2) with 2147483646 in Hl.
set (a := lcg s - 1) in *. set (r := max - min + 1).
assert (0 <= a * r / 2147483646) by (apply Z.div_pos; nia).
assert (a * r / 2147483646 < r) by (apply Z.div_lt_upper_bound; nia).
lia.
Qed.

Lemma draws_in_range n g :
  seed_in_range g ->
  length (fst (draws n g)) = n /\
  Forall unit_interval (fst (draws n g)) /\
  seed_in_range (snd (draws n g)).
Proof.
revert g. induction n as [|n IH]; intros g Hg.
- simpl. repeat split; [constructor | assumption].
- destruct (next_in_range g Hg) as (u & g' & E & Hu & Hg').
  cbn [draws]. rewrite E. specialize (IH g' Hg').
  destruct (draws n g') as [us g'']. simpl in *.
  destruct IH as (IH1 & IH2 & IH3). repeat split; auto.
Qed.

(** Every finite construction seed (zero, negative, fractional, large) is
    normalised into [1, 2^31-2]; the seed stays there under [next()], and
    every draw lies in [0, 1). *)
Lemma finite_seed_invariant (q : Q) (n : nat) :
  seed_in_range (constructor (Finite q)) /\
  length (fst (draws n (constructor (Finite q)))) = n /\
  Forall unit_interval (fst (draws n (constructor (Finite q)))) /\
  seed_in_range (snd (draws n (constructor (Finite q)))).
Proof.
split; [apply constructor_in_range|].
apply draws_in_range, constructor_in_range.
Qed.

(** NaN is coerced to 1 by [|| 1]. *)
Lemma constructor_NaN : constructor NaN = mk (ofZ 1).
Proof. reflexivity. Qed.

(** ** Arrays: swaps are permutations *)

Section ArrayFacts.
Context {T : Type} (undefined : T).
Implicit Types (xs result : list T) (i j k : nat).

Lemma array_get_nat xs k x :
  xs !! k = Some x -> array_get undefined xs (ofZ (Z.of_nat k)) = x.
Proof. intros H. unfold array_get. now rewrite as_index_of_nat, H. Qed.

Lemma array_set_nat xs k v :
  (k < length xs)%nat -> array_set undefined xs (ofZ (Z.of_nat k)) v = <[k := v]> xs.
Proof.
intros H. unfold array_set. rewrite as_index_of_nat.
destruct (decide (k < length xs)%nat); [reflexivity | lia].
Qed.

Lemma swap_in_range result i j :
  (i < length result)%nat -> (j < length result)%nat ->
  swap undefined result (ofZ (Z.of_nat i)) (ofZ (Z.of_nat j)) = swap_nat result i j.
Proof.
intros Hi Hj. unfold swap, swap_nat.
destruct (lookup_lt_is_Some_2 result i Hi) as [x Hx].
destruct (lookup_lt_is_Some_2 result j Hj) as [y Hy].
rewrite Hx, Hy.
rewrite (array_get_nat _ _ _ Hx), (array_get_nat _ _ _ Hy).
rewrite (array_set_nat result i) by assumption.
rewrite array_set_nat by (rewrite length_insert; assumption).
reflexivity.
Qed.

Lemma insert_cons_perm xs j x y :
  xs !! j = Some y -> y :: <[j := x]> xs ≡ₚ x :: xs.
Proof.
revert j. induction xs as [|a t IH]; intros [|j] H; simplify_eq/=.
- apply perm_swap.
- rewrite perm_swap. rewrite (IH _ H). apply perm_swap.
Qed.

Lemma insert_insert_perm xs i j x y :
  xs !! i = Some x -> xs !! j = Some y -> <[j := x]> (<[i := y]> xs) ≡ₚ xs.
Proof.
revert i j. induction xs as [|a t IH]; intros [|i] [|j] Hi Hj; simplify_eq/=.
- reflexivity.
- now apply insert_cons_perm.
- now apply insert_cons_perm.
- f_equiv. now apply IH.
Qed.

Lemma swap_nat_perm result i j : swap_nat result i j ≡ₚ result.
Proof.
unfold swap_nat.
destruct (result !! i) as [x|] eqn:Hi; [|reflexivity].
destruct (result !! j) as [y|] eqn:Hj; [|reflexivity].
now apply insert_insert_perm.
Qed.

Lemma swap_nat_length result i j : length (swap_nat result i j) = length result.
Proof. apply Permutation_length, swap_nat_perm. Qed.

Lemma shuffle_Z_perm i result s : fst (shuffle_Z i result s) ≡ₚ result.
Proof.
revert result s. induction i as [|i IH]; intros result s; simpl; [reflexivity|].
rewrite IH. apply swap_nat_perm.
Qed.

Lemma shuffle_Z_seed i result s :
  1 <= s <= 2 ^ 31 - 2 -> 1 <= snd (shuffle_Z i result s) <= 2 ^ 31 - 2.
Proof.
revert result s. induction i as [|i IH]; intros result s Hs; simpl; [assumption|].
apply IH, lcg_range, Hs.
Qed.

(** On an integer seed of the valid range the loop of [shuffle] never reads or
    writes outside the array and is the loop [shuffle_Z]. *)
Lemma shuffle_loop_ofZ i result s :
  1 <= s <= 2 ^ 31 - 2 -> (i < length result \/ i = 0)%nat ->
  shuffle_loop undefined i result (mk (ofZ s)) =
  Returns (fst (shuffle_Z i result s)) (mk (ofZ (snd (shuffle_Z i result s)))).
Proof.
revert result s. induction i as [|i IH]; intros result s Hs Hi; [reflexivity|].
cbn [shuffle_loop shuffle_Z]. unfold bind.
rewrite nextInt_ofZ by lia.
pose proof (nextInt_Z_range 0 (Z.of_nat (S i)) s ltac:(lia) Hs) as Hj.
set (j := nextInt_Z 0 (Z.of_nat (S i)) s) in *.
rewrite <- (Z2Nat.id j) at 1 by lia.
rewrite swap_in_range by lia.
apply IH; [now apply lcg_range|].
rewrite swap_nat_length. lia.
Qed.

Lemma shuffle_ofZ xs s :
  1 <= s <= 2 ^ 31 - 2 ->
  shuffle undefined xs (mk (ofZ s)) =
  Returns (fst (shuffle_Z (length xs - 1) xs s))
          (mk (ofZ (snd (shuffle_Z (length xs - 1) xs s)))).
Proof.
intros Hs. unfold shuffle. apply shuffle_loop_ofZ; [assumption|].
destruct xs; simpl; lia.
Qed.

End ArrayFacts.

Lemma swap_nat_fmap {S T : Type} (f : S -> T) (l : list S) i j :
  swap_nat (f <$> l) i j = f <$> swap_nat l i j.
Proof.
unfold swap_nat. rewrite !list_lookup_fmap.
destruct (l !! i) as [x|]; [|reflexivity].
destruct (l !! j) as [y|]; [|reflexivity].
simpl. now rewrite !list_fmap_insert.
Qed.

Lemma shuffle_Z_fmap {S T : Type} (f : S -> T) i (l : list S) s :
  shuffle_Z i (f <$> l) s = (f <$> fst (shuffle_Z i l s), snd (shuffle_Z i l s)).
Proof.
revert l s. induction i as [|i IH]; intros l s; simpl; [reflexivity|].
rewrite swap_nat_fmap. apply IH.
Qed.

(** ** The store-level [shuffle] *)

Section StoreFacts.
Context {T : Type} (undefined : T).
Implicit Types (h : gmap Store.ref (list T)) (l : list T).

Lemma store_loop_pure i result h l g :
  h !! result = Some l ->
  Store.shuffle_loop undefined i result h g =
  match shuffle_loop undefined i l g with
  | Returns l' g' => Returns (<[result := l']> h) g'
  | Throws e g' => Throws e g'
  end.
Proof.
revert h l g. induction i as [|i IH]; intros h l g Hl.
- simpl. unfold ret. now rewrite insert_id.
- cbn [Store.shuffle_loop shuffle_loop]. unfold bind.
  destruct (nextInt 0 (Z.of_nat (S i)) g) as [j g1|e g1]; [|reflexivity].
  unfold Store.read, Store.write, Store.contents.
  rewrite Hl. simpl default. rewrite lookup_insert_eq. simpl default.
  rewrite insert_insert_eq.
  erewrite IH by apply lookup_insert_eq.
  unfold swap.
  destruct (shuffle_loop undefined i _ g1); [|reflexivity].
  now rewrite insert_insert_eq.
Qed.

Lemma store_shuffle_pure array h xs g :
  h !! array = Some xs ->
  Store.shuffle undefined array h g =
  match shuffle undefined xs g with
  | Returns ys g' =>
      Returns (fresh (dom h), <[fresh (dom h) := ys]> h) g'
  | Throws e g' => Throws e g'
  end.
Proof.
intros Hx. unfold Store.shuffle, Store.alloc, shuffle.
assert (Hc : Store.contents h array = xs) by (unfold Store.contents; now rewrite Hx).
rewrite Hc.
assert (Hr : Store.contents (<[fresh (dom h) := xs]> h) (fresh (dom h)) = xs)
  by (unfold Store.contents; now rewrite lookup_insert_eq).
rewrite Hr. unfold bind.
erewrite store_loop_pure by apply lookup_insert_eq.
destruct (shuffle_loop undefined (length xs - 1) xs g); [|reflexivity].
unfold ret. now rewrite insert_insert_eq.
Qed.

End StoreFacts.

(** * Double precision: what rounding keeps *)

Section Rounding.
Import Double.

Lemma pow2_pos e : (0 < pow2 e)%Q.
Proof. apply Qpower_0_lt. reflexivity. Qed.

Lemma pow2_plus a b : (pow2 (a + b) == pow2 a * pow2 b)%Q.
Proof. apply Qpower_plus. discriminate. Qed.

Lemma pow2_inject (a : Z) : 0 <= a -> (pow2 a == inject_Z (2 ^ a))%Q.
Proof. intros H. unfold pow2. now rewrite Zpower_Qpower. Qed.

Lemma pow2_lt_inv a b : (pow2 a < pow2 b)%Q -> a < b.
Proof. intros H. apply (Qpower_lt_compat_l_inv 2); [exact H | reflexivity]. Qed.

Lemma pow2_le a b : a <= b -> (pow2 a <= pow2 b)%Q.
Proof. intros H. apply Qpower_le_compat_l; [exact H | discriminate]. Qed.

Lemma nearest_even_error (q : Q) :
  (inject_Z (nearest_even q) - q <= 1 # 2)%Q /\
  (q - inject_Z (nearest_even q) <= 1 # 2)%Q.
Proof.
unfold nearest_even.
pose proof (Qfloor_le q) as Hf. pose proof (Qlt_floor q) as Hc.
rewrite inject_Z_plus in Hc. change (inject_Z 1) with 1%Q in Hc.
destruct (Qcompare_spec (q - inject_Z (Qfloor q)) (1 # 2)) as [E|L|G].
- destruct (Z.even (Qfloor q)).
  + split; lra.
  + rewrite inject_Z_plus. change (inject_Z 1) with 1%Q. split; lra.
- split; lra.
- rewrite inject_Z_plus. change (inject_Z 1) with 1%Q. split; lra.
Qed.

Lemma nearest_even_Z (q : Q) (n : Z) : (q == inject_Z n)%Q -> nearest_even q = n.
Proof.
intros E. unfold nearest_even.
rewrite (Qfloor_comp _ _ E), Qfloor_Z.
destruct (Qcompare_spec (q - inject_Z n) (1 # 2)) as [H|H|H];
  [lra | reflexivity | lra].
Qed.

(** The exponent of a positive number: never below -1074, above the number
    by less than 53 places, and within 52 unless it is clamped. *)
Lemma exponent_bounds (x : Q) :
  (0 < x)%Q ->
  -1074 <= exponent x /\
  (x < pow2 (53 + exponent x))%Q /\
  (exponent x = -1074 \/ (pow2 (52 + exponent x) <= x)%Q).
Proof.
intros Hpos.
unfold exponent.
set (n := Qnum x). set (d := Z.pos (Qden x)).
assert (Hn : 0 < n).
{ unfold n. destruct x as [a b]. unfold Qlt in Hpos. simpl in *. lia. }
assert (Hd : 0 < d) by (unfold d; lia).
pose proof (Z.log2_spec n Hn) as [Ln Un].
pose proof (Z.log2_spec d Hd) as [Ld Ud].
pose proof (Z.log2_nonneg n) as Nn. pose proof (Z.log2_nonneg d) as Nd.
set (ln := Z.log2 n) in *. set (ld := Z.log2 d) in *.
assert (Ex : (x * inject_Z d == inject_Z n)%Q).
{ unfold n, d. destruct x as [a b]. unfold Qeq, Qmult, inject_Z. simpl. lia. }
assert (Up : (x < pow2 (ln - ld + 1))%Q).
{ apply (Qmult_lt_r _ _ (pow2 ld)); [apply pow2_pos|].
  rewrite <- pow2_plus. replace (ln - ld + 1 + ld) with (Z.succ ln) by lia.
  rewrite !pow2_inject by lia.
  assert (H1 : (inject_Z (2 ^ ld) <= inject_Z d)%Q) by now rewrite <- Zle_Qle.
  assert (H2 : (inject_Z n < inject_Z (2 ^ Z.succ ln))%Q) by now rewrite <- Zlt_Qlt.
  assert (H3 : (x * inject_Z (2 ^ ld) <= x * inject_Z d)%Q).
  { apply Qmult_le_l; assumption. }
  lra. }
set (k := ln - ld) in *.
destruct (Qle_bool (pow2 k) x) eqn:E.
- apply Qle_bool_iff in E.
  destruct (Z.le_gt_cases (-1074) (k - 52)) as [Hk|Hk].
  + rewrite Z.max_l by lia. split; [lia|].
    replace (52 + (k - 52)) with k by lia. replace (53 + (k - 52)) with (k + 1) by lia.
    split; [assumption | now right].
  + rewrite Z.max_r by lia. split; [lia|]. split; [|now left].
    eapply Qlt_le_trans; [exact Up|]. apply pow2_le. lia.
- assert (E' : (x < pow2 k)%Q).
  { apply Qnot_le_lt. intros H. apply Qle_bool_iff in H. congruence. }
  assert (Lo : (pow2 (k - 1) < x)%Q).
  { apply (Qmult_lt_r _ _ (pow2 (Z.succ ld))); [apply pow2_pos|].
    rewrite <- pow2_plus. replace (k - 1 + Z.succ ld) with ln by lia.
    rewrite !pow2_inject by lia.
    assert (H1 : (inject_Z d < inject_Z (2 ^ Z.succ ld))%Q) by now rewrite <- Zlt_Qlt.
    assert (H2 : (inject_Z (2 ^ ln) <= inject_Z n)%Q) by now rewrite <- Zle_Qle.
    assert (H3 : (x * inject_Z d < x * inject_Z (2 ^ Z.succ ld))%Q).
    { apply Qmult_lt_l; assumption. }
    lra. }
  destruct (Z.le_gt_cases (-1074) (k - 53)) as [Hk|Hk].
  + rewrite Z.max_l by lia. split; [lia|].
    replace (52 + (k - 53)) with (k - 1) by lia. replace (53 + (k - 53)) with k by lia.
    split; [assumption | right; now apply Qlt_le_weak].
  + rewrite Z.max_r by lia. split; [lia|]. split; [|now left].
    eapply Qlt_le_trans; [exact E'|]. apply pow2_le. lia.
Qed.

(** In the normal range the significand [x / 2^e] has 53 bits. *)
Lemma exponent_spec (x : Q) :
  (pow2 (-1022) <= x)%Q ->
  (pow2 (52 + exponent x) <= x)%Q /\ (x < pow2 (53 + exponent x))%Q.
Proof.
intros Hx.
assert (Hpos : (0 < x)%Q) by (pose proof (pow2_pos (-1022)); lra).
destruct (exponent_bounds x Hpos) as (_ & Up & [E|Lo]).
- split; [|assumption]. now rewrite E.
- split; assumption.
Qed.

Lemma Qabs_of_pos (x : Q) : (0 < x)%Q -> Qabs x = x.
Proof.
destruct x as [a b]. unfold Qlt. simpl. intros H.
unfold Qabs. f_equal. apply Z.abs_eq. lia.
Qed.

Lemma is_zero_false (x : Q) : ~ (x == 0)%Q -> is_zero x = false.
Proof.
intros H. unfold is_zero. destruct (Qeq_bool x 0) eqn:E; [|reflexivity].
apply Qeq_bool_eq in E. contradiction.
Qed.

Lemma is_pos_true (x : Q) : (0 < x)%Q -> is_pos x = true.
Proof.
intros H. unfold is_pos. destruct (Qle_bool x 0) eqn:E; [|reflexivity].
apply Qle_bool_iff in E. lra.
Qed.

Lemma is_pos_false (x : Q) : (x <= 0)%Q -> is_pos x = false.
Proof. intros H. unfold is_pos. apply Qle_bool_iff in H. now rewrite H. Qed.

(** In the normal range rounding moves a value by at most one part in 2^53
    of it. *)
Lemma round_error (x : Q) :
  (pow2 (-1022) <= x)%Q -> (x <= pow2 1023)%Q ->
  exists y, round x = Finite y /\
            (x - x * pow2 (-53) <= y)%Q /\ (y <= x + x * pow2 (-53))%Q.
Proof.
intros Hlo Hhi.
assert (Hpos : (0 < x)%Q) by (pose proof (pow2_pos (-1022)); lra).
destruct (exponent_spec x Hlo) as [B1 B2].
unfold round, nearest. rewrite is_zero_false by lra.
rewrite (Qabs_of_pos x Hpos), (is_pos_true x Hpos).
set (e := exponent x) in *.
set (t := (x / pow2 e)%Q).
destruct (nearest_even_error t) as [E1 E2].
set (m := inject_Z (nearest_even t)) in *.
pose proof (pow2_pos e) as Pe.
assert (Et : (t * pow2 e == x)%Q).
{ unfold t. field. lra. }
assert (P52 : (pow2 (52 + e) == pow2 52 * pow2 e)%Q) by apply pow2_plus.
assert (H52 : (pow2 52 == 4503599627370496)%Q) by reflexivity.
assert (H53 : (pow2 (-53) == 1 # 9007199254740992)%Q) by reflexivity.
assert (Hm1 : (m * pow2 e - x <= (1 # 2) * pow2 e)%Q).
{ rewrite <- Et. nra. }
assert (Hm2 : (x - m * pow2 e <= (1 # 2) * pow2 e)%Q).
{ rewrite <- Et. nra. }
assert (Hulp : ((1 # 2) * pow2 e <= x * pow2 (-53))%Q).
{ rewrite H53. rewrite P52, H52 in B1. lra. }
assert (H1024 : (pow2 1024 == 2 * pow2 1023)%Q) by reflexivity.
assert (Hy : (m * pow2 e < pow2 1024)%Q).
{ rewrite H1024. rewrite H53 in Hulp. lra. }
destruct (Qle_bool (pow2 1024) (m * pow2 e)) eqn:E.
{ apply Qle_bool_iff in E. lra. }
exists (Qred (m * pow2 e)). split; [reflexivity|].
rewrite Qred_correct. split; lra.
Qed.

Lemma round_zero : round 0 = ofZ 0.
Proof. reflexivity. Qed.

(** Integers up to 2^53 are doubles. *)
Lemma round_ofZ_pos (z : Z) : 0 < z <= 2 ^ 53 -> round (inject_Z z) = ofZ z.
Proof.
intros Hz.
destruct (Z.eq_dec z (2 ^ 53)) as [->|Hne]; [reflexivity|].
assert (Hpos : (0 < inject_Z z)%Q).
{ change 0%Q with (inject_Z 0). rewrite <- Zlt_Qlt. lia. }
assert (Hlo : (pow2 (-1022) <= inject_Z z)%Q).
{ assert (H1 : (1 <= inject_Z z)%Q).
  { change 1%Q with (inject_Z 1). rewrite <- Zle_Qle. lia. }
  pose proof (pow2_le (-1022) 0 ltac:(lia)) as H0.
  change (pow2 0) with 1%Q in H0. lra. }
destruct (exponent_spec _ Hlo) as [B1 B2].
unfold round, nearest. rewrite is_zero_false by lra.
rewrite (Qabs_of_pos _ Hpos), (is_pos_true _ Hpos).
set (e := exponent (inject_Z z)) in *.
assert (He : e <= 0).
{ assert (H : (pow2 (52 + e) < pow2 53)%Q).
  { eapply Qle_lt_trans; [exact B1|].
    rewrite (pow2_inject 53) by lia. rewrite <- Zlt_Qlt. lia. }
  apply pow2_lt_inv in H. lia. }
pose proof (pow2_pos e) as Pe.
assert (Pinv : (pow2 e * inject_Z (2 ^ (- e)) == 1)%Q).
{ rewrite <- pow2_inject by lia. rewrite <- pow2_plus.
  replace (e + - e) with 0 by lia. reflexivity. }
assert (Et : (inject_Z z / pow2 e == inject_Z (z * 2 ^ (- e)))%Q).
{ rewrite inject_Z_mult. field_simplify_eq; [|lra]. nra. }
rewrite (nearest_even_Z _ _ Et).
assert (Ey : (inject_Z (z * 2 ^ (- e)) * pow2 e == inject_Z z)%Q).
{ rewrite inject_Z_mult. nra. }
destruct (Qle_bool (pow2 1024) (inject_Z (z * 2 ^ (- e)) * pow2 e)) eqn:E.
{ apply Qle_bool_iff in E. rewrite Ey in E.
  assert (H : (inject_Z z < pow2 1024)%Q).
  { rewrite (pow2_inject 1024) by lia. rewrite <- Zlt_Qlt.
    assert (2 ^ 53 < 2 ^ 1024) by (apply Z.pow_lt_mono_r; lia). lia. }
  lra. }
now apply fin_ofZ.
Qed.

Lemma round_ofZ (z : Z) : - 2 ^ 53 <= z <= 2 ^ 53 -> round (inject_Z z) = ofZ z.
Proof.
intros Hz. destruct (Z.lt_trichotomy z 0) as [N|[->|P]].
- pose proof (round_ofZ_pos (- z) ltac:(lia)) as H.
  assert (Hneg : (inject_Z z < 0)%Q).
  { change 0%Q with (inject_Z 0). rewrite <- Zlt_Qlt. lia. }
  unfold round, nearest in *. rewrite is_zero_false by lra.
  assert (Hp : (0 < inject_Z (- z))%Q).
  { change 0%Q with (inject_Z 0). rewrite <- Zlt_Qlt. lia. }
  rewrite is_zero_false in H by lra.
  rewrite (Qabs_of_pos _ Hp), (is_pos_true _ Hp) in H.
  assert (Ea : Qabs (inject_Z z) = inject_Z (- z)).
  { unfold Qabs, inject_Z. f_equal. lia. }
  rewrite Ea, (is_pos_false (inject_Z z)) by lra.
  destruct (Qle_bool _ _); [discriminate|].
  unfold fin, ofZ in *. injection H as H. f_equal.
  apply (f_equal Qopp) in H. rewrite <- Qred_opp in H. rewrite H.
  unfold Qopp, inject_Z. simpl. f_equal. lia.
- reflexivity.
- apply round_ofZ_pos. lia.
Qed.

Lemma round_eq_zero (x : Q) : (x == 0)%Q -> round x = ofZ 0.
Proof.
intros H. unfold round, is_zero. apply Qeq_bool_iff in H. now rewrite H.
Qed.

Lemma rounded_ofZ (z : Z) : - 2 ^ 53 <= z <= 2 ^ 53 -> rounded (ofZ z) = ofZ z.
Proof. apply round_ofZ. Qed.

(** *** The generator in double precision *)

(** On a seed of the valid range [next()] moves the seed as in exact
    arithmetic and returns a double of [0, 1 - 2^-32], which is 0 or at
    least 2^-32. *)
Lemma double_next_ofZ (s : Z) :
  1 <= s <= 2 ^ 31 - 2 ->
  exists u : Q,
    Double.next (SeededRandom.mk (ofZ s))
    = Returns (Finite u) (SeededRandom.mk (ofZ (lcg s))) /\
    ((u == 0)%Q \/ (pow2 (-32) <= u)%Q) /\ (u <= 1 - pow2 (-32))%Q.
Proof.
intros Hs. pose proof (lcg_range s Hs) as Hl.
change (2 ^ 31 - 2) with 2147483646 in Hs, Hl.
unfold Double.next, Double.mul, Double.sub, Double.div, MULTIPLIER, MODULUS.
cbn [seed].
rewrite mul_ofZ, rounded_ofZ by (change (2 ^ 53) with 9007199254740992; lia).
rewrite rem_ofZ by lia. fold (lcg s).
rewrite !sub_ofZ, !rounded_ofZ by (change (2 ^ 53) with 9007199254740992; lia).
change (2147483647 - 1) with 2147483646.
rewrite div_ofZ by lia. unfold fin. cbn [rounded].
set (x := Qred ((lcg s - 1) # Z.to_pos 2147483646)).
assert (Ex : (x == inject_Z (lcg s - 1) / 2147483646)%Q).
{ unfold x. rewrite Qred_correct. rewrite Qmake_Qdiv. reflexivity. }
assert (H32 : (pow2 (-32) == 1 # 4294967296)%Q) by reflexivity.
assert (H53 : (pow2 (-53) == 1 # 9007199254740992)%Q) by reflexivity.
destruct (Z.eq_dec (lcg s) 1) as [E1|N1].
- exists 0%Q. split.
  + f_equal. unfold x. rewrite E1. reflexivity.
  + split; [now left|]. rewrite H32. lra.
- assert (L1 : (1 <= inject_Z (lcg s - 1))%Q).
  { change 1%Q with (inject_Z 1). rewrite <- Zle_Qle. lia. }
  assert (L2 : (inject_Z (lcg s - 1) <= 2147483645)%Q).
  { change 2147483645%Q with (inject_Z 2147483645). rewrite <- Zle_Qle. lia. }
  assert (Lx : ((1 # 2147483646) <= x)%Q).
  { rewrite Ex. apply Qle_shift_div_l; [reflexivity|]. lra. }
  assert (Ux : (x <= 2147483645 # 2147483646)%Q).
  { rewrite Ex. apply Qle_shift_div_r; [reflexivity|]. lra. }
  destruct (round_error x) as (y & Ey & Y1 & Y2).
  { pose proof (pow2_le (-1022) (-32) ltac:(lia)) as H0. rewrite H32 in H0. lra. }
  { pose proof (pow2_le 0 1023 ltac:(lia)) as H0. change (pow2 0) with 1%Q in H0. lra. }
  exists y. split; [now rewrite Ey|].
  rewrite H53 in Y1, Y2. rewrite H32. split; [right|]; lra.
Qed.

(** [nextInt(min, max)] on integers that doubles hold exactly, together with
    their difference: the result is an integer of [[min, max]]. *)
Lemma double_nextInt_ofZ (Number_toString : number -> string) (min max s : Z) :
  1 <= s <= 2 ^ 31 - 2 ->
  - 2 ^ 53 <= min -> max <= 2 ^ 53 -> min <= max -> max - min < 2 ^ 53 ->
  exists k,
    Double.nextInt Number_toString (ofZ min) (ofZ max) (SeededRandom.mk (ofZ s))
    = Returns (ofZ k) (SeededRandom.mk (ofZ (lcg s))) /\
    min <= k <= max.
Proof.
intros Hs Hmin Hmax Hle Hd.
unfold Double.nextInt, gt. rewrite lt_ofZ.
destruct (Z.ltb_spec max min) as [|_]; [lia|].
unfold Double.add at 2, Double.sub.
rewrite sub_ofZ, rounded_ofZ by lia.
rewrite add_ofZ, rounded_ofZ by lia.
set (R := max - min + 1).
unfold bind. destruct (double_next_ofZ s Hs) as (u & -> & Hu0 & Hu1). unfold ret.
assert (H32 : (pow2 (-32) == 1 # 4294967296)%Q) by reflexivity.
assert (H53 : (pow2 (-53) == 1 # 9007199254740992)%Q) by reflexivity.
assert (HR1 : (1 <= inject_Z R)%Q).
{ change 1%Q with (inject_Z 1). rewrite <- Zle_Qle. unfold R. lia. }
assert (HR2 : (inject_Z R <= 9007199254740992)%Q).
{ change 9007199254740992%Q with (inject_Z (2 ^ 53)). rewrite <- Zle_Qle. unfold R. lia. }
unfold Double.mul. change (Finite u * ofZ R)%js with (fin (u * inject_Z R)).
unfold fin. cbn [rounded].
set (x := Qred (u * inject_Z R)).
assert (Ex : (x == u * inject_Z R)%Q) by (unfold x; apply Qred_correct).
assert (Hf : exists f, Math_floor (round x) = ofZ f /\ 0 <= f <= R - 1).
{ destruct Hu0 as [U0|U0].
  - exists 0. rewrite round_eq_zero by (rewrite Ex, U0; ring).
    split; [reflexivity | unfold R; lia].
  - rewrite H32 in U0, Hu1.
    assert (X1 : ((1 # 4294967296) <= x)%Q) by (rewrite Ex; nra).
    assert (X2 : (x <= (4294967295 # 4294967296) * inject_Z R)%Q) by (rewrite Ex; nra).
    destruct (round_error x) as (y & Ey & Y1 & Y2).
    { pose proof (pow2_le (-1022) (-32) ltac:(lia)) as H0. rewrite H32 in H0. lra. }
    { pose proof (pow2_le 53 1023 ltac:(lia)) as H0.
      change (pow2 53) with 9007199254740992%Q in H0. lra. }
    rewrite H53 in Y1, Y2.
    exists (Qfloor y). rewrite Ey. split; [reflexivity|]. split.
    + change 0 with (Qfloor 0). apply Qfloor_resp_le. lra.
    + pose proof (Qfloor_le y) as Fy.
      assert (F : (inject_Z (Qfloor y) < inject_Z R)%Q) by lra.
      rewrite <- Zlt_Qlt in F. lia. }
destruct Hf as (f & -> & Hf).
exists (f + min). unfold Double.add.
rewrite add_ofZ, rounded_ofZ by (unfold R in Hf; lia).
split; [reflexivity | unfold R in Hf; lia].
Qed.

End Rounding.

(** * Double precision: rounding keeps the order *)

Section Monotone.
Import Double.

Lemma nearest_even_mono (q r : Q) : (q <= r)%Q -> nearest_even q <= nearest_even r.
Proof.
intros H. pose proof (Qfloor_resp_le _ _ H) as Hf.
pose proof (Qfloor_le q) as Q1. pose proof (Qlt_floor q) as Q2.
pose proof (Qfloor_le r) as R1. pose proof (Qlt_floor r) as R2.
unfold nearest_even.
destruct (Z.eq_dec (Qfloor q) (Qfloor r)) as [E|N].
- rewrite <- E in *.
  destruct (Qcompare_spec (q - inject_Z (Qfloor q)) (1 # 2)) as [A|A|A];
  destruct (Qcompare_spec (r - inject_Z (Qfloor q)) (1 # 2)) as [B|B|B];
  try destruct (Z.even (Qfloor q)); try lia; lra.
- destruct (Qcompare_spec (q - inject_Z (Qfloor q)) (1 # 2)) as [A|A|A];
  destruct (Qcompare_spec (r - inject_Z (Qfloor r)) (1 # 2)) as [B|B|B];
  try destruct (Z.even (Qfloor q)); try destruct (Z.even (Qfloor r)); lia.
Qed.

Lemma exponent_mono (x y : Q) : (0 < x)%Q -> (x <= y)%Q -> exponent x <= exponent y.
Proof.
intros Hx Hxy.
destruct (exponent_bounds x Hx) as (X0 & X1 & X2).
destruct (exponent_bounds y ltac:(lra)) as (Y0 & Y1 & Y2).
destruct X2 as [->|X2]; [lia|].
assert (H : (pow2 (52 + exponent x) < pow2 (53 + exponent y))%Q) by lra.
apply pow2_lt_inv in H. lia.
Qed.

(** The significand has at most 53 bits. *)
Lemma significand_bounds (x : Q) :
  (0 < x)%Q ->
  0 <= nearest_even (x / pow2 (exponent x)) <= 2 ^ 53 /\
  (exponent x = -1074 \/ 2 ^ 52 <= nearest_even (x / pow2 (exponent x))).
Proof.
intros Hx. destruct (exponent_bounds x Hx) as (X0 & X1 & X2).
set (e := exponent x) in *. pose proof (pow2_pos e) as Pe.
assert (T0 : (inject_Z 0 <= x / pow2 e)%Q).
{ change (inject_Z 0) with 0%Q. apply Qle_shift_div_l; [assumption | lra]. }
assert (T1 : (x / pow2 e <= inject_Z (2 ^ 53))%Q).
{ apply Qle_shift_div_r; [assumption|].
  rewrite <- pow2_inject by lia. rewrite <- pow2_plus. now apply Qlt_le_weak. }
apply nearest_even_mono in T0, T1.
rewrite (nearest_even_Z (inject_Z 0) 0) in T0 by reflexivity.
rewrite (nearest_even_Z (inject_Z (2 ^ 53)) (2 ^ 53)) in T1 by reflexivity.
split; [lia|].
destruct X2 as [X2|X2]; [now left | right].
assert (T2 : (inject_Z (2 ^ 52) <= x / pow2 e)%Q).
{ apply Qle_shift_div_l; [assumption|].
  rewrite <- pow2_inject by lia. now rewrite <- pow2_plus. }
apply nearest_even_mono in T2.
now rewrite (nearest_even_Z (inject_Z (2 ^ 52)) (2 ^ 52)) in T2 by reflexivity.
Qed.

Lemma nearest_nonneg (x : Q) : (0 < x)%Q -> (0 <= nearest x)%Q.
Proof.
intros Hx. destruct (significand_bounds x Hx) as [[H _] _].
unfold nearest. pose proof (pow2_pos (exponent x)).
apply Qmult_le_0_compat; [|lra].
change 0%Q with (inject_Z 0). now rewrite <- Zle_Qle.
Qed.

(** Rounding keeps the order of positive numbers. *)
Lemma nearest_mono (x y : Q) : (0 < x)%Q -> (x <= y)%Q -> (nearest x <= nearest y)%Q.
Proof.
intros Hx Hxy. assert (Hy : (0 < y)%Q) by lra.
pose proof (exponent_mono x y Hx Hxy) as He.
destruct (significand_bounds x Hx) as [[_ SX] _].
destruct (significand_bounds y Hy) as [_ SY].
destruct (exponent_bounds x Hx) as (X0 & _ & _).
unfold nearest.
set (ex := exponent x) in *. set (ey := exponent y) in *.
set (mx := nearest_even (x / pow2 ex)) in *.
set (my := nearest_even (y / pow2 ey)) in *.
pose proof (pow2_pos ex) as Px. pose proof (pow2_pos ey) as Py.
destruct (Z.eq_dec ex ey) as [E|N].
- assert (M : mx <= my).
  { unfold mx, my. rewrite <- E. apply nearest_even_mono.
    apply Qle_shift_div_l; [assumption|].
    unfold Qdiv. rewrite <- Qmult_assoc, (Qmult_comm (/ pow2 ex)), Qmult_inv_r by lra.
    lra. }
  rewrite <- E. apply Qmult_le_compat_r; [|lra]. now rewrite <- Zle_Qle.
- destruct SY as [SY|SY]; [lia|].
  apply Qle_trans with (inject_Z (2 ^ 53) * pow2 ex)%Q.
  { apply Qmult_le_compat_r; [|lra]. now rewrite <- Zle_Qle. }
  apply Qle_trans with (inject_Z (2 ^ 52) * pow2 ey)%Q.
  2:{ apply Qmult_le_compat_r; [|lra]. now rewrite <- Zle_Qle. }
  rewrite <- !pow2_inject by lia. rewrite <- !pow2_plus. apply pow2_le. lia.
Qed.

(** In the normal range the nearest double is within one part in 2^53. *)
Lemma nearest_error (x : Q) :
  (pow2 (-1022) <= x)%Q ->
  (x - x * pow2 (-53) <= nearest x)%Q /\ (nearest x <= x + x * pow2 (-53))%Q.
Proof.
intros Hlo.
assert (Hpos : (0 < x)%Q) by (pose proof (pow2_pos (-1022)); lra).
destruct (exponent_spec x Hlo) as [B1 B2].
unfold nearest.
set (e := exponent x) in *.
set (t := (x / pow2 e)%Q).
destruct (nearest_even_error t) as [E1 E2].
set (m := inject_Z (nearest_even t)) in *.
pose proof (pow2_pos e) as Pe.
assert (Et : (t * pow2 e == x)%Q).
{ unfold t. field. lra. }
assert (P52 : (pow2 (52 + e) == pow2 52 * pow2 e)%Q) by apply pow2_plus.
assert (H52 : (pow2 52 == 4503599627370496)%Q) by reflexivity.
assert (H53 : (pow2 (-53) == 1 # 9007199254740992)%Q) by reflexivity.
assert (Hm1 : (m * pow2 e - x <= (1 # 2) * pow2 e)%Q).
{ rewrite <- Et. nra. }
assert (Hm2 : (x - m * pow2 e <= (1 # 2) * pow2 e)%Q).
{ rewrite <- Et. nra. }
rewrite H53. rewrite P52, H52 in B1. split; lra.
Qed.

(** Below 2^-1021 the doubles are the multiples of 2^-1074. *)
Lemma nearest_exact (x : Q) (n : Z) :
  (0 < x)%Q -> (x < pow2 (-1021))%Q -> (x == inject_Z n * pow2 (-1074))%Q ->
  (nearest x == x)%Q.
Proof.
intros Hx Hlt Hn.
destruct (exponent_bounds x Hx) as (X0 & X1 & X2).
assert (He : exponent x = -1074).
{ destruct X2 as [X2|X2]; [assumption|].
  assert (H : (pow2 (52 + exponent x) < pow2 (-1021))%Q) by lra.
  apply pow2_lt_inv in H. lia. }
unfold nearest. rewrite He.
pose proof (pow2_pos (-1074)) as Pe.
rewrite (nearest_even_Z _ n); [now symmetry|].
rewrite Hn. field. lra.
Qed.

(** Every rounded value is a multiple of 2^-1074. *)
Lemma nearest_grid (x : Q) :
  (0 < x)%Q -> exists n : Z, (nearest x == inject_Z n * pow2 (-1074))%Q.
Proof.
intros Hx. destruct (exponent_bounds x Hx) as (X0 & _ & _).
unfold nearest. set (e := exponent x) in *.
exists (nearest_even (x / pow2 e) * 2 ^ (e + 1074)).
rewrite inject_Z_mult, <- pow2_inject by lia.
rewrite <- Qmult_assoc, <- pow2_plus.
replace (e + 1074 + -1074) with e by lia. reflexivity.
Qed.

Lemma Qabs_of_neg (x : Q) : (x < 0)%Q -> Qabs x = (- x)%Q.
Proof.
destruct x as [a b]. unfold Qlt. simpl. intros H.
unfold Qabs, Qopp. simpl. f_equal. apply Z.abs_neq. lia.
Qed.

Lemma round_pos (x : Q) :
  (0 < x)%Q ->
  round x = if Qle_bool (pow2 1024) (nearest x) then PosInfinity else fin (nearest x).
Proof.
intros Hx. unfold round. rewrite is_zero_false by lra.
now rewrite (Qabs_of_pos x Hx), (is_pos_true x Hx).
Qed.

Lemma round_neg (x : Q) :
  (x < 0)%Q ->
  round x = if Qle_bool (pow2 1024) (nearest (- x)) then NegInfinity
            else fin (- nearest (- x)).
Proof.
intros Hx. unfold round. rewrite is_zero_false by lra.
now rewrite (Qabs_of_neg x Hx), (is_pos_false x) by lra.
Qed.

(** What it means for a positive, and for a negative, rational to be a
    double. *)
Lemma double_pos (a : Q) :
  (0 < a)%Q -> round a = Finite a ->
  (nearest a == a)%Q /\ (nearest a < pow2 1024)%Q.
Proof.
intros Ha H. rewrite (round_pos a Ha) in H.
destruct (Qle_bool (pow2 1024) (nearest a)) eqn:E; [discriminate|].
split.
- injection H as H. rewrite <- H at 2. symmetry. apply Qred_correct.
- apply Qnot_le_lt. intros L. apply Qle_bool_iff in L. congruence.
Qed.

Lemma double_neg (a : Q) :
  (a < 0)%Q -> round a = Finite a ->
  (nearest (- a) == - a)%Q /\ (nearest (- a) < pow2 1024)%Q.
Proof.
intros Ha H. rewrite (round_neg a Ha) in H.
destruct (Qle_bool (pow2 1024) (nearest (- a))) eqn:E; [discriminate|].
split.
- injection H as H.
  assert (E' : (a == - nearest (- a))%Q).
  { rewrite <- H at 1. apply Qred_correct. }
  lra.
- apply Qnot_le_lt. intros L. apply Qle_bool_iff in L. congruence.
Qed.

Lemma double_grid (a : Q) :
  round a = Finite a -> exists n : Z, (a == inject_Z n * pow2 (-1074))%Q.
Proof.
intros H. destruct (Q_dec a 0) as [[N|P]|Z].
- destruct (double_neg a N H) as [E _].
  destruct (nearest_grid (- a) ltac:(lra)) as (n & Hn).
  exists (- n). rewrite inject_Z_opp. lra.
- destruct (double_pos a P H) as [E _].
  destruct (nearest_grid a P) as (n & Hn).
  exists n. lra.
- exists 0. rewrite Z. change (inject_Z 0) with 0%Q. ring.
Qed.

(** Rounding a value that lies between two doubles stays between them. *)
Lemma round_between (a z b : Q) :
  round a = Finite a -> round b = Finite b ->
  (a <= z)%Q -> (z <= b)%Q ->
  exists v : Q, round z = Finite v /\ (a <= v)%Q /\ (v <= b)%Q.
Proof.
intros Ha Hb Haz Hzb. destruct (Q_dec z 0) as [[N|P]|Z].
- destruct (double_neg a ltac:(lra) Ha) as [Ea La].
  pose proof (nearest_mono (- z) (- a) ltac:(lra) ltac:(lra)) as M.
  rewrite (round_neg z N).
  destruct (Qle_bool (pow2 1024) (nearest (- z))) eqn:E.
  { apply Qle_bool_iff in E. lra. }
  exists (Qred (- nearest (- z))). split; [reflexivity|].
  rewrite Qred_correct. split; [lra|].
  destruct (Qlt_le_dec b 0) as [Nb|Pb].
  + destruct (double_neg b Nb Hb) as [Eb _].
    pose proof (nearest_mono (- b) (- z) ltac:(lra) ltac:(lra)). lra.
  + pose proof (nearest_nonneg (- z) ltac:(lra)). lra.
- destruct (double_pos b ltac:(lra) Hb) as [Eb Lb].
  pose proof (nearest_mono z b P Hzb) as M.
  rewrite (round_pos z P).
  destruct (Qle_bool (pow2 1024) (nearest z)) eqn:E.
  { apply Qle_bool_iff in E. lra. }
  exists (Qred (nearest z)). split; [reflexivity|].
  rewrite Qred_correct. split; [|lra].
  destruct (Qlt_le_dec 0 a) as [Pa|Na].
  + destruct (double_pos a Pa Ha) as [Ea _].
    pose proof (nearest_mono a z Pa Haz). lra.
  + pose proof (nearest_nonneg z P). lra.
- rewrite (round_eq_zero z Z). exists (inject_Z 0). split; [reflexivity|].
  change (inject_Z 0) with 0%Q. split; lra.
Qed.

(** *** [min + u * (max - min)] in double precision

    For doubles [a < b] whose difference does not overflow, and a draw [u]
    of [next()], the three rounded operations of [nextFloat] give a double
    of [[a, b]]. *)
Lemma scale_between (a b u : Q) :
  round a = Finite a -> round b = Finite b -> (a < b)%Q ->
  Double.sub (Finite b) (Finite a) <> PosInfinity ->
  (u == 0)%Q \/ (pow2 (-32) <= u)%Q -> (u <= 1 - pow2 (-32))%Q ->
  exists v : Q,
    Double.add (Double.mul (Finite u) (Double.sub (Finite b) (Finite a))) (Finite a)
    = Finite v /\
    (a <= v)%Q /\ (v <= b)%Q.
Proof.
intros Ha Hb Hab Hfin Hu0 Hu1.
assert (H32 : (pow2 (-32) == 1 # 4294967296)%Q) by reflexivity.
assert (H53 : (pow2 (-53) == 1 # 9007199254740992)%Q) by reflexivity.
pose proof (pow2_pos (-1022)) as P1022.
(* the width of the range *)
unfold Double.sub in *.
change (Finite b - Finite a)%js with (fin (b + Qred (- a))) in *.
unfold fin in *. cbn [rounded] in *.
set (t := Qred (b + Qred (- a))) in *.
assert (Et : (t == b - a)%Q).
{ unfold t. rewrite !Qred_correct. ring. }
assert (Pt : (0 < t)%Q) by lra.
rewrite (round_pos t Pt) in *.
destruct (Qle_bool (pow2 1024) (nearest t)) eqn:Ov; [congruence|].
assert (Lt : (nearest t < pow2 1024)%Q).
{ apply Qnot_le_lt. intros L. apply Qle_bool_iff in L. congruence. }
clear Hfin Ov. unfold fin.
set (d := Qred (nearest t)).
assert (Ed : (d == nearest t)%Q) by apply Qred_correct.
assert (Small : (t < pow2 (-1022))%Q -> (nearest t == t)%Q).
{ intros S. destruct (double_grid a Ha) as (na & Na).
  destruct (double_grid b Hb) as (nb & Nb).
  apply (nearest_exact t (nb - na) Pt).
  - pose proof (pow2_le (-1022) (-1021) ltac:(lia)). lra.
  - unfold Z.sub. rewrite inject_Z_plus, inject_Z_opp. lra. }
assert (D1 : (d <= t + t * (1 # 9007199254740992))%Q).
{ destruct (Qlt_le_dec t (pow2 (-1022))) as [S|L].
  - rewrite Ed, (Small S). lra.
  - destruct (nearest_error t L) as [_ E]. rewrite H53 in E. lra. }
assert (D0 : (0 <= d)%Q) by (rewrite Ed; now apply nearest_nonneg).
(* the product *)
unfold Double.mul.
change (Finite u * Finite d)%js with (fin (u * d)).
unfold fin. cbn [rounded].
set (x := Qred (u * d)).
assert (Ex : (x == u * d)%Q) by apply Qred_correct.
assert (Hp : exists p : Q, round x = Finite p /\ (0 <= p)%Q /\ (p <= t)%Q).
{ destruct (Q_dec x 0) as [[N|P]|Z].
  - exfalso. destruct Hu0 as [U|U].
    + rewrite Ex, U in N. lra.
    + rewrite H32 in U. assert (0 <= u * d)%Q by nra. lra.
  - rewrite H32 in Hu1.
    assert (Xd : (x <= (4294967295 # 4294967296) * d)%Q) by (rewrite Ex; nra).
    assert (Xt : (x <= t)%Q) by lra.
    pose proof (nearest_mono x t P Xt) as M.
    rewrite (round_pos x P).
    destruct (Qle_bool (pow2 1024) (nearest x)) eqn:Ov.
    { apply Qle_bool_iff in Ov. lra. }
    exists (Qred (nearest x)). split; [reflexivity|].
    rewrite Qred_correct. split; [now apply nearest_nonneg|].
    destruct (Qlt_le_dec x (pow2 (-1022))) as [S|L].
    + destruct (Qlt_le_dec t (pow2 (-1022))) as [St|Lt'].
      * rewrite (Small St) in M. exact M.
      * assert (E : (nearest (pow2 (-1022)) == pow2 (-1022))%Q).
        { apply (nearest_exact _ (2 ^ 52)); [assumption | |].
          - apply Qnot_le_lt. intros C.
            pose proof (pow2_lt_inv (-1022) (-1021)).
            assert (C' : (pow2 (-1021) == 2 * pow2 (-1022))%Q).
            { change (-1021) with (1 + -1022). now rewrite pow2_plus. }
            lra.
          - rewrite <- pow2_inject by lia. rewrite <- pow2_plus. reflexivity. }
        pose proof (nearest_mono x (pow2 (-1022)) P ltac:(lra)). lra.
    + destruct (nearest_error x L) as [_ E]. rewrite H53 in E. lra.
  - rewrite (round_eq_zero x Z). exists (inject_Z 0). split; [reflexivity|].
    change (inject_Z 0) with 0%Q. lra. }
destruct Hp as (p & -> & P0 & P1).
(* the sum *)
unfold Double.add.
change (Finite p + Finite a)%js with (fin (p + a)).
unfold fin. cbn [rounded].
apply round_between; try assumption; rewrite Qred_correct; lra.
Qed.

End Monotone.

(** ** Statements about the generator *)

(** C2: from seed 1, after the 9,999 calls of [next()] that [verify()] makes,
    the internal seed is the stored constant 1493962164, so [verify()]
    returns true. *)
Theorem verify_reference_value :
  getSeed (advance 9999 (constructor (ofZ 1))) = ofZ 1493962164 /\
  CHECK = ofZ 1493962164 /\
  verify = true.
Proof.
assert (E : getSeed (advance 9999 (constructor (ofZ 1))) = ofZ 1493962164)
  by (vm_compute; reflexivity).
split; [exact E|]. split; [reflexivity|].
unfold verify. cbv zeta. rewrite E. reflexivity.
Qed.

(** One call more gives 399268537, the value usually quoted for the
    multiplier 48271 as the 10,000th of the sequence started at 1. *)
Example ten_thousand_calls :
  getSeed (advance 10000 (constructor (ofZ 1))) = ofZ 399268537.
Proof. vm_compute. reflexivity. Qed.

(** C3, at the input where the code leaves the invariant: constructed from
    [Infinity] the seed is NaN, which is not in [1, 2^31-2], and every
    [next()] returns NaN, which is not in [0, 1).  (For every finite seed the
    invariant holds: [finite_seed_invariant].) *)
Theorem infinite_seed_leaves_invariant :
  constructor PosInfinity = mk NaN /\
  ~ seed_in_range (constructor PosInfinity) /\
  (forall n : nat, draws n (constructor PosInfinity) = (replicate n NaN, mk NaN)) /\
  ~ unit_interval NaN.
Proof.
assert (E : constructor PosInfinity = mk NaN) by reflexivity.
split; [exact E|]. rewrite E. repeat split.
- intros (s & Hs & _). discriminate Hs.
- intros n. induction n as [|n IH]; [reflexivity|].
  change (draws (S n) (mk NaN))
    with (let (us, g'') := draws n (mk NaN) in (NaN :: us, g'')).
  now rewrite IH.
- intros (q & Hq & _). discriminate Hq.
Qed.

(** C4: a generator constructed with seed 0 and one constructed with seed 1
    are in the same state, so for every [n] they give the same [n] draws. *)
Theorem seed_zero_is_seed_one (n : nat) :
  constructor (ofZ 0) = constructor (ofZ 1) /\
  draws n (constructor (ofZ 0)) = draws n (constructor (ofZ 1)).
Proof.
assert (E : constructor (ofZ 0) = constructor (ofZ 1)) by reflexivity.
split; [exact E | now rewrite E].
Qed.

(** C10: [reset()] without argument leaves the seed as it is (whatever seed
    the generator was constructed with), so the draws continue where they
    were; [reset(s)] puts the generator in the state of a freshly
    constructed [SeededRandom(s)], so the draws are those of that
    generator. *)
Theorem reset_frame (g : SeededRandom.t) (s : number) (n : nat) :
  reset None g = g /\
  draws n (reset None g) = draws n g /\
  reset (Some s) g = constructor s /\
  draws n (reset (Some s) g) = draws n (constructor s).
Proof. repeat split. Qed.

(** A generator that has drawn once is not brought back to its construction
    seed by [reset()]. *)
Example reset_does_not_restore :
  let g := state_of (next (constructor (ofZ 456))) in
  seed (reset None g) = ofZ 22011576 /\ seed (constructor (ofZ 456)) = ofZ 456.
Proof. split; reflexivity. Qed.

(** C7 as stated fails in three places.  The error of [nextInt(10, 5)] is an
    [Error] that is not a [RangeError].  [nextInt(0.5, 1.5)] from seed 5 has
    [min <= max] and returns 0.5, which is no integer.  [nextInt(-2^1023,
    2^1023)] from seed 5 has integer bounds with [min <= max]; the width of
    the range overflows and the call returns [Infinity]. *)
Lemma nextInt_fails_as_stated :
  (Double.nextInt Double.decimal (ofZ 10) (ofZ 5) (constructor (ofZ 789)) =
     Throws (new_Error "Invalid range: min (10) must be <= max (5)")
            (constructor (ofZ 789)) /\
   instanceof (new_Error "Invalid range: min (10) must be <= max (5)") RangeError
     = false) /\
  ((Finite (1 # 2) >? Finite (3 # 2))%js = false /\
   Double.nextInt Double.decimal (Finite (1 # 2)) (Finite (3 # 2))
                  (constructor (ofZ 5)) =
     Returns (Finite (1 # 2)) (mk (ofZ 241355)) /\
   forall k : Z, Finite (1 # 2) <> ofZ k) /\
  ((ofZ (- 2 ^ 1023) >? ofZ (2 ^ 1023))%js = false /\
   Double.is_double (ofZ (- 2 ^ 1023)) /\ Double.is_double (ofZ (2 ^ 1023)) /\
   Double.nextInt Double.decimal (ofZ (- 2 ^ 1023)) (ofZ (2 ^ 1023))
                  (constructor (ofZ 5)) =
     Returns PosInfinity (mk (ofZ 241355))).
Proof.
split; [|split].
- split; reflexivity.
- split; [reflexivity|]. split; [vm_compute; reflexivity|].
  intros k H. unfold ofZ, inject_Z in H. inversion H.
- repeat split; vm_compute; reflexivity.
Qed.

(** C7, amended: [nextInt(min, max)] throws exactly when [min > max],
    whatever numbers the bounds are; what it throws is a plain [Error]
    (message "Invalid range: ...") and the generator is left as it was.  For
    integers [min <= max] between -2^53 and 2^53 that are less than 2^53
    apart, and every generator state, it returns an integer of [[min, max]].
    The arithmetic is that of doubles. *)
Theorem nextInt_spec (Number_toString : number -> string) (min max : Z)
    (g : SeededRandom.t) :
  seed_in_range g ->
  - 2 ^ 53 <= min <= 2 ^ 53 -> - 2 ^ 53 <= max <= 2 ^ 53 -> max - min < 2 ^ 53 ->
  (forall a b : number,
     ((a >? b)%js = true <->
      exists e g', Double.nextInt Number_toString a b g = Throws e g') /\
     (forall e g', Double.nextInt Number_toString a b g = Throws e g' ->
        e = new_Error ("Invalid range: min (" ++ Number_toString a
                         ++ ") must be <= max (" ++ Number_toString b ++ ")") /\
        instanceof e Error = true /\ instanceof e RangeError = false /\
        g' = g)) /\
  (min > max <->
   exists e g', Double.nextInt Number_toString (ofZ min) (ofZ max) g = Throws e g') /\
  (min <= max ->
     exists k g',
       Double.nextInt Number_toString (ofZ min) (ofZ max) g = Returns (ofZ k) g' /\
       min <= k <= max /\ seed_in_range g').
Proof.
intros (s & Hs & Hr) Hmin Hmax Hd. destruct g as [sd]. simpl in Hs. subst sd.
assert (General : forall a b : number,
  ((a >? b)%js = true <->
   exists e g', Double.nextInt Number_toString a b (mk (ofZ s)) = Throws e g') /\
  (forall e g', Double.nextInt Number_toString a b (mk (ofZ s)) = Throws e g' ->
     e = new_Error ("Invalid range: min (" ++ Number_toString a
                      ++ ") must be <= max (" ++ Number_toString b ++ ")") /\
     instanceof e Error = true /\ instanceof e RangeError = false /\
     g' = mk (ofZ s))).
{ intros a b. unfold Double.nextInt.
  destruct (a >? b)%js.
  - split.
    + split; [eauto | reflexivity].
    + intros e g' [= <- <-]. repeat split.
  - unfold bind, Double.next, ret. split.
    + split; [discriminate | intros (e & g' & H); discriminate H].
    + intros e g' H. discriminate H. }
split; [exact General|]. split.
- destruct (General (ofZ min) (ofZ max)) as [<- _].
  unfold gt. rewrite lt_ofZ. destruct (Z.ltb_spec max min); split; (lia || discriminate).
- intros Hle.
  destruct (double_nextInt_ofZ Number_toString min max s)
    as (k & E & Hk); try lia.
  exists k, (mk (ofZ (lcg s))). split; [exact E|]. split; [exact Hk|].
  exists (lcg s). split; [reflexivity | now apply lcg_range].
Qed.

Lemma nextInt_spec_witness :
  seed_in_range (constructor (ofZ 111)) /\
  - 2 ^ 53 <= 1 <= 2 ^ 53 /\ - 2 ^ 53 <= 6 <= 2 ^ 53 /\ 6 - 1 < 2 ^ 53 /\
  (1 <= 6 ->
     exists k g',
       Double.nextInt Double.decimal (ofZ 1) (ofZ 6) (constructor (ofZ 111))
       = Returns (ofZ k) g' /\
       1 <= k <= 6 /\ seed_in_range g').
Proof.
assert (H : seed_in_range (constructor (ofZ 111)))
  by (exists 111; split; [reflexivity | lia]).
assert (H1 : - 2 ^ 53 <= 1 <= 2 ^ 53) by (vm_compute; split; discriminate).
assert (H6 : - 2 ^ 53 <= 6 <= 2 ^ 53) by (vm_compute; split; discriminate).
assert (Hd : 6 - 1 < 2 ^ 53) by reflexivity.
split; [exact H|]. split; [exact H1|]. split; [exact H6|]. split; [exact Hd|].
exact (proj2 (proj2
  (nextInt_spec Double.decimal 1 6 (constructor (ofZ 111)) H H1 H6 Hd))).
Defined.

(** The exact reading of [nextInt] and the rounded one can differ by one
    inside the range.  From the seed 1967363583 the draw is 3/11 and the
    product with 55 is 15; in double precision the quotient is rounded down
    and the product stays below 15. *)
Example nextInt_rounded_down :
  nextInt 0 54 (mk (ofZ 1967363583)) = Returns (ofZ 15) (mk (ofZ 585677359)) /\
  Double.nextInt Double.decimal (ofZ 0) (ofZ 54) (mk (ofZ 1967363583))
  = Returns (ofZ 14) (mk (ofZ 585677359)).
Proof. split; vm_compute; reflexivity. Qed.




(** ** Statements about arrays *)



(** An array is the image of its positions. *)
Lemma list_as_positions {T : Type} (undefined : T) (xs : list T) :
  xs = (fun p => default undefined (xs !! p)) <$> seq 0 (length xs).
Proof.
apply list_eq. intros i. rewrite list_lookup_fmap.
destruct (decide (i < length xs)%nat) as [Hi|Hi].
- rewrite lookup_seq_lt by assumption. simpl.
  destruct (lookup_lt_is_Some_2 xs i Hi) as [x Hx]. now rewrite Hx.
- rewrite lookup_seq_ge by lia. apply lookup_ge_None_2. lia.
Qed.

(** The shuffled array read as a shuffle of positions: the positions are
    pairwise distinct and each holds the element that came out. *)
Lemma shuffle_Z_positions {T : Type} (xs : list T) i s :
  exists ps : list nat,
    ps ≡ₚ seq 0 (length xs) /\
    Forall2 (fun p y => xs !! p = Some y) ps (fst (shuffle_Z i xs s)).
Proof.
destruct xs as [|x0 xs'] eqn:Exs.
- exists []. split; [reflexivity|].
  assert (E : fst (shuffle_Z i (@nil T) s) = []).
  { apply Permutation_nil_r. apply shuffle_Z_perm. }
  rewrite E. constructor.
- rewrite <- Exs.
  exists (fst (shuffle_Z i (seq 0 (length xs)) s)).
  split; [apply shuffle_Z_perm|].
  pose proof (shuffle_Z_fmap (fun p => default x0 (xs !! p)) i
                (seq 0 (length xs)) s) as E.
  rewrite <- (list_as_positions x0 xs) in E. rewrite E. simpl fst.
  apply Forall2_fmap_r, Forall_Forall2_diag, Forall_forall.
  intros p Hp. simpl.
  assert (Hin : p ∈ seq 0 (length xs)).
  { rewrite <- (shuffle_Z_perm i (seq 0 (length xs)) s). assumption. }
  apply elem_of_seq in Hin.
  destruct (lookup_lt_is_Some_2 xs p ltac:(lia)) as [y Hy]. now rewrite Hy.
Qed.

(** C6, a defect of the code: [[1, 1, 2]] has two distinct elements, yet
    [sample([1, 1, 2], 2)] from seed 40000 is [[1, 1]].  The property test
    'sample should return exactly n unique elements' of the repository asks
    for a sample without duplicates whenever the array has at least [n]
    distinct elements, which is what the claim says; [sample] shuffles
    positions and never looks at the values. *)
Lemma sample_repeats_a_repeated_element :
  sample 0 [1; 1; 2] 2 (constructor (ofZ 40000)) =
    Returns [1; 1] (mk (ofZ 639876553)) /\
  (2 <= length (remove_dups [1; 1; 2]))%nat /\
  ~ NoDup [1; 1].
Proof.
split; [vm_compute; reflexivity|]. split; [vm_compute; lia|].
intros H. apply NoDup_cons in H. destruct H as [H _]. apply H. left.
Qed.

(** What [sample(xs, n)] does keep: it throws (a plain [Error], generator
    untouched) exactly when [n < 0] or [n > length xs]; otherwise it returns
    exactly [n] elements, taken from pairwise distinct positions of [xs]
    (so each occurs in [xs]); the result has no duplicates when [xs] has
    none. *)
Theorem sample_spec {T : Type} (undefined : T) (xs : list T) (n : Z)
    (g : SeededRandom.t) :
  seed_in_range g ->
  (n < 0 \/ n > Z.of_nat (length xs) <->
     exists e g', sample undefined xs n g = Throws e g') /\
  (forall e g', sample undefined xs n g = Throws e g' ->
     err_class e = Error /\ g' = g) /\
  (0 <= n <= Z.of_nat (length xs) ->
     exists ys g',
       sample undefined xs n g = Returns ys g' /\
       Z.of_nat (length ys) = n /\
       (exists ps : list nat,
          NoDup ps /\ Forall2 (fun p y => xs !! p = Some y) ps ys) /\
       (forall y, y ∈ ys -> y ∈ xs) /\
       (NoDup xs -> NoDup ys) /\
       seed_in_range g').
Proof.
intros (s & Hs & Hr). destruct g as [sd]. simpl in Hs. subst sd.
unfold sample.
destruct (Z.gtb_spec n (Z.of_nat (length xs))) as [G|G].
{ split; [|split].
  - split; [eauto | lia].
  - intros e g' [= <- <-]. split; reflexivity.
  - lia. }
destruct (Z.ltb_spec n 0) as [L|L].
{ split; [|split].
  - split; [eauto | lia].
  - intros e g' [= <- <-]. split; reflexivity.
  - lia. }
unfold bind. rewrite shuffle_ofZ by assumption. unfold ret.
set (i := (length xs - 1)%nat).
pose proof (shuffle_Z_perm i xs s) as Hperm.
destruct (shuffle_Z_positions xs i s) as (ps & Hps & Hfa).
set (ys := fst (shuffle_Z i xs s)) in *.
assert (Hlen : length ys = length xs) by now apply Permutation_length.
assert (Hslice : slice0 ys n = take (Z.to_nat n) ys).
{ unfold slice0. destruct (Z.ltb_spec n 0); [lia|].
  f_equal. rewrite Hlen. lia. }
rewrite Hslice.
split; [|split].
- split; [lia | intros (e & g' & H); discriminate H].
- intros e g' H. discriminate H.
- intros _. do 2 eexists. split; [reflexivity|].
  split; [rewrite length_take; lia|].
  split; [|split; [|split]].
  + exists (take (Z.to_nat n) ps). split.
    * apply (sublist_NoDup _ ps); [|apply sublist_take].
      rewrite Hps. apply NoDup_seq.
    * now apply Forall2_take.
  + intros y Hy. rewrite <- Hperm.
    exact (subseteq_take (Z.to_nat n) ys y Hy).
  + intros Hnd. apply (sublist_NoDup _ ys); [|apply sublist_take].
    now rewrite Hperm.
  + eexists. split; [reflexivity|]. now apply shuffle_Z_seed.
Qed.

Lemma sample_spec_witness :
  seed_in_range (constructor (ofZ 789)) /\
  (3 < 0 \/ 3 > Z.of_nat (length [1; 2; 3; 4; 5]) <->
     exists e g',
       sample 0 [1; 2; 3; 4; 5] 3 (constructor (ofZ 789)) = Throws e g') /\
  (forall e g',
     sample 0 [1; 2; 3; 4; 5] 3 (constructor (ofZ 789)) = Throws e g' ->
     err_class e = Error /\ g' = constructor (ofZ 789)) /\
  (0 <= 3 <= Z.of_nat (length [1; 2; 3; 4; 5]) ->
     exists ys g',
       sample 0 [1; 2; 3; 4; 5] 3 (constructor (ofZ 789)) = Returns ys g' /\
       Z.of_nat (length ys) = 3 /\
       (exists ps : list nat,
          NoDup ps /\
          Forall2 (fun p y => [1; 2; 3; 4; 5] !! p = Some y) ps ys) /\
       (forall y, y ∈ ys -> y ∈ [1; 2; 3; 4; 5]) /\
       (NoDup [1; 2; 3; 4; 5] -> NoDup ys) /\
       seed_in_range g').
Proof.
assert (H : seed_in_range (constructor (ofZ 789)))
  by (exists 789; split; [reflexivity | lia]).
split; [exact H|].
exact (sample_spec 0 [1; 2; 3; 4; 5] 3 (constructor (ofZ 789)) H).
Defined.

(** C9: [shuffle] allocates a new array and writes to that array only: the
    reference it returns was not allocated before the call, the caller's
    array and every other array of the store hold the same elements in the
    same order after the call, and the new array holds what [shuffle]
    computes from the input's contents; besides the store, the call changes
    the generator, whose only field is the seed. *)
Theorem shuffle_leaves_input_unchanged {T : Type} (undefined : T)
    (h : gmap Store.ref (list T)) (array : Store.ref) (xs : list T)
    (g : SeededRandom.t) :
  h !! array = Some xs ->
  exists result ys g',
    Store.shuffle undefined array h g = Returns (result, <[result := ys]> h) g' /\
    h !! result = None /\
    result <> array /\
    (<[result := ys]> h) !! array = Some xs /\
    (forall r, r <> result -> (<[result := ys]> h) !! r = h !! r) /\
    shuffle undefined xs g = Returns ys g'.
Proof.
intros Hx.
assert (Hfresh : h !! fresh (dom h) = None).
{ apply not_elem_of_dom. apply is_fresh. }
assert (Hne : fresh (dom h) <> array) by congruence.
rewrite (store_shuffle_pure undefined array h xs g Hx).
assert (Hret : exists ys g', shuffle undefined xs g = Returns ys g').
{ unfold shuffle. generalize (length xs - 1)%nat as i. generalize xs as l.
  generalize g as g0.
  intros g0 l i. revert l g0. induction i as [|i IH]; intros l g0.
  - do 2 eexists. reflexivity.
  - cbn [shuffle_loop]. unfold bind, nextInt.
    destruct (Z.gtb_spec 0 (Z.of_nat (S i))) as [G|_]; [lia|].
    unfold bind, next, ret. apply IH. }
destruct Hret as (ys & g' & E). rewrite E.
exists (fresh (dom h)), ys, g'.
split; [reflexivity|]. split; [assumption|]. split; [assumption|].
split; [|split].
- now rewrite lookup_insert_ne.
- intros r Hr. now rewrite lookup_insert_ne.
- reflexivity.
Qed.

Lemma shuffle_leaves_input_unchanged_witness :
  ({[ 1%positive := [1; 2; 3] ]} : gmap Store.ref (list Z)) !! 1%positive
    = Some [1; 2; 3] /\
  exists result ys g',
    Store.shuffle 0 1%positive {[ 1%positive := [1; 2; 3] ]} (constructor (ofZ 678))
      = Returns (result, <[result := ys]> {[ 1%positive := [1; 2; 3] ]}) g' /\
    ({[ 1%positive := [1; 2; 3] ]} : gmap Store.ref (list Z)) !! result = None /\
    result <> 1%positive /\
    (<[result := ys]> {[ 1%positive := [1; 2; 3] ]} : gmap Store.ref (list Z))
      !! 1%positive = Some [1; 2; 3] /\
    (forall r, r <> result ->
       (<[result := ys]> {[ 1%positive := [1; 2; 3] ]} : gmap Store.ref (list Z)) !! r
       = ({[ 1%positive := [1; 2; 3] ]} : gmap Store.ref (list Z)) !! r) /\
    shuffle 0 [1; 2; 3] (constructor (ofZ 678)) = Returns ys g'.
Proof.
assert (H : ({[ 1%positive := [1; 2; 3] ]} : gmap Store.ref (list Z)) !! 1%positive
            = Some [1; 2; 3]) by reflexivity.
split; [exact H|].
exact (shuffle_leaves_input_unchanged 0 {[ 1%positive := [1; 2; 3] ]} 1%positive
         [1; 2; 3] (constructor (ofZ 678)) H).
Defined.

(** ** The cases of the repository's test-suite

    [seeded-random.test.ts], replayed on the embedding. *)

Section TestSuite.

(** "should handle edge case seeds correctly" *)
Example test_negative_seed :
  next (constructor (ofZ (-12345))) = next (constructor (ofZ 12345)).
Proof. reflexivity. Qed.

Example test_very_large_seed :
  exists u g, next (constructor (ofZ 9007199254740991)) = Returns u g /\
              unit_interval u.
Proof.
destruct (next_in_range (constructor (ofZ 9007199254740991)))
  as (u & g & E & Hu & _); [apply constructor_in_range | eauto].
Qed.

(** "should handle single value range" *)
Example test_single_value_range :
  exists g, nextInt 5 5 (constructor (ofZ 456)) = Returns (ofZ 5) g.
Proof. eexists. vm_compute. reflexivity. Qed.

(** "should throw on invalid sample size" *)
Example test_sample_too_many :
  sample 0 [1; 2; 3] 4 (constructor (ofZ 901)) =
  Throws (new_Error "Cannot sample 4 elements from array of length 3")
         (constructor (ofZ 901)).
Proof. reflexivity. Qed.

Example test_sample_negative :
  sample 0 [1; 2; 3] (-1) (constructor (ofZ 901)) =
  Throws (new_Error "Sample size must be non-negative, got -1")
         (constructor (ofZ 901)).
Proof. reflexivity. Qed.

(** "should sample without replacement" *)
Example test_sample_all :
  exists ys g, sample 0 [1; 2; 3; 4; 5] 5 (constructor (ofZ 890)) = Returns ys g /\
               NoDup ys /\ length ys = 5%nat.
Proof.
eexists _, _. split; [vm_compute; reflexivity|].
split; [|reflexivity].
match goal with
| |- NoDup ?l => apply (bool_decide_unpack (NoDup l)); vm_compute; exact I
end.
Qed.

(** "should create independent copy with same state" *)
Example test_clone :
  let rng1 := advance 2 (constructor (ofZ 123)) in
  next (clone rng1) = next rng1.
Proof. vm_compute. reflexivity. Qed.

(** "should reset to initial seed" *)
Example test_reset :
  let rng := constructor (ofZ 456) in
  draws 2 (reset (Some (ofZ 456)) (snd (draws 2 rng))) = draws 2 rng.
Proof. reflexivity. Qed.

End TestSuite.

(** * Further properties of the generator *)

(** ** The state after a number of draws *)

Lemma draws_S_ofZ n s :
  draws (S n) (SeededRandom.mk (ofZ s)) =
  (fin ((lcg s - 1) # 2147483646) :: fst (draws n (SeededRandom.mk (ofZ (lcg s)))),
   snd (draws n (SeededRandom.mk (ofZ (lcg s))))).
Proof.
cbn [draws]. rewrite next_ofZ.
now destruct (draws n (SeededRandom.mk (ofZ (lcg s)))).
Qed.

Lemma choice_ofZ {T : Type} (undefined : T) (xs : list T) s :
  xs <> [] -> 1 <= s <= 2 ^ 31 - 2 ->
  exists (k : nat) (x : T),
    xs !! k = Some x /\
    SeededRandom.choice undefined xs (SeededRandom.mk (ofZ s)) =
    Returns x (SeededRandom.mk (ofZ (lcg s))).
Proof.
intros Hne Hs.
assert (Hlen : 0 <= Z.of_nat (length xs) - 1) by (destruct xs; [congruence | simpl; lia]).
pose proof (nextInt_Z_range 0 _ s Hlen Hs) as Hk.
set (k := nextInt_Z 0 (Z.of_nat (length xs) - 1) s) in *.
assert (Hlt : (Z.to_nat k < length xs)%nat) by lia.
destruct (lookup_lt_is_Some_2 _ _ Hlt) as [x Hx].
exists (Z.to_nat k), x. split; [assumption|].
unfold SeededRandom.choice.
destruct (Nat.eqb_spec (length xs) 0) as [E|_].
{ destruct xs; [congruence | discriminate E]. }
unfold bind. rewrite nextInt_ofZ by assumption. fold k. unfold ret. f_equal.
rewrite <- (Z2Nat.id k) by lia. now apply array_get_nat.
Qed.

Lemma shuffle_Z_draws {T : Type} i (l : list T) s :
  SeededRandom.mk (ofZ (snd (shuffle_Z i l s))) = snd (draws i (SeededRandom.mk (ofZ s))).
Proof.
revert l s. induction i as [|i IH]; intros l s; [reflexivity|].
rewrite draws_S_ofZ. simpl snd. cbn [shuffle_Z]. apply IH.
Qed.

(** 48271 has an inverse modulo 2^31-1, so the step of the generator loses
    nothing. *)
Lemma lcg_injective s1 s2 :
  1 <= s1 <= 2 ^ 31 - 2 -> 1 <= s2 <= 2 ^ 31 - 2 -> lcg s1 = lcg s2 -> s1 = s2.
Proof.
intros H1 H2. unfold lcg. rewrite !Z.rem_mod_nonneg by lia. intros E.
pose proof (Z.div_mod (s1 * 48271) 2147483647 ltac:(lia)) as D1.
pose proof (Z.div_mod (s2 * 48271) 2147483647 ltac:(lia)) as D2.
rewrite E in D1.
set (q1 := s1 * 48271 / 2147483647) in *.
set (q2 := s2 * 48271 / 2147483647) in *.
set (r := (s2 * 48271) mod 2147483647) in *.
assert (Hinv : 1899818559 * 48271 = 1 + 2147483647 * 42704) by reflexivity.
assert (Hdiv : s1 - s2 = 2147483647 * (1899818559 * (q1 - q2) - 42704 * (s1 - s2))) by lia.
change (2 ^ 31 - 2) with 2147483646 in *. lia.
Qed.

(** ** Seeds do not merge *)

Lemma draws_state_injective n s1 s2 :
  1 <= s1 <= 2 ^ 31 - 2 -> 1 <= s2 <= 2 ^ 31 - 2 ->
  snd (draws n (SeededRandom.mk (ofZ s1))) = snd (draws n (SeededRandom.mk (ofZ s2))) ->
  s1 = s2.
Proof.
revert s1 s2. induction n as [|n IH]; intros s1 s2 H1 H2 E.
- simpl in E. apply ofZ_inj. congruence.
- rewrite !draws_S_ofZ in E. simpl snd in E.
  apply lcg_injective; try assumption.
  apply IH; [now apply lcg_range | now apply lcg_range | assumption].
Qed.

Lemma draws_state_ofZ n s :
  1 <= s <= 2 ^ 31 - 2 ->
  exists s', snd (draws n (SeededRandom.mk (ofZ s))) = SeededRandom.mk (ofZ s') /\
             1 <= s' <= 2 ^ 31 - 2.
Proof.
intros Hs.
destruct (draws_in_range n (SeededRandom.mk (ofZ s))) as (_ & _ & (s' & E & Hr)).
{ exists s. now split. }
exists s'. split; [|assumption].
destruct (snd (draws n (SeededRandom.mk (ofZ s)))) as [sd]. simpl in E. now subst.
Qed.

(** Two generators in different states of the valid range never return the
    same value at the same position of their streams, and never come to the
    same state. *)
Theorem different_seeds_never_agree (g1 g2 : SeededRandom.t) (n : nat)
    (u1 u2 : number) (h1 h2 : SeededRandom.t) :
  seed_in_range g1 -> seed_in_range g2 -> g1 <> g2 ->
  next (snd (draws n g1)) = Returns u1 h1 ->
  next (snd (draws n g2)) = Returns u2 h2 ->
  u1 <> u2 /\ h1 <> h2.
Proof.
intros (s1 & E1 & R1) (s2 & E2 & R2) Hne N1 N2.
destruct g1 as [d1], g2 as [d2]. simpl in E1, E2. subst d1 d2.
destruct (draws_state_ofZ n s1 R1) as (t1 & D1 & T1).
destruct (draws_state_ofZ n s2 R2) as (t2 & D2 & T2).
assert (Ht : t1 <> t2).
{ intros ->. apply Hne. f_equal. f_equal.
  apply (draws_state_injective n); try assumption. congruence. }
rewrite D1, next_ofZ in N1. rewrite D2, next_ofZ in N2.
injection N1 as <- <-. injection N2 as <- <-.
assert (Hl : lcg t1 <> lcg t2) by (intros E; apply Ht; now apply lcg_injective).
split.
- intros E. apply Hl. unfold fin in E. injection E as E.
  assert (Q : ((lcg t1 - 1) # 2147483646 == (lcg t2 - 1) # 2147483646)%Q).
  { rewrite <- (Qred_correct ((lcg t1 - 1) # 2147483646)).
    rewrite <- (Qred_correct ((lcg t2 - 1) # 2147483646)).
    now rewrite E. }
  unfold Qeq in Q. simpl in Q. lia.
- intros E. apply Hl. apply ofZ_inj. congruence.
Qed.

Lemma different_seeds_never_agree_witness :
  seed_in_range (constructor (ofZ 12345)) /\
  seed_in_range (constructor (ofZ 67890)) /\
  constructor (ofZ 12345) <> constructor (ofZ 67890) /\
  Finite (749377994 # 1073741823) <> Finite (889460882 # 1073741823) /\
  SeededRandom.mk (ofZ 1498755989) <> SeededRandom.mk (ofZ 1778921765).
Proof.
assert (H1 : seed_in_range (constructor (ofZ 12345)))
  by (exists 12345; split; [reflexivity | lia]).
assert (H2 : seed_in_range (constructor (ofZ 67890)))
  by (exists 67890; split; [reflexivity | lia]).
assert (H3 : constructor (ofZ 12345) <> constructor (ofZ 67890))
  by (vm_compute; discriminate).
split; [exact H1|]. split; [exact H2|]. split; [exact H3|].
refine (different_seeds_never_agree (constructor (ofZ 12345)) (constructor (ofZ 67890))
          2%nat _ _ _ _ H1 H2 H3 _ _); vm_compute; reflexivity.
Defined.

(** ** [clone] *)

Lemma normalized_fixes_range s : 1 <= s <= 2 ^ 31 - 2 -> normalized s = s.
Proof.
intros Hs. unfold normalized. change (2 ^ 31 - 2) with 2147483646 in Hs.
rewrite Z.abs_eq by lia.
destruct (Z.eqb_spec s 0); [lia|].
destruct (Z.leb_spec 2147483647 s); [lia|].
destruct (Z.eqb_spec s 0); [lia | reflexivity].
Qed.

(** [clone()] of a generator whose seed is in the valid range is in the same
    state, hence gives the same draws.  A NaN seed is not copied: the clone
    starts from seed 1. *)
Theorem clone_copies_state (g : SeededRandom.t) (n : nat) :
  seed_in_range g ->
  clone g = g /\ draws n (clone g) = draws n g /\
  clone (SeededRandom.mk NaN) = SeededRandom.mk (ofZ 1).
Proof.
intros (s & E & R). destruct g as [d]. simpl in E. subst d.
assert (C : clone (SeededRandom.mk (ofZ s)) = SeededRandom.mk (ofZ s)).
{ unfold clone. simpl seed. rewrite constructor_ofZ.
  now rewrite normalized_fixes_range. }
split; [exact C|]. split; [now rewrite C | reflexivity].
Qed.

Lemma clone_copies_state_witness :
  seed_in_range (advance 2 (constructor (ofZ 123))) /\
  clone (advance 2 (constructor (ofZ 123))) = advance 2 (constructor (ofZ 123)) /\
  draws 3 (clone (advance 2 (constructor (ofZ 123))))
    = draws 3 (advance 2 (constructor (ofZ 123))) /\
  clone (SeededRandom.mk NaN) = SeededRandom.mk (ofZ 1).
Proof.
assert (H : seed_in_range (advance 2 (constructor (ofZ 123))))
  by (exists 985676192; split; [vm_compute; reflexivity | lia]).
split; [exact H | exact (clone_copies_state _ 3%nat H)].
Defined.

(** ** How many draws a method takes *)

(** [shuffle] takes exactly [length - 1] draws (none for an empty or
    one-element array, which it returns as it is from any state). *)
Theorem shuffle_draw_count {T : Type} (undefined : T) (xs : list T)
    (g : SeededRandom.t) :
  seed_in_range g ->
  (exists ys, shuffle undefined xs g = Returns ys (snd (draws (length xs - 1) g))) /\
  (forall h x, shuffle undefined [] h = Returns [] h /\
               shuffle undefined [x] h = Returns [x] h).
Proof.
intros (s & E & R). destruct g as [d]. simpl in E. subst d. split.
- rewrite shuffle_ofZ by assumption. eexists. f_equal. apply shuffle_Z_draws.
- intros h x. split; reflexivity.
Qed.

Lemma shuffle_draw_count_witness :
  seed_in_range (constructor (ofZ 678)) /\
  (exists ys, shuffle 0 [1; 2; 3; 4] (constructor (ofZ 678))
              = Returns ys (snd (draws (length [1; 2; 3; 4] - 1) (constructor (ofZ 678))))) /\
  (forall h x, shuffle 0 [] h = Returns [] h /\ shuffle 0 [x] h = Returns [x] h).
Proof.
assert (H : seed_in_range (constructor (ofZ 678)))
  by (exists 678; split; [reflexivity | lia]).
split; [exact H | exact (shuffle_draw_count 0 [1; 2; 3; 4] _ H)].
Defined.



(** [nextInt(x, x)] returns [x], and still takes its draw. *)
Theorem nextInt_single_value (x : Z) (g : SeededRandom.t) :
  seed_in_range g ->
  nextInt x x g = Returns (ofZ x) (state_of (next g)).
Proof.
intros (s & E & R). destruct g as [d]. simpl in E. subst d.
rewrite nextInt_ofZ by lia. rewrite next_ofZ. simpl state_of. f_equal. f_equal.
pose proof (nextInt_Z_range x x s ltac:(lia) R). lia.
Qed.

Lemma nextInt_single_value_witness :
  seed_in_range (constructor (ofZ 456)) /\
  nextInt 5 5 (constructor (ofZ 456))
    = Returns (ofZ 5) (state_of (next (constructor (ofZ 456)))).
Proof.
assert (H : seed_in_range (constructor (ofZ 456)))
  by (exists 456; split; [reflexivity | lia]).
split; [exact H | exact (nextInt_single_value 5 _ H)].
Defined.

(** ** [nextFloat] and [nextBoolean] *)

Lemma next_value_ofZ s :
  1 <= s <= 2 ^ 31 - 2 ->
  exists u : Q,
    next (SeededRandom.mk (ofZ s)) = Returns (Finite u) (SeededRandom.mk (ofZ (lcg s))) /\
    (0 <= u)%Q /\ (u < 1)%Q.
Proof.
intros Hs. rewrite next_ofZ. eexists. split; [reflexivity|].
pose proof (lcg_range s Hs) as Hl. change (2 ^ 31 - 2) with 2147483646 in Hl.
rewrite !Qred_correct. unfold Qle, Qlt. simpl. lia.
Qed.

(** [nextFloat(min, max)] in double precision.  On doubles [min >= max] it
    throws and leaves the generator as it was.  On doubles [min < max] whose
    difference does not overflow it returns, after one draw, a value [v] with
    [min <= v <= max].  The upper bound is reached, against the docstring's
    "[min, max)": [nextFloat(999.9999999999999, 1000)] from seed 67890 is
    1000, and [nextFloat(1e16, 1e16 + 2)] from that seed is 1e16 + 2.  A NaN
    bound passes the guard, and the result is NaN. *)
Theorem nextFloat_spec (Number_toString : number -> string) (a b : Q)
    (g : SeededRandom.t) :
  seed_in_range g ->
  Double.is_double (Finite a) -> Double.is_double (Finite b) ->
  Double.sub (Finite b) (Finite a) <> PosInfinity ->
  ((b <= a)%Q ->
     Double.nextFloat Number_toString (Finite a) (Finite b) g =
     Throws (new_Error ("Invalid range: min (" ++ Number_toString (Finite a)
                          ++ ") must be < max (" ++ Number_toString (Finite b) ++ ")"))
            g) /\
  ((a < b)%Q ->
     exists v : Q,
       Double.nextFloat Number_toString (Finite a) (Finite b) g
         = Returns (Finite v) (state_of (next g)) /\
       (a <= v)%Q /\ (v <= b)%Q) /\
  Double.nextFloat Number_toString
    (Finite (8796093022207999 # 8796093022208)) (ofZ 1000) (constructor (ofZ 67890))
    = Returns (ofZ 1000) (SeededRandom.mk (ofZ 1129634543)) /\
  Double.nextFloat Number_toString
    (ofZ (10 ^ 16)) (ofZ (10 ^ 16 + 2)) (constructor (ofZ 67890))
    = Returns (ofZ (10 ^ 16 + 2)) (SeededRandom.mk (ofZ 1129634543)) /\
  Double.nextFloat Number_toString NaN (Finite b) g = Returns NaN (state_of (next g)) /\
  Double.nextFloat Number_toString (Finite a) NaN g = Returns NaN (state_of (next g)).
Proof.
intros (s & E & R) Da Db Hfin. destruct g as [d]. simpl in E. subst d.
destruct (double_next_ofZ s R) as (u & Hn & Hu0 & Hu1).
rewrite next_ofZ. cbn [state_of].
split; [|split; [|split; [|split; [|split]]]].
- intros Hle. unfold Double.nextFloat, ge, le, lt, strict_eq.
  destruct (Qle_bool a b) eqn:Hab; cbn [negb orb]; [|reflexivity].
  apply Qle_bool_iff in Hab.
  assert (Heq : Qeq_bool b a = true) by (apply Qeq_bool_iff; lra).
  now rewrite Heq.
- intros Hlt. unfold Double.nextFloat, ge, le, lt, strict_eq.
  assert (Hab : Qle_bool a b = true) by (apply Qle_bool_iff; lra).
  assert (Hne : Qeq_bool b a = false).
  { destruct (Qeq_bool b a) eqn:Hq; [|reflexivity].
    apply Qeq_bool_iff in Hq. lra. }
  rewrite Hab, Hne. cbn [negb orb]. unfold bind. rewrite Hn. unfold ret.
  destruct (scale_between a b u Da Db Hlt Hfin Hu0 Hu1) as (v & -> & Hv).
  exists v. split; [reflexivity | exact Hv].
- vm_compute. reflexivity.
- vm_compute. reflexivity.
- unfold Double.nextFloat. cbn [ge le lt strict_eq orb]. unfold bind.
  rewrite Hn. reflexivity.
- unfold Double.nextFloat. cbn [ge le lt strict_eq orb]. unfold bind.
  rewrite Hn. reflexivity.
Qed.

Lemma nextFloat_spec_witness :
  seed_in_range (constructor (ofZ 234)) /\
  Double.is_double (Finite (3 # 2)) /\ Double.is_double (Finite (5 # 2)) /\
  Double.sub (Finite (5 # 2)) (Finite (3 # 2)) <> PosInfinity /\
  ((3 # 2 < 5 # 2)%Q ->
     exists v : Q,
       Double.nextFloat Double.decimal (Finite (3 # 2)) (Finite (5 # 2))
                        (constructor (ofZ 234))
         = Returns (Finite v) (state_of (next (constructor (ofZ 234)))) /\
       (3 # 2 <= v)%Q /\ (v <= 5 # 2)%Q).
Proof.
assert (H : seed_in_range (constructor (ofZ 234)))
  by (exists 234; split; [reflexivity | lia]).
assert (Da : Double.is_double (Finite (3 # 2))) by (vm_compute; reflexivity).
assert (Db : Double.is_double (Finite (5 # 2))) by (vm_compute; reflexivity).
assert (Hf : Double.sub (Finite (5 # 2)) (Finite (3 # 2)) <> PosInfinity)
  by (vm_compute; discriminate).
split; [exact H|]. split; [exact Da|]. split; [exact Db|]. split; [exact Hf|].
exact (proj1 (proj2
  (nextFloat_spec Double.decimal (3 # 2) (5 # 2) (constructor (ofZ 234)) H Da Db Hf))).
Defined.

(** [nextBoolean(0)] is always false and [nextBoolean(1)] always true; a
    probability outside [0, 1] throws and leaves the generator as it was; a
    NaN probability passes the guard and gives false. *)
Theorem nextBoolean_extremes (Number_toString : number -> string)
    (g : SeededRandom.t) :
  seed_in_range g ->
  nextBoolean Number_toString (Some (ofZ 0)) g = Returns false (state_of (next g)) /\
  nextBoolean Number_toString (Some (ofZ 1)) g = Returns true (state_of (next g)) /\
  nextBoolean Number_toString (Some NaN) g = Returns false (state_of (next g)) /\
  (forall p : Q, (p < 0)%Q \/ (1 < p)%Q ->
     nextBoolean Number_toString (Some (Finite p)) g =
     Throws (new_Error ("Probability must be between 0 and 1, got "
                          ++ Number_toString (Finite p))) g).
Proof.
intros (s & E & R). destruct g as [d]. simpl in E. subst d.
destruct (next_value_ofZ s R) as (u & Hn & Hu0 & Hu1).
rewrite Hn. cbn [state_of].
split; [|split; [|split]].
- unfold nextBoolean, default. cbn [from_option id]. rewrite !lt_ofZ. unfold gt. rewrite lt_ofZ.
  rewrite ?Z.ltb_irrefl. change (1 <? 0) with false. cbn [orb].
  unfold bind. rewrite Hn. unfold ret.
  f_equal. unfold lt, ofZ. change (inject_Z 0) with 0%Q.
  assert (Hb : Qle_bool 0 u = true) by now apply Qle_bool_iff.
  now rewrite Hb.
- unfold nextBoolean, default. cbn [from_option id]. rewrite !lt_ofZ. unfold gt. rewrite lt_ofZ.
  rewrite ?Z.ltb_irrefl. change (1 <? 0) with false. cbn [orb].
  unfold bind. rewrite Hn. unfold ret.
  f_equal. unfold lt, ofZ. change (inject_Z 1) with 1%Q.
  destruct (Qle_bool 1 u) eqn:Hb; [|reflexivity].
  apply Qle_bool_iff in Hb. lra.
- unfold nextBoolean, default. cbn [from_option id].
  change ((NaN <? ofZ 0)%js) with false. change ((NaN >? ofZ 1)%js) with false.
  cbn [orb]. unfold bind. rewrite Hn. reflexivity.
- intros p Hp. unfold nextBoolean, default, gt, lt, ofZ. cbn [from_option id].
  change (inject_Z 0) with 0%Q. change (inject_Z 1) with 1%Q.
  destruct Hp as [Hp|Hp].
  + assert (Hb : Qle_bool 0 p = false).
    { destruct (Qle_bool 0 p) eqn:Hq; [|reflexivity]. apply Qle_bool_iff in Hq. lra. }
    now rewrite Hb.
  + assert (Hb : Qle_bool p 1 = false).
    { destruct (Qle_bool p 1) eqn:Hq; [|reflexivity]. apply Qle_bool_iff in Hq. lra. }
    rewrite Hb. now rewrite orb_true_r.
Qed.

Lemma nextBoolean_extremes_witness :
  seed_in_range (constructor (ofZ 789)) /\
  nextBoolean (fun _ => "?") (Some (ofZ 0)) (constructor (ofZ 789))
    = Returns false (state_of (next (constructor (ofZ 789)))) /\
  nextBoolean (fun _ => "?") (Some (ofZ 1)) (constructor (ofZ 789))
    = Returns true (state_of (next (constructor (ofZ 789)))) /\
  nextBoolean (fun _ => "?") (Some NaN) (constructor (ofZ 789))
    = Returns false (state_of (next (constructor (ofZ 789)))) /\
  (forall p : Q, (p < 0)%Q \/ (1 < p)%Q ->
     nextBoolean (fun _ => "?") (Some (Finite p)) (constructor (ofZ 789)) =
     Throws (new_Error ("Probability must be between 0 and 1, got " ++ "?"))
            (constructor (ofZ 789))).
Proof.
assert (H : seed_in_range (constructor (ofZ 789)))
  by (exists 789; split; [reflexivity | lia]).
split; [exact H | exact (nextBoolean_extremes (fun _ => "?") _ H)].
Defined.

(** ** [string] and [uuid] *)

Lemma string_app_assoc (a b c : string) : ((a ++ b) ++ c = a ++ (b ++ c))%string.
Proof.
induction a as [|x a IH]; [reflexivity|].
change (String x ((a ++ b) ++ c) = String x (a ++ (b ++ c)))%string. now f_equal.
Qed.

Lemma string_app_nil_r (a : string) : (a ++ "" = a)%string.
Proof.
induction a as [|x a IH]; [reflexivity|].
change (String x (a ++ "") = String x a)%string. now f_equal.
Qed.

Lemma string_app_length (a b : string) :
  String.length (a ++ b)%string = (String.length a + String.length b)%nat.
Proof.
induction a as [|x a IH]; [reflexivity|].
change (S (String.length (a ++ b)%string) = S (String.length a + String.length b)). now f_equal.
Qed.

Lemma list_ascii_app (a b : string) :
  list_ascii_of_string (a ++ b)%string = list_ascii_of_string a ++ list_ascii_of_string b.
Proof.
induction a as [|x a IH]; [reflexivity|].
change (x :: list_ascii_of_string (a ++ b)%string
        = x :: (list_ascii_of_string a ++ list_ascii_of_string b)). now f_equal.
Qed.

Lemma over_alphabet_app alphabet a b :
  over_alphabet alphabet a -> over_alphabet alphabet b ->
  over_alphabet alphabet (a ++ b)%string.
Proof. unfold over_alphabet. rewrite list_ascii_app. apply Forall_app_2. Qed.

Lemma effective_charset_nonempty charset : effective_charset charset <> "".
Proof.
unfold effective_charset. destruct charset as [c|]; [|discriminate].
destruct (String.eqb_spec c ""); [discriminate | assumption].
Qed.

Lemma string_loop_ofZ n chars result s :
  chars <> "" -> 1 <= s <= 2 ^ 31 - 2 ->
  exists t,
    string_loop n chars result (SeededRandom.mk (ofZ s))
      = Returns (result ++ t)%string (snd (draws n (SeededRandom.mk (ofZ s)))) /\
    String.length t = n /\ over_alphabet chars t.
Proof.
intros Hc. revert result s. induction n as [|n IH]; intros result s Hs.
- exists "". split; [|split; [reflexivity | constructor]].
  simpl. unfold ret. now rewrite string_app_nil_r.
- cbn [string_loop]. unfold bind.
  assert (Hne : split_chars chars <> []).
  { destruct chars; [congruence | discriminate]. }
  destruct (choice_ofZ "undefined" (split_chars chars) s Hne Hs) as (k & x & Hx & E).
  rewrite E.
  unfold split_chars in Hx. rewrite list_lookup_fmap in Hx.
  destruct (list_ascii_of_string chars !! k) as [c|] eqn:Hk; [|discriminate].
  simpl in Hx. injection Hx as <-.
  destruct (IH (result ++ String c "")%string (lcg s) (lcg_range s Hs)) as (t & Et & Lt & At).
  exists (String c t). rewrite draws_S_ofZ. simpl snd.
  split; [|split].
  + rewrite Et. now rewrite string_app_assoc.
  + simpl. now rewrite Lt.
  + constructor; [|exact At]. eapply list_elem_of_lookup_2. exact Hk.
Qed.

Lemma string_returns (length : Z) (charset : option string) (g : SeededRandom.t) :
  seed_in_range g -> 0 <= length ->
  exists s,
    string_ length charset g = Returns s (snd (draws (Z.to_nat length) g)) /\
    Z.of_nat (String.length s) = length /\
    over_alphabet (effective_charset charset) s.
Proof.
intros (s & E & R) Hl. destruct g as [d]. simpl in E. subst d.
unfold string_. fold (effective_charset charset).
destruct (Z.ltb_spec length 0); [lia|].
destruct (string_loop_ofZ (Z.to_nat length) (effective_charset charset) "" s
            (effective_charset_nonempty charset) R) as (t & Et & Lt & At).
exists t. split; [exact Et|]. split; [lia | exact At].
Qed.



(** [uuid()] returns 36 characters: five groups of 8, 4, 4, 4 and 12
    lower-case hexadecimal digits separated by dashes, after 32 draws. *)
Theorem uuid_format (g : SeededRandom.t) :
  seed_in_range g ->
  exists a b c d e : string,
    uuid g = Returns (a ++ "-" ++ b ++ "-" ++ c ++ "-" ++ d ++ "-" ++ e)%string
                     (snd (draws 32 g)) /\
    String.length a = 8%nat /\ String.length b = 4%nat /\
    String.length c = 4%nat /\ String.length d = 4%nat /\
    String.length e = 12%nat /\
    Forall (over_alphabet "0123456789abcdef") [a; b; c; d; e].
Proof.
intros Hg. unfold uuid. cbn [map_M]. unfold bind.
assert (step : forall (n : Z) (h : SeededRandom.t), 0 <= n -> seed_in_range h ->
  exists s, string_ n (Some "0123456789abcdef") h
              = Returns s (snd (draws (Z.to_nat n) h)) /\
            String.length s = Z.to_nat n /\
            over_alphabet "0123456789abcdef" s /\
            seed_in_range (snd (draws (Z.to_nat n) h))).
{ intros n h Hn Hh.
  destruct (string_returns n (Some "0123456789abcdef") h Hh Hn) as (s & Es & Ls & As).
  exists s. split; [exact Es|]. split; [lia|]. split; [exact As|].
  apply draws_in_range, Hh. }
destruct (step 8 g ltac:(lia) Hg) as (a & Ea & La & Aa & Ga). rewrite Ea.
destruct (step 4 _ ltac:(lia) Ga) as (b & Eb & Lb & Ab & Gb). rewrite Eb.
destruct (step 4 _ ltac:(lia) Gb) as (c & Ec & Lc & Ac & Gc). rewrite Ec.
destruct (step 4 _ ltac:(lia) Gc) as (d & Ed & Ld & Ad & Gd). rewrite Ed.
destruct (step 12 _ ltac:(lia) Gd) as (e & Ee & Le & Ae & Ge). rewrite Ee.
exists a, b, c, d, e. split.
- unfold ret. cbn [join]. reflexivity.
- repeat split; try assumption. repeat constructor; assumption.
Qed.

Lemma uuid_format_witness :
  seed_in_range (constructor (ofZ 567)) /\
  exists a b c d e : string,
    uuid (constructor (ofZ 567))
      = Returns (a ++ "-" ++ b ++ "-" ++ c ++ "-" ++ d ++ "-" ++ e)%string
                (snd (draws 32 (constructor (ofZ 567)))) /\
    String.length a = 8%nat /\ String.length b = 4%nat /\
    String.length c = 4%nat /\ String.length d = 4%nat /\
    String.length e = 12%nat /\
    Forall (over_alphabet "0123456789abcdef") [a; b; c; d; e].
Proof.
assert (H : seed_in_range (constructor (ofZ 567)))
  by (exists 567; split; [reflexivity | lia]).
split; [exact H | exact (uuid_format _ H)].
Defined.

(** ** Failing calls, and the arguments of [Math.log] *)

Lemma nextInt_total min max g :
  min <= max -> exists v, nextInt min max g = Returns v (state_of (next g)).
Proof.
intros H. unfold nextInt. destruct (Z.gtb_spec min max); [lia|].
unfold bind, next, ret. eexists. reflexivity.
Qed.

Lemma choice_total {T : Type} (undefined : T) (xs : list T) g :
  xs <> [] -> exists x, SeededRandom.choice undefined xs g = Returns x (state_of (next g)).
Proof.
intros H. unfold SeededRandom.choice.
destruct (Nat.eqb_spec (length xs) 0) as [E|_].
{ destruct xs; [congruence | discriminate E]. }
destruct (nextInt_total 0 (Z.of_nat (length xs) - 1) g) as [v Hv].
{ destruct xs; [congruence | simpl; lia]. }
unfold bind. rewrite Hv. unfold ret. eexists. reflexivity.
Qed.

Lemma shuffle_loop_total {T : Type} (undefined : T) i (l : list T) g :
  exists ys g', shuffle_loop undefined i l g = Returns ys g'.
Proof.
revert l g. induction i as [|i IH]; intros l g.
- do 2 eexists. reflexivity.
- cbn [shuffle_loop]. unfold bind.
  destruct (nextInt_total 0 (Z.of_nat (S i)) g ltac:(lia)) as [v Hv].
  rewrite Hv. apply IH.
Qed.

Lemma string_loop_total n chars result g :
  chars <> "" -> exists s g', string_loop n chars result g = Returns s g'.
Proof.
intros Hc. revert result g. induction n as [|n IH]; intros result g.
- do 2 eexists. reflexivity.
- cbn [string_loop]. unfold bind.
  destruct (choice_total "undefined" (split_chars chars) g) as [x Hx].
  { destruct chars; [congruence | discriminate]. }
  rewrite Hx. apply IH.
Qed.

(** Every guard of the class comes before the first draw: whichever method
    throws, and in whatever state, the generator is left as it was. *)
Theorem failed_call_leaves_generator {T : Type} (undefined : T)
    (Number_toString : number -> string) (Math_log : number -> number)
    (g g' : SeededRandom.t) (e : JsError) :
  (exists min max, nextInt min max g = Throws e g') \/
  (exists min max, nextFloat Number_toString min max g = Throws e g') \/
  (exists p, nextBoolean Number_toString p g = Throws e g') \/
  (exists xs : list T, SeededRandom.choice undefined xs g = Throws e g') \/
  (exists (xs : list T) n, sample undefined xs n g = Throws e g') \/
  (exists n charset, string_ n charset g = Throws e g') \/
  (exists lambda,
     SeededRandom.exponential Number_toString Math_log lambda g = Throws e g') ->
  g' = g.
Proof.
intros [(min & max & H)|[(min & max & H)|[(p & H)|[(xs & H)|[(xs & n & H)|[(n & c & H)|(l & H)]]]]]].
- unfold nextInt in H. destruct (min >? max); [now injection H|discriminate H].
- unfold nextFloat in H. destruct (min >=? max)%js; [now injection H|discriminate H].
- unfold nextBoolean in H.
  destruct ((_ <? _)%js || (_ >? _)%js)%bool; [now injection H|discriminate H].
- destruct xs as [|x xs]; [now injection H|].
  destruct (choice_total undefined (x :: xs) g ltac:(discriminate)) as [y Hy].
  congruence.
- unfold sample in H.
  destruct (n >? Z.of_nat (length xs)); [now injection H|].
  destruct (n <? 0); [now injection H|].
  unfold bind, shuffle in H.
  destruct (shuffle_loop_total undefined (length xs - 1) xs g) as (ys & g1 & Hy).
  rewrite Hy in H. discriminate H.
- unfold string_ in H. destruct (n <? 0); [now injection H|].
  match type of H with
  | string_loop ?k ?chars "" g = _ =>
      destruct (string_loop_total k chars "" g) as (s & g1 & Hs)
  end.
  { apply (effective_charset_nonempty c). }
  rewrite Hs in H. discriminate H.
- unfold SeededRandom.exponential in H.
  destruct (_ <=? _)%js; [now injection H|discriminate H].
Qed.

Lemma failed_call_leaves_generator_witness :
  ((exists min max, nextInt min max (constructor (ofZ 789))
      = Throws (new_Error "Invalid range: min (10) must be <= max (5)")
               (constructor (ofZ 789))) \/
   (exists min max, nextFloat (fun _ => "?") min max (constructor (ofZ 789))
      = Throws (new_Error "Invalid range: min (10) must be <= max (5)")
               (constructor (ofZ 789))) \/
   (exists p, nextBoolean (fun _ => "?") p (constructor (ofZ 789))
      = Throws (new_Error "Invalid range: min (10) must be <= max (5)")
               (constructor (ofZ 789))) \/
   (exists xs : list Z, SeededRandom.choice 0 xs (constructor (ofZ 789))
      = Throws (new_Error "Invalid range: min (10) must be <= max (5)")
               (constructor (ofZ 789))) \/
   (exists (xs : list Z) n, sample 0 xs n (constructor (ofZ 789))
      = Throws (new_Error "Invalid range: min (10) must be <= max (5)")
               (constructor (ofZ 789))) \/
   (exists n charset, string_ n charset (constructor (ofZ 789))
      = Throws (new_Error "Invalid range: min (10) must be <= max (5)")
               (constructor (ofZ 789))) \/
   (exists lambda,
      SeededRandom.exponential (fun _ => "?") (fun x => x) lambda (constructor (ofZ 789))
      = Throws (new_Error "Invalid range: min (10) must be <= max (5)")
               (constructor (ofZ 789)))) /\
  constructor (ofZ 789) = constructor (ofZ 789).
Proof.
assert (H : exists min max, nextInt min max (constructor (ofZ 789))
      = Throws (new_Error "Invalid range: min (10) must be <= max (5)")
               (constructor (ofZ 789)))
  by (exists 10, 5; reflexivity).
split; [left; exact H|].
exact (failed_call_leaves_generator (T := Z) 0 (fun _ => "?") (fun x => x)
         (constructor (ofZ 789)) (constructor (ofZ 789))
         (new_Error "Invalid range: min (10) must be <= max (5)") (or_introl H)).
Defined.

(** [exponential(lambda)] throws exactly when [lambda <= 0]; otherwise it
    takes one draw [u] and calls [Math.log] on [1 - u], which lies in
    (0, 1]: the logarithm is never taken at 0. *)
Theorem exponential_log_argument (Number_toString : number -> string)
    (Math_log : number -> number) (lambda : Q) (g : SeededRandom.t) :
  seed_in_range g ->
  ((lambda <= 0)%Q ->
     SeededRandom.exponential Number_toString Math_log (Some (Finite lambda)) g =
     Throws (new_Error ("Lambda must be positive, got "
                          ++ Number_toString (Finite lambda))) g) /\
  ((0 < lambda)%Q ->
     exists w : Q,
       (0 < w)%Q /\ (w <= 1)%Q /\
       SeededRandom.exponential Number_toString Math_log (Some (Finite lambda)) g =
       Returns (neg (Math_log (Finite w)) / Finite lambda)%js (state_of (next g))).
Proof.
intros (s & E & R). destruct g as [d]. simpl in E. subst d.
destruct (next_value_ofZ s R) as (u & Hn & Hu0 & Hu1).
rewrite Hn. cbn [state_of].
unfold SeededRandom.exponential, default. cbn [from_option id].
assert (G : (Finite lambda <=? ofZ 0)%js = true <-> (lambda <= 0)%Q).
{ unfold le, lt, strict_eq, ofZ. change (inject_Z 0) with 0%Q.
  rewrite orb_true_iff, negb_true_iff, Qeq_bool_iff.
  rewrite <- not_true_iff_false, Qle_bool_iff. split; [intros [?|?]|]; lra. }
destruct (Finite lambda <=? ofZ 0)%js.
- split; [reflexivity|]. intros Hl. assert ((lambda <= 0)%Q) by now apply G. lra.
- split; [intros Hl; apply G in Hl; discriminate Hl|]. intros Hl.
  unfold bind. rewrite Hn. unfold ret.
  eexists. split; [|split; [|reflexivity]].
  + rewrite !Qred_correct. change (inject_Z 1) with 1%Q. lra.
  + rewrite !Qred_correct. change (inject_Z 1) with 1%Q. lra.
Qed.

Lemma exponential_log_argument_witness :
  seed_in_range (constructor (ofZ 901)) /\
  ((2 <= 0)%Q ->
     SeededRandom.exponential (fun _ => "?") (fun x => x) (Some (Finite 2))
                              (constructor (ofZ 901)) =
     Throws (new_Error ("Lambda must be positive, got " ++ "?"))
            (constructor (ofZ 901))) /\
  ((0 < 2)%Q ->
     exists w : Q,
       (0 < w)%Q /\ (w <= 1)%Q /\
       SeededRandom.exponential (fun _ => "?") (fun x => x) (Some (Finite 2))
                                (constructor (ofZ 901)) =
       Returns (neg ((fun x => x) (Finite w)) / Finite 2)%js
               (state_of (next (constructor (ofZ 901))))).
Proof.
assert (H : seed_in_range (constructor (ofZ 901)))
  by (exists 901; split; [reflexivity | lia]).
split; [exact H|].
exact (exponential_log_argument (fun _ => "?") (fun x => x) 2 _ H).
Defined.

(** [gaussian(mean, stdDev)] takes two draws [u1], [u2] of [0, 1) and calls
    [Math.log] on [u1]; that argument is 0 from exactly one state, the seed
    1899818559. *)
Theorem gaussian_log_argument
    (Math_sqrt Math_log Math_cos : number -> number) (Math_PI : number)
    (mean stdDev : option number) (g : SeededRandom.t) :
  seed_in_range g ->
  exists u1 u2 : Q,
    ((0 <= u1)%Q /\ (u1 < 1)%Q) /\ ((0 <= u2)%Q /\ (u2 < 1)%Q) /\
    fst (draws 2 g) = [Finite u1; Finite u2] /\
    gaussian Math_sqrt Math_log Math_cos Math_PI mean stdDev g =
    Returns (Math_sqrt (ofZ (-2) * Math_log (Finite u1))
             * Math_cos (ofZ 2 * Math_PI * Finite u2)
             * default (ofZ 1) stdDev + default (ofZ 0) mean)%js
            (snd (draws 2 g)) /\
    ((u1 == 0)%Q <-> seed g = ofZ 1899818559).
Proof.
intros (s & E & R). destruct g as [d]. simpl in E. subst d.
destruct (next_value_ofZ s R) as (u1 & Hn1 & Hu1).
destruct (next_value_ofZ (lcg s) (lcg_range s R)) as (u2 & Hn2 & Hu2).
exists u1, u2. split; [exact Hu1|]. split; [exact Hu2|].
assert (D : draws 2 (SeededRandom.mk (ofZ s)) =
            ([Finite u1; Finite u2], SeededRandom.mk (ofZ (lcg (lcg s))))).
{ cbn [draws]. rewrite Hn1, Hn2. reflexivity. }
rewrite D. cbn [fst snd]. split; [reflexivity|]. split.
- unfold gaussian, bind. rewrite Hn1, Hn2. reflexivity.
- simpl seed. rewrite next_ofZ in Hn1. injection Hn1 as Hv.
  assert (Q : (u1 == (lcg s - 1) # 2147483646)%Q).
  { rewrite <- Hv. apply Qred_correct. }
  rewrite Q. unfold Qeq. simpl. split.
  + intros H0. assert (Hl : lcg s = lcg 1899818559) by (change (lcg 1899818559) with 1; lia).
    f_equal. apply lcg_injective; [assumption | lia | assumption].
  + intros H0. apply ofZ_inj in H0. subst s. reflexivity.
Qed.

Lemma gaussian_log_argument_witness :
  seed_in_range (SeededRandom.mk (ofZ 1899818559)) /\
  exists u1 u2 : Q,
    ((0 <= u1)%Q /\ (u1 < 1)%Q) /\ ((0 <= u2)%Q /\ (u2 < 1)%Q) /\
    fst (draws 2 (SeededRandom.mk (ofZ 1899818559))) = [Finite u1; Finite u2] /\
    gaussian (fun x => x) (fun x => x) (fun x => x) (ofZ 3) None None
             (SeededRandom.mk (ofZ 1899818559)) =
    Returns ((fun x => x) (ofZ (-2) * (fun x => x) (Finite u1))
             * (fun x => x) (ofZ 2 * ofZ 3 * Finite u2)
             * default (ofZ 1) None + default (ofZ 0) None)%js
            (snd (draws 2 (SeededRandom.mk (ofZ 1899818559)))) /\
    ((u1 == 0)%Q <-> seed (SeededRandom.mk (ofZ 1899818559)) = ofZ 1899818559).
Proof.
assert (H : seed_in_range (SeededRandom.mk (ofZ 1899818559)))
  by (exists 1899818559; split; [reflexivity | lia]).
split; [exact H|].
exact (gaussian_log_argument (fun x => x) (fun x => x) (fun x => x) (ofZ 3)
         None None _ H).
Defined.

(** * The adapter over [Math.random()] *)

Section MathRandomFacts.
Context {Engine : Type} (Math_random : Engine -> number * Engine).

(** What [Math.random()] promises: a value of [0, 1). *)
Hypothesis Math_random_unit : forall st, unit_interval (fst (Math_random st)).






End MathRandomFacts.





(** * The chaos factory *)

Import Chaos.

Section ChaosFactoryFacts.
Context {Clock : Type} (Date_now : Clock -> number * Clock).

Lemma seed_or_now_truthy (s : number) (clock : Clock) :
  truthy s = true -> ChaosFactory.seed_or_now Clock Date_now (Some s) clock = (s, clock).
Proof. intros H. unfold ChaosFactory.seed_or_now. now rewrite H. Qed.

Lemma seed_or_now_falsy (seed : option number) (clock : Clock) :
  from_option truthy false seed = false ->
  ChaosFactory.seed_or_now Clock Date_now seed clock = Date_now clock.
Proof.
intros H. unfold ChaosFactory.seed_or_now.
destruct seed as [s|]; [|reflexivity]. simpl in H. now rewrite H.
Qed.

Lemma number_or_truthy (x : option number) (d : number) :
  truthy d = true -> truthy (ChaosFactory.number_or x d) = true.
Proof.
intros H. unfold ChaosFactory.number_or, or_else.
destruct x as [x|]; [|assumption].
destruct (truthy x) eqn:E; assumption.
Qed.

Ltac open_presets :=
  unfold ChaosFactory.preset, ChaosFactory.createLightChaos,
    ChaosFactory.createModerateChaos, ChaosFactory.createExtremeChaos;
  cbn [ChaosFactory.in_order];
  unfold ChaosFactory.createMessageLoss, ChaosFactory.createDelay,
    ChaosFactory.createReorder, ChaosFactory.createCorruption,
    ChaosFactory.createAgentFailure, ChaosFactory.createNetworkPartition;
  cbn [ChaosFactory.MessageLossOptions.seed ChaosFactory.DelayOptions.seed
       ChaosFactory.ReorderOptions.seed ChaosFactory.CorruptionOptions.seed
       ChaosFactory.AgentFailureOptions.seed ChaosFactory.NetworkPartitionOptions.seed].

(** A preset called with a seed other than 0 and NaN puts that seed in every
    configuration it returns and never reads the clock, and
    [createDeterministicChaos()] carries the seeds 12345, 12346 and 12347
    whatever the clock says. *)
Theorem preset_seed_shared (p : ChaosFactory.Preset) (s : number) (clock : Clock) :
  truthy s = true ->
  Forall (fun c => ChaosConfiguration.seed c = Some s)
         (fst (ChaosFactory.preset Clock Date_now p (Some s) clock)) /\
  length (fst (ChaosFactory.preset Clock Date_now p (Some s) clock))
    = ChaosFactory.preset_size p /\
  snd (ChaosFactory.preset Clock Date_now p (Some s) clock) = clock /\
  ChaosConfiguration.seed <$> fst (ChaosFactory.createDeterministicChaos Clock Date_now clock)
    = [Some (ofZ 12345); Some (ofZ 12346); Some (ofZ 12347)] /\
  snd (ChaosFactory.createDeterministicChaos Clock Date_now clock) = clock.
Proof.
intros H.
assert (E := seed_or_now_truthy s clock H).
destruct p;
  open_presets; rewrite ?E; unfold ChaosFactory.createDeterministicChaos;
  cbn [fst snd length ChaosFactory.preset_size];
  (split; [repeat constructor | split; [reflexivity | split; [reflexivity|]]]);
  split; reflexivity.
Qed.

(** A preset called without a seed, or with the seed 0 or NaN, reads the clock
    once for each configuration: the seeds are the successive readings, so
    the configurations of one call need not share a seed. *)
Theorem preset_unseeded_reads_clock (p : ChaosFactory.Preset) (seed : option number)
    (clock : Clock) :
  from_option truthy false seed = false ->
  ChaosConfiguration.seed <$> fst (ChaosFactory.preset Clock Date_now p seed clock)
    = Some <$> fst (ChaosFactory.readings Clock Date_now (ChaosFactory.preset_size p) clock) /\
  snd (ChaosFactory.preset Clock Date_now p seed clock)
    = snd (ChaosFactory.readings Clock Date_now (ChaosFactory.preset_size p) clock).
Proof.
intros H.
assert (E := fun c => seed_or_now_falsy seed c H).
destruct p;
  open_presets; cbn [ChaosFactory.preset_size ChaosFactory.readings]; rewrite !E;
  repeat (let t := fresh "t" in let c := fresh "c" in
          match goal with
          | |- context [Date_now ?x] => destruct (Date_now x) as [t c]; rewrite ?E
          end);
  split; reflexivity.
Qed.

(** The rate of a message-loss, corruption or agent-failure configuration is
    never 0 and never NaN, and the [probability] field repeats it: a rate of
    0 asked for in the options is replaced by the default 0.1, 0.05 or 0.1. *)
Theorem rate_never_zero (clock : Clock) :
  (forall o,
     let c := fst (ChaosFactory.createMessageLoss Clock Date_now o clock) in
     (exists r, ChaosFactory.rate c = Some r /\ truthy r = true) /\
     ChaosConfiguration.probability c = ChaosFactory.rate c /\
     (ChaosFactory.MessageLossOptions.lossRate o = Some (ofZ 0) ->
      ChaosFactory.rate c = Some (Finite (1 # 10)))) /\
  (forall o,
     let c := fst (ChaosFactory.createCorruption Clock Date_now o clock) in
     (exists r, ChaosFactory.rate c = Some r /\ truthy r = true) /\
     ChaosConfiguration.probability c = ChaosFactory.rate c /\
     (ChaosFactory.CorruptionOptions.corruptionRate o = Some (ofZ 0) ->
      ChaosFactory.rate c = Some (Finite (1 # 20)))) /\
  (forall o,
     let c := fst (ChaosFactory.createAgentFailure Clock Date_now o clock) in
     (exists r, ChaosFactory.rate c = Some r /\ truthy r = true) /\
     ChaosConfiguration.probability c = ChaosFactory.rate c /\
     (ChaosFactory.AgentFailureOptions.failureRate o = Some (ofZ 0) ->
      ChaosFactory.rate c = Some (Finite (1 # 10)))).
Proof.
split; [|split]; intros o c; subst c.
- unfold ChaosFactory.createMessageLoss.
  destruct (ChaosFactory.seed_or_now _ _ _ _) as [sd cl]. cbn.
  split; [|split].
  + eexists. split; [reflexivity|]. now apply number_or_truthy.
  + reflexivity.
  + intros ->. reflexivity.
- unfold ChaosFactory.createCorruption.
  destruct (ChaosFactory.seed_or_now _ _ _ _) as [sd cl]. cbn.
  split; [|split].
  + eexists. split; [reflexivity|]. now apply number_or_truthy.
  + reflexivity.
  + intros ->. reflexivity.
- unfold ChaosFactory.createAgentFailure.
  destruct (ChaosFactory.seed_or_now _ _ _ _) as [sd cl]. cbn.
  split; [|split].
  + eexists. split; [reflexivity|]. now apply number_or_truthy.
  + reflexivity.
  + intros ->. reflexivity.
Qed.

(** [createDelay({ minDelay: 0, maxDelay: m })] with 0 < m < 100 returns
    [minDelay] 100 above [maxDelay] m: the 0 is replaced by the default and
    the bounds are not compared. *)
Theorem createDelay_zero_minimum (m : Q) (distribution : option Chaos.Distribution)
    (targetAgents : option (list string)) (seed : option number) (clock : Clock) :
  (0 < m)%Q -> (m < 100)%Q ->
  ChaosConfiguration.parameters
    (fst (ChaosFactory.createDelay Clock Date_now
            (ChaosFactory.DelayOptions.mk (Some (ofZ 0)) (Some (Finite m))
                                          distribution targetAgents seed) clock))
  = Chaos.DelayParameters (ofZ 100) (Finite m) (default Chaos.uniform distribution)
                          targetAgents /\
  (Finite m <? ofZ 100)%js = true.
Proof.
intros H0 H1. unfold ChaosFactory.createDelay.
destruct (ChaosFactory.seed_or_now _ _ _ _) as [sd cl]. cbn [fst ChaosConfiguration.parameters].
split.
- f_equal. cbn [ChaosFactory.DelayOptions.maxDelay ChaosFactory.number_or].
  unfold or_else, truthy, is_zero.
  destruct (Qeq_bool m 0) eqn:E; [|reflexivity].
  apply Qeq_bool_eq in E. lra.
- unfold lt, ofZ. destruct (Qle_bool (inject_Z 100) m) eqn:E; [|reflexivity].
  apply Qle_bool_iff in E. change (inject_Z 100) with 100%Q in E. lra.
Qed.

End ChaosFactoryFacts.

Lemma preset_seed_shared_witness :
  truthy (ofZ 42) = true /\
  Forall (fun c => ChaosConfiguration.seed c = Some (ofZ 42))
         (fst (ChaosFactory.preset Z ticking_clock ChaosFactory.Moderate (Some (ofZ 42))
                                   1700000000000)) /\
  length (fst (ChaosFactory.preset Z ticking_clock ChaosFactory.Moderate (Some (ofZ 42))
                                   1700000000000)) = 4%nat /\
  snd (ChaosFactory.preset Z ticking_clock ChaosFactory.Moderate (Some (ofZ 42))
                           1700000000000) = 1700000000000.
Proof.
assert (H : truthy (ofZ 42) = true) by reflexivity.
split; [exact H|].
pose proof (preset_seed_shared ticking_clock ChaosFactory.Moderate (ofZ 42)
                               1700000000000 H) as (A & B & D & _).
exact (conj A (conj B D)).
Defined.

Lemma preset_unseeded_reads_clock_witness :
  from_option truthy false (Some (ofZ 0)) = false /\
  ChaosConfiguration.seed
    <$> fst (ChaosFactory.preset Z ticking_clock ChaosFactory.Light (Some (ofZ 0))
                                 1700000000000)
  = [Some (ofZ 1700000000000); Some (ofZ 1700000000001)].
Proof.
assert (H : from_option truthy false (Some (ofZ 0)) = false) by reflexivity.
split; [exact H|].
exact (proj1 (preset_unseeded_reads_clock ticking_clock ChaosFactory.Light
                                          (Some (ofZ 0)) 1700000000000 H)).
Defined.

Lemma createDelay_zero_minimum_witness :
  (0 < 50)%Q /\ (50 < 100)%Q /\
  ChaosConfiguration.parameters
    (fst (ChaosFactory.createDelay Z ticking_clock
            (ChaosFactory.DelayOptions.mk (Some (ofZ 0)) (Some (Finite 50)) None None None)
            1700000000000))
  = Chaos.DelayParameters (ofZ 100) (Finite 50) Chaos.uniform None.
Proof.
assert (H0 : (0 < 50)%Q) by reflexivity.
assert (H1 : (50 < 100)%Q) by reflexivity.
split; [exact H0 | split; [exact H1|]].
exact (proj1 (createDelay_zero_minimum ticking_clock 50 None None None 1700000000000 H0 H1)).
Defined.

(** * The conversation factory *)

Import ConversationFactory.

Lemma draws_S_snd n g :
  snd (SeededRandom.draws (S n) g)
  = snd (SeededRandom.draws n (SeededRandom.state_of (SeededRandom.next g))).
Proof.
cbn [SeededRandom.draws]. unfold SeededRandom.next. cbn [SeededRandom.state_of].
now destruct (SeededRandom.draws n _).
Qed.


Lemma draws_add n m g :
  snd (SeededRandom.draws (n + m) g)
  = snd (SeededRandom.draws m (snd (SeededRandom.draws n g))).
Proof.
revert g. induction n as [|n IH]; intros g; [reflexivity|].
change (S n + m)%nat with (S (n + m)). now rewrite !draws_S_snd, IH.
Qed.

(** *** Identifiers *)

Lemma string_app_inv_head (a x y : string) : (a ++ x = a ++ y)%string -> x = y.
Proof.
induction a as [|c a IH]; simpl; intros H; [assumption|].
injection H as H. auto.
Qed.

Lemma uint_no_underscore d :
  "_"%char ∉ list_ascii_of_string (NilEmpty.string_of_uint d).
Proof.
induction d; simpl; rewrite ?not_elem_of_cons; try (split; [discriminate | assumption]).
apply not_elem_of_nil.
Qed.

Lemma string_of_Z_no_underscore z : "_"%char ∉ list_ascii_of_string (string_of_Z z).
Proof.
unfold string_of_Z, NilZero.string_of_int, NilZero.string_of_uint.
destruct (Z.to_int z) as [d|d].
- destruct d; try apply uint_no_underscore.
  simpl. rewrite not_elem_of_cons. split; [discriminate | apply not_elem_of_nil].
- simpl. rewrite not_elem_of_cons. split; [discriminate|].
  destruct d; try apply uint_no_underscore.
  simpl. rewrite not_elem_of_cons. split; [discriminate | apply not_elem_of_nil].
Qed.

Lemma split_at_underscore (a b x y : string) :
  "_"%char ∉ list_ascii_of_string a -> "_"%char ∉ list_ascii_of_string b ->
  (a ++ String "_" x = b ++ String "_" y)%string -> a = b.
Proof.
revert b. induction a as [|c a IH]; intros [|c' b] Ha Hb E; simpl in *.
- reflexivity.
- injection E as E1 E2. subst c'. exfalso. apply Hb. apply elem_of_cons. now left.
- injection E as E1 E2. subst c. exfalso. apply Ha. apply elem_of_cons. now left.
- injection E as E1 E2. subst c'. f_equal.
  apply IH with (b := b); [| |assumption].
  + intros H. apply Ha. apply elem_of_cons. now right.
  + intros H. apply Hb. apply elem_of_cons. now right.
Qed.

Lemma string_of_Z_inj z1 z2 : string_of_Z z1 = string_of_Z z2 -> z1 = z2.
Proof.
unfold string_of_Z. intros E.
assert (N : forall z, NilZero.int_of_string (NilZero.string_of_int (Z.to_int z))
                      = Some (Z.to_int z)).
{ intros z. apply NilZero.isi; destruct z; simpl; try discriminate;
    intros H; injection H as H; now apply Unsigned.to_uint_nonnil in H. }
pose proof (N z1) as N1. rewrite E, N in N1. injection N1 as N1.
rewrite <- (DecimalZ.of_to z1), <- (DecimalZ.of_to z2). now f_equal.
Qed.

(** The counter can be read back from an identifier. *)
Lemma generated_id_inj (prefix : string) k t k' t' :
  (prefix ++ "_" ++ string_of_Z k ++ "_" ++ string_of_Z t
   = prefix ++ "_" ++ string_of_Z k' ++ "_" ++ string_of_Z t')%string ->
  k = k'.
Proof.
intros E. apply string_app_inv_head in E.
change ("_" ++ ?s)%string with (String "_" s) in E. simpl in E. injection E as E.
apply string_of_Z_inj.
eapply split_at_underscore; [apply string_of_Z_no_underscore.. | exact E].
Qed.

Lemma numbered_above prefix c ids x :
  numbered prefix c ids -> x ∈ ids ->
  exists k t, c < k /\
    x = (prefix ++ "_" ++ string_of_Z k ++ "_" ++ string_of_Z t)%string.
Proof.
revert c. induction ids as [|id ids IH]; intros c H Hx.
- now apply elem_of_nil in Hx.
- destruct H as [[t Ht] Hrest]. apply elem_of_cons in Hx as [->|Hx].
  + exists (c + 1), t. split; [lia | assumption].
  + destruct (IH (c + 1) Hrest Hx) as (k & t' & Hk & E).
    exists k, t'. split; [lia | assumption].
Qed.

Lemma numbered_NoDup prefix c ids : numbered prefix c ids -> NoDup ids.
Proof.
revert c. induction ids as [|id ids IH]; intros c H; [constructor|].
destruct H as [[t Ht] Hrest]. constructor; [|now apply (IH (c + 1))].
intros Hin. destruct (numbered_above prefix (c + 1) ids id Hrest Hin) as (k & t' & Hk & E).
rewrite Ht in E. apply generated_id_inj in E. lia.
Qed.

Section FactoryFacts.
Context {Clock : Type} (Date_now : Clock -> Z * Clock).

Lemma after_zero (w : World Clock) : after Date_now 0 0 0 w = w.
Proof. destruct w. unfold after. simpl. now rewrite Z.add_0_r. Qed.

Lemma after_after a b c a' b' c' (w : World Clock) :
  after Date_now a' b' c' (after Date_now a b c w) = after Date_now (a + a') (b + b') (c + c') w.
Proof.
unfold after. simpl. f_equal.
- now rewrite draws_add.
- lia.
- rewrite (Nat.add_comm c c'). now rewrite Nat.iter_add.
Qed.

Lemma good_after a b c (w : World Clock) : good w -> good (after Date_now a b c w).
Proof. intros H. unfold good. simpl. now apply draws_in_range. Qed.

(** *** The rules of [runs] *)

Lemma runs_ret {A} (a : A) (w : World Clock) (P : A -> Prop) :
  P a -> runs Date_now (ret Clock a) w 0 0 0 P.
Proof. intros H. exists a. now rewrite after_zero. Qed.

Lemma runs_bind {A B} (c : F Clock A) (k : A -> F Clock B) (w : World Clock)
    n i r n' i' r' (P : A -> Prop) (Q : B -> Prop) :
  runs Date_now c w n i r P ->
  (forall a, P a -> runs Date_now (k a) (after Date_now n i r w) n' i' r' Q) ->
  runs Date_now (bind Clock c k) w (n + n') (i + i') (r + r') Q.
Proof.
intros (a & E & Ha) Hk.
destruct (Hk a Ha) as (b & E' & Hb).
exists b. unfold bind. rewrite E, E', after_after. now split.
Qed.

Lemma runs_counts {A} (c : F Clock A) (w : World Clock) n i r N I R (P : A -> Prop) :
  runs Date_now c w n i r P -> n = N -> i = I -> r = R ->
  runs Date_now c w N I R P.
Proof. now intros H <- <- <-. Qed.

Lemma runs_weaken {A} (c : F Clock A) (w : World Clock) n i r (P Q : A -> Prop) :
  runs Date_now c w n i r P -> (forall a, P a -> Q a) -> runs Date_now c w n i r Q.
Proof. intros (a & E & Ha) H. exists a. auto. Qed.

(** *** The calls of the generator *)

Lemma after_draws_ofZ n s c (cl : Clock) :
  after Date_now n 0 0 (mkWorld (SeededRandom.mk (ofZ s)) c cl)
  = mkWorld (snd (SeededRandom.draws n (SeededRandom.mk (ofZ s)))) c cl.
Proof. unfold after. simpl. now rewrite Z.add_0_r. Qed.

Lemma good_ofZ (w : World Clock) :
  good w -> exists s c cl, w = mkWorld (SeededRandom.mk (ofZ s)) c cl /\ 1 <= s <= 2 ^ 31 - 2.
Proof.
destruct w as [[sd] c cl]. intros (s & E & R). simpl in E. subst sd.
now exists s, c, cl.
Qed.

Lemma lift_nextInt min max (w : World Clock) :
  good w -> min <= max ->
  runs Date_now (lift Clock (nextInt min max)) w 1 0 0
       (fun v => exists k, v = ofZ k /\ min <= k <= max).
Proof.
intros Hw Hle. destruct (good_ofZ w Hw) as (s & c & cl & -> & R).
unfold runs, lift. cbn [rng idCounter clock].
rewrite nextInt_ofZ by assumption.
rewrite after_draws_ofZ, draws_S_ofZ. cbn [snd SeededRandom.draws].
eexists. split; [reflexivity|].
eexists. split; [reflexivity|]. now apply nextInt_Z_range.
Qed.

Lemma lift_next (w : World Clock) :
  good w ->
  runs Date_now (lift Clock next) w 1 0 0
       (fun v => exists q, v = Finite q /\ (0 <= q)%Q /\ (q < 1)%Q).
Proof.
intros Hw. destruct (good_ofZ w Hw) as (s & c & cl & -> & R).
unfold runs, lift. cbn [rng idCounter clock].
destruct (next_value_ofZ s R) as (u & E & Hu).
rewrite E, after_draws_ofZ, draws_S_ofZ. cbn [snd SeededRandom.draws].
eexists. split; [reflexivity|]. now exists u.
Qed.

Lemma choice_of_runs (xs : list string) (w : World Clock) :
  good w -> xs <> [] ->
  runs Date_now (choice_of Clock xs) w 1 0 0 (fun v => exists x, v = Some x /\ x ∈ xs).
Proof.
intros Hw Hne. destruct (good_ofZ w Hw) as (s & c & cl & -> & R).
unfold runs, choice_of, lift. cbn [rng idCounter clock].
destruct (choice_ofZ None (Some <$> xs) s) as (k & x & Hk & E); [|assumption|].
{ destruct xs; [congruence | discriminate]. }
rewrite E, after_draws_ofZ, draws_S_ofZ. cbn [snd SeededRandom.draws].
eexists. split; [reflexivity|].
rewrite list_lookup_fmap in Hk.
destruct (xs !! k) as [y|] eqn:Ey; [|discriminate]. simpl in Hk. injection Hk as <-.
exists y. split; [reflexivity|]. eapply list_elem_of_lookup_2. exact Ey.
Qed.

Lemma lift_shuffle {T : Type} (undefined : T) (xs : list T) (w : World Clock) :
  good w ->
  runs Date_now (lift Clock (shuffle undefined xs)) w (length xs - 1) 0 0
       (fun ys => ys ≡ₚ xs).
Proof.
intros Hw. destruct (good_ofZ w Hw) as (s & c & cl & -> & R).
unfold runs, lift. cbn [rng idCounter clock].
rewrite shuffle_ofZ by assumption.
rewrite after_draws_ofZ, <- (shuffle_Z_draws (length xs - 1) xs s).
eexists. split; [reflexivity|]. apply shuffle_Z_perm.
Qed.

Lemma generateId_runs (prefix : string) (w : World Clock) :
  runs Date_now (generateId Clock Date_now prefix) w 0 1 1
       (fun id => id = (prefix ++ "_" ++ string_of_Z (idCounter w + 1) ++ "_"
                          ++ string_of_Z (fst (Date_now (clock w))))%string).
Proof.
unfold runs, generateId, after. destruct w as [g c cl]. cbn [rng idCounter clock].
destruct (Date_now cl) as [t cl'] eqn:E. cbn [Nat.iter nat_rect SeededRandom.draws snd fst].
rewrite E. cbn [snd]. eexists. split; [reflexivity|]. reflexivity.
Qed.

(** *** The helpers of the factory *)

Lemma slice_to_ofZ {T : Type} (xs : list T) (k : Z) :
  0 <= k -> slice_to xs (ofZ k) = take (Z.to_nat k) xs.
Proof.
intros Hk. unfold slice_to, ofZ, slice0, trunc. simpl. rewrite Z.quot_1_r.
destruct (Z.ltb_spec k 0); [lia|].
destruct (Z.le_ge_cases k (Z.of_nat (length xs))) as [L|L].
- now rewrite Z.min_l.
- rewrite Z.min_r by lia. rewrite Nat2Z.id.
  rewrite !take_ge by lia. reflexivity.
Qed.

Lemma allCapabilities_NoDup : NoDup (Some <$> allCapabilities).
Proof. apply (bool_decide_unpack _). vm_compute. exact I. Qed.

Lemma generateCapabilities_runs (w : World Clock) :
  good w ->
  runs Date_now (generateCapabilities Clock) w 6 0 0
       (fun caps => NoDup caps /\
                    Forall (fun c => exists x, c = Some x /\ x ∈ allCapabilities) caps /\
                    (2 <= length caps <= 5)%nat).
Proof.
intros Hw. unfold generateCapabilities.
eapply runs_counts.
{ eapply runs_bind; [apply lift_nextInt; [assumption | lia]|].
  cbv beta. intros v (k & -> & Hk).
  eapply runs_bind; [apply lift_shuffle, good_after, Hw|].
  cbv beta. intros ys Hys. apply runs_ret.
  rewrite slice_to_ofZ by lia.
  assert (Hl : length ys = 6%nat) by (now rewrite Hys).
  split; [|split].
  - eapply sublist_NoDup; [|apply sublist_take].
    rewrite Hys. apply allCapabilities_NoDup.
  - apply Forall_take. rewrite Hys. apply Forall_fmap, Forall_forall.
    intros x Hx. now exists x.
  - rewrite length_take. lia. }
all: reflexivity.
Qed.

Lemma generateMessageContent_runs (w : World Clock) :
  good w ->
  runs Date_now (generateMessageContent Clock) w 9 0 0 (fun _ => True).
Proof.
intros Hw. unfold generateMessageContent.
eapply runs_counts.
{ eapply runs_bind; [apply choice_of_runs; [assumption | discriminate]|].
  cbv beta. intros v (x & -> & _).
  do 8 (eapply runs_bind;
        [apply choice_of_runs; [repeat apply good_after; assumption | discriminate]|];
        cbv beta; intros ? _).
  now apply runs_ret. }
all: reflexivity.
Qed.

Lemma generateMessageMetadata_runs (w : World Clock) :
  good w ->
  runs Date_now (generateMessageMetadata Clock) w 4 0 0
       (fun m => exists p r t (q : Q),
          m = {[ "processingTime" := Num (ofZ p); "retryCount" := Num (ofZ r);
                 "confidence" := Num (Finite q); "tokens" := Num (ofZ t) ]} /\
          10 <= p <= 500 /\ 0 <= r <= 3 /\ ((0 <= q)%Q /\ (q < 1)%Q) /\ 10 <= t <= 200).
Proof.
intros Hw. unfold generateMessageMetadata.
eapply runs_counts.
{ eapply runs_bind; [apply lift_nextInt; [assumption | lia]|].
  cbv beta. intros ? (p & -> & Hp).
  eapply runs_bind; [apply lift_nextInt; [repeat apply good_after; assumption | lia]|].
  cbv beta. intros ? (r & -> & Hr).
  eapply runs_bind; [apply lift_next; repeat apply good_after; assumption|].
  cbv beta. intros ? (q & -> & Hq).
  eapply runs_bind; [apply lift_nextInt; [repeat apply good_after; assumption | lia]|].
  cbv beta. intros ? (t & -> & Ht).
  apply runs_ret. now exists p, r, t, q. }
all: reflexivity.
Qed.

(** *** [createMessages] *)

Lemma bind_ret_l {A B} (a : A) (k : A -> F Clock B) : bind Clock (ret Clock a) k = k a.
Proof. reflexivity. Qed.

Lemma idCounter_after a b c (w : World Clock) :
  idCounter (after Date_now a b c w) = idCounter w + Z.of_nat b.
Proof. reflexivity. Qed.

Lemma delay_runs (delays : bool) (w : World Clock) :
  good w ->
  runs Date_now (if delays then lift Clock (nextInt 100 2000) else ret Clock (ofZ 0)) w
       (if delays then 1 else 0) 0 0
       (fun v => exists d, v = ofZ d /\
                           (if delays then 100 else 0) <= d <= (if delays then 2000 else 0)).
Proof.
intros Hw. destruct delays.
- apply lift_nextInt; [assumption | lia].
- apply runs_ret. exists 0. split; [reflexivity | lia].
Qed.

Lemma metadata_runs (meta : bool) (w : World Clock) :
  good w ->
  runs Date_now
       (if meta
        then bind Clock (generateMessageMetadata Clock) (fun m => ret Clock (Some m))
        else ret Clock None) w
       (if meta then 4 else 0) 0 0
       (fun v => is_Some v <-> meta = true).
Proof.
intros Hw. destruct meta.
- eapply runs_counts.
  { eapply runs_bind; [now apply generateMessageMetadata_runs|].
    cbv beta. intros m _. apply runs_ret. split; [reflexivity | now eexists]. }
  all: reflexivity.
- apply runs_ret. split; [intros [x Hx]; discriminate | discriminate].
Qed.

Lemma parent_of_last (acc : list Message.t) (i : nat) :
  length acc = i ->
  (if (0 <? i)%nat
   then match acc !! (i - 1)%nat with
        | Some parent => ret Clock (Some (Message.id parent))
        | None => throw Clock (undefined_has_no "id")
        end
   else ret Clock None)
  = ret Clock (Message.id <$> last acc).
Proof.
intros <-. rewrite last_lookup.
destruct acc as [|m acc]; [reflexivity|].
change (0 <? length (m :: acc))%nat with true. cbv iota.
replace (Init.Nat.pred (length (m :: acc))) with (length (m :: acc) - 1)%nat by (simpl; lia).
destruct (lookup_lt_is_Some_2 (m :: acc) (length (m :: acc) - 1)%nat) as [x Hx];
  [simpl; lia|].
now rewrite Hx.
Qed.

Lemma agent_in_turn (agents : list Agent.t) (i : nat) :
  agents <> [] ->
  exists a, agents !! (i mod length agents)%nat = Some a /\
            (if (length agents =? 0)%nat then None
             else agents !! (i mod length agents)%nat) = Some a.
Proof.
intros Hne.
assert (Hl : (length agents <> 0)%nat) by (destruct agents; [congruence | discriminate]).
destruct (lookup_lt_is_Some_2 agents (i mod length agents)%nat) as [a Ha].
{ now apply Nat.mod_upper_bound. }
exists a. split; [assumption|].
destruct (Nat.eqb_spec (length agents) 0); [contradiction | assumption].
Qed.

Lemma createMessages_loop_runs (agents : list Agent.t) (delays meta : bool) (n : nat) :
  forall (i : nat) (acc : list Message.t) (cur : Z) (w : World Clock),
  good w -> agents <> [] -> length acc = i ->
  runs Date_now
       (createMessages_loop Clock Date_now agents delays meta n i acc (ofZ cur)) w
       (n * draws_per_message delays meta) n n
       (fun ms => exists news,
          ms = acc ++ news /\ length news = n /\
          round_robin agents i news /\
          chained (Message.id <$> last acc) news /\
          paced (if delays then 100 else 0) (if delays then 2000 else 0) cur news /\
          numbered "msg" (idCounter w) (Message.id <$> news) /\
          Forall (fun m => is_Some (Message.metadata m) <-> meta = true) news).
Proof.
induction n as [|n IH]; intros i acc cur w Hw Hne Hlen.
- apply runs_ret. exists []. rewrite app_nil_r. simpl. repeat split. constructor.
- cbn [createMessages_loop].
  destruct (agent_in_turn agents i Hne) as (a & Ha & ->).
  eapply runs_counts.
  { eapply runs_bind; [now apply delay_runs|].
    cbv beta. intros v (d & -> & Hd). rewrite add_ofZ.
    eapply runs_bind; [apply generateId_runs|].
    cbv beta. intros id Hid.
    eapply runs_bind; [apply generateMessageContent_runs; repeat apply good_after; assumption|].
    cbv beta. intros content _.
    eapply runs_bind;
      [apply choice_of_runs; [repeat apply good_after; assumption | discriminate]|].
    cbv beta. intros role _.
    rewrite (parent_of_last acc i Hlen), bind_ret_l.
    eapply runs_bind; [apply metadata_runs; repeat apply good_after; assumption|].
    cbv beta. intros md Hmd.
    eapply runs_weaken.
    { apply IH; [repeat apply good_after; assumption | assumption |].
      rewrite length_app. simpl. lia. }
    cbv beta. intros ms (news & -> & Hn & Hr & Hc & Hp & Hi & Hm).
    rewrite last_snoc in Hc. cbn [Message.id fmap option_fmap option_map] in Hc.
    rewrite !idCounter_after in Hi, Hid. cbn [Message.id] in Hi.
    eexists (_ :: news). split; [now rewrite <- app_assoc|].
    split; [simpl; now rewrite Hn|].
    split; [split; [now exists a | assumption]|].
    split; [split; [reflexivity | assumption]|].
    split; [exists (cur + d); split; [reflexivity | split; [lia | assumption]]|].
    split.
    - cbn [fmap list_fmap numbered Message.id]. split.
      + eexists. rewrite Hid. repeat f_equal. simpl. lia.
      + replace (idCounter w + 1) with
          (idCounter w + Z.of_nat (if delays then 1 else 0) * 0 + 1) by lia.
        revert Hi. match goal with |- numbered _ ?x _ -> numbered _ ?y _ =>
          replace x with y by (simpl; lia) end. exact (fun H => H).
    - constructor; [exact Hmd | assumption]. }
  all: unfold draws_per_message; destruct delays, meta; simpl; lia.
Qed.


(** The identifiers of the messages of one call are pairwise distinct,
    whatever the clock reads: they carry the successive values of the
    counter. *)
Theorem createMessages_ids_distinct (agents : list Agent.t) (count b : Z)
    (simulateDelays includeMetadata : bool) (w : World Clock) :
  good w -> agents <> [] ->
  exists ms w',
    createMessages Clock Date_now agents count (ofZ b) simulateDelays includeMetadata w
    = Returns ms w' /\
    numbered "msg" (idCounter w) (Message.id <$> ms) /\
    NoDup (Message.id <$> ms) /\
    idCounter w' = idCounter w + Z.of_nat (length ms).
Proof.
intros Hw Hne.
destruct (createMessages_loop_runs agents simulateDelays includeMetadata (Z.to_nat count)
            0 [] b w Hw Hne eq_refl) as (ms & E & news & -> & Hn & _ & _ & _ & Hi & _).
exists news. eexists. split; [exact E|].
split; [assumption|]. split; [now apply numbered_NoDup in Hi|].
rewrite idCounter_after. simpl. now rewrite Hn.
Qed.


(** *** The generator alone decides what the messages say *)

Lemma alike_bind {A1 A2 B1 B2} (R : A1 -> A2 -> Prop) (Q : B1 -> B2 -> Prop)
    (c1 : F Clock A1) (c2 : F Clock A2) (k1 : A1 -> F Clock B1) (k2 : A2 -> F Clock B2)
    (w1 w2 : World Clock) :
  alike R (c1 w1) (c2 w2) ->
  (forall a1 a2 v1 v2, R a1 a2 -> rng v1 = rng v2 -> alike Q (k1 a1 v1) (k2 a2 v2)) ->
  alike Q (bind Clock c1 k1 w1) (bind Clock c2 k2 w2).
Proof.
intros H Hk. unfold bind.
destruct (c1 w1) as [a1 v1|e1 v1], (c2 w2) as [a2 v2|e2 v2]; simpl in H; try contradiction.
- destruct H as [Ha Hv]. now apply Hk.
- exact H.
Qed.

Lemma alike_lift {A} (c : SeededRandom.M A) (w1 w2 : World Clock) :
  rng w1 = rng w2 -> alike eq (lift Clock c w1) (lift Clock c w2).
Proof.
intros E. unfold lift. rewrite E.
destruct (c (rng w2)) as [a g|e g]; simpl; auto.
Qed.

Lemma alike_generateId (prefix : string) (w1 w2 : World Clock) :
  rng w1 = rng w2 ->
  alike (fun _ _ => True) (generateId Clock Date_now prefix w1)
        (generateId Clock Date_now prefix w2).
Proof.
intros E. unfold generateId.
destruct (Date_now (clock w1)), (Date_now (clock w2)). simpl. auto.
Qed.

Lemma alike_ret {A B} (R : A -> B -> Prop) a b (w1 w2 : World Clock) :
  R a b -> rng w1 = rng w2 -> alike R (ret Clock a w1) (ret Clock b w2).
Proof. simpl. auto. Qed.

Lemma alike_throw {A B} (R : A -> B -> Prop) e (w1 w2 : World Clock) :
  rng w1 = rng w2 -> alike R (throw Clock e w1) (throw Clock e w2).
Proof. simpl. auto. Qed.

Lemma alike_generateMessageContent (w1 w2 : World Clock) :
  rng w1 = rng w2 ->
  alike eq (generateMessageContent Clock w1) (generateMessageContent Clock w2).
Proof.
intros E. unfold generateMessageContent.
eapply alike_bind; [now apply alike_lift|].
intros t ? v1 v2 <- Ev. destruct t as [t|]; [|now apply alike_throw].
do 8 (eapply alike_bind; [now apply alike_lift|]; clear v1 v2 Ev; intros ? ? v1 v2 <- Ev).
now apply alike_ret.
Qed.

Lemma alike_generateMessageMetadata (w1 w2 : World Clock) :
  rng w1 = rng w2 ->
  alike eq (generateMessageMetadata Clock w1) (generateMessageMetadata Clock w2).
Proof.
intros E. unfold generateMessageMetadata.
eapply alike_bind; [now apply alike_lift|]. intros ? ? v1 v2 <- Ev.
do 3 (eapply alike_bind; [now apply alike_lift|]; clear v1 v2 Ev; intros ? ? v1 v2 <- Ev).
now apply alike_ret.
Qed.

Lemma alike_createMessages_loop (agents1 agents2 : list Agent.t) (delays meta : bool)
    (n : nat) :
  forall (i : nat) (acc1 acc2 : list Message.t) (cur : number) (w1 w2 : World Clock),
  agents1 <> [] -> agents2 <> [] -> rng w1 = rng w2 ->
  drawn <$> acc1 = drawn <$> acc2 ->
  alike (fun ms1 ms2 => drawn <$> ms1 = drawn <$> ms2)
        (createMessages_loop Clock Date_now agents1 delays meta n i acc1 cur w1)
        (createMessages_loop Clock Date_now agents2 delays meta n i acc2 cur w2).
Proof.
induction n as [|n IH]; intros i acc1 acc2 cur w1 w2 H1 H2 E Hacc.
- now apply alike_ret.
- cbn [createMessages_loop].
  destruct (agent_in_turn agents1 i H1) as (a1 & _ & ->).
  destruct (agent_in_turn agents2 i H2) as (a2 & _ & ->).
  eapply alike_bind with (R := eq).
  { destruct delays; [now apply alike_lift | now apply alike_ret]. }
  intros d ? v1 v2 <- Ev.
  eapply alike_bind; [now apply alike_generateId|].
  clear v1 v2 Ev. intros id1 id2 v1 v2 _ Ev.
  eapply alike_bind; [now apply alike_generateMessageContent|].
  clear v1 v2 Ev. intros content ? v1 v2 <- Ev.
  eapply alike_bind; [now apply alike_lift|].
  clear v1 v2 Ev. intros role ? v1 v2 <- Ev.
  assert (Hl : length acc1 = length acc2).
  { rewrite <- (length_fmap drawn acc1), Hacc. apply length_fmap. }
  eapply alike_bind with (R := fun _ _ => True).
  { destruct (0 <? i)%nat; [|now apply alike_ret].
    destruct (acc1 !! (i - 1)%nat) as [p1|] eqn:E1,
             (acc2 !! (i - 1)%nat) as [p2|] eqn:E2.
    - now apply alike_ret.
    - apply lookup_lt_Some in E1. apply lookup_ge_None in E2. lia.
    - apply lookup_lt_Some in E2. apply lookup_ge_None in E1. lia.
    - now apply alike_throw. }
  clear v1 v2 Ev. intros parent1 parent2 v1 v2 _ Ev.
  eapply alike_bind with (R := eq).
  { destruct meta; [|now apply alike_ret].
    eapply alike_bind; [now apply alike_generateMessageMetadata|].
    intros ? ? u1 u2 <- Eu. now apply alike_ret. }
  clear v1 v2 Ev. intros md ? v1 v2 <- Ev.
  apply IH; try assumption.
  rewrite !fmap_app, Hacc. reflexivity.
Qed.

(** Two calls of [createMessages] whose generators are in the same state say
    the same: the messages agree in content, time stamp, role and metadata,
    or both calls throw the same error, and the generators end in the same
    state, whatever the agents (one at least), the counter and the clock
    are.  Only the identifiers differ. *)
Theorem same_seed_same_messages (agents1 agents2 : list Agent.t) (count : Z)
    (baseTimestamp : number) (simulateDelays includeMetadata : bool)
    (w1 w2 : World Clock) :
  rng w1 = rng w2 -> agents1 <> [] -> agents2 <> [] ->
  alike (fun ms1 ms2 => drawn <$> ms1 = drawn <$> ms2)
        (createMessages Clock Date_now agents1 count baseTimestamp
                        simulateDelays includeMetadata w1)
        (createMessages Clock Date_now agents2 count baseTimestamp
                        simulateDelays includeMetadata w2).
Proof.
intros E H1 H2. unfold createMessages.
now apply alike_createMessages_loop.
Qed.

(** *** [createAgents] and [createConversation] *)

Lemma createAgents_loop_runs (n : nat) :
  forall (i : nat) (acc : list Agent.t) (w : World Clock),
  good w ->
  runs Date_now (createAgents_loop Clock Date_now n i acc) w (n * 7) n n
       (fun agents => exists news,
          agents = acc ++ news /\ length news = n /\ enrolled i news /\
          numbered "agent" (idCounter w) (Agent.id <$> news)).
Proof.
induction n as [|n IH]; intros i acc w Hw.
- apply runs_ret. exists []. rewrite app_nil_r. simpl. auto.
- cbn [createAgents_loop].
  eapply runs_counts.
  { eapply runs_bind; [apply generateId_runs|].
    cbv beta. intros id Hid.
    eapply runs_bind; [apply generateCapabilities_runs; repeat apply good_after; assumption|].
    cbv beta. intros caps (Hnd & Hall & Hlen).
    eapply runs_bind;
      [apply choice_of_runs; [repeat apply good_after; assumption | discriminate]|].
    cbv beta. intros framework _.
    eapply runs_weaken; [apply IH; repeat apply good_after; assumption|].
    cbv beta. intros agents (news & -> & Hn & He & Hi).
    rewrite !idCounter_after in Hi.
    eexists (_ :: news). split; [now rewrite <- app_assoc|].
    split; [simpl; now rewrite Hn|].
    split; [cbn [enrolled Agent.name Agent.type Agent.capabilities]; auto 10|].
    cbn [fmap list_fmap numbered Agent.id]. split.
    - eexists. exact Hid.
    - revert Hi. match goal with |- numbered _ ?x _ -> numbered _ ?y _ =>
        replace x with y by (simpl; lia) end. exact (fun H => H). }
  all: simpl; lia.
Qed.

(** [createAgents(count)] returns [count] agents (none for a negative
    count), named "Agent-1", "Agent-2", ..., typed coordinator, worker,
    validator, observer in turn, each with 2 to 5 distinct capabilities of
    the six, and with pairwise distinct identifiers.  It takes 7 draws, one
    identifier and one reading of the clock per agent. *)
Theorem createAgents_spec (count : Z) (w : World Clock) :
  good w ->
  exists agents,
    createAgents Clock Date_now count w
    = Returns agents (after Date_now (Z.to_nat count * 7) (Z.to_nat count)
                            (Z.to_nat count) w) /\
    length agents = Z.to_nat count /\
    enrolled 0 agents /\
    NoDup (Agent.id <$> agents).
Proof.
intros Hw.
destruct (createAgents_loop_runs (Z.to_nat count) 0 [] w Hw)
  as (agents & E & news & -> & Hn & He & Hi).
exists news. split; [exact E|]. repeat split; try assumption.
now apply numbered_NoDup in Hi.
Qed.





(** *** The violations *)




(** [injectStateViolation] takes no draw and cannot fail: it keeps the
    messages in place, with their identifiers, contents and time stamps, and
    gives every one of them a metadata record, also where there was none,
    whose [state] is "active" at the even positions and "inactive" at the
    odd ones and whose other entries are the former ones. *)
Theorem injectStateViolation_spec (c : Conversation.t) (w : World Clock) :
  exists c',
    injectStateViolation Clock c w = Returns c' w /\
    length (Conversation.messages c') = length (Conversation.messages c) /\
    forall (i : nat) (m' : Message.t),
      Conversation.messages c' !! i = Some m' ->
      exists (m : Message.t) (md : gmap string unknown),
        Conversation.messages c !! i = Some m /\
        Message.metadata m' = Some md /\
        md !! "state" = Some (Str (if Nat.even i then "active" else "inactive")) /\
        (forall k, k <> "state" -> md !! k = default ∅ (Message.metadata m) !! k) /\
        Message.id m' = Message.id m /\
        Message.content m' = Message.content m /\
        Message.timestamp m' = Message.timestamp m.
Proof.
unfold injectStateViolation. eexists. split; [reflexivity|].
cbn [Conversation.messages Conversation.with_messages].
split; [apply length_imap|].
intros i m' H. rewrite list_lookup_imap in H.
destruct (Conversation.messages c !! i) as [m|]; [|discriminate].
simpl in H. injection H as <-.
exists m. eexists. split; [reflexivity|]. split; [reflexivity|].
split; [apply lookup_insert_eq|].
split; [intros k Hk; now apply lookup_insert_ne|].
repeat split.
Qed.

(** *** [createConversationState] *)

Lemma dedupe_spec (xs : list string) :
  forall seen,
    NoDup (dedupe seen xs) /\
    (forall x, x ∈ dedupe seen xs <-> x ∈ xs /\ x ∉ seen) /\
    (length (dedupe seen xs) <= length xs)%nat.
Proof.
induction xs as [|a xs IH]; intros seen; simpl.
- split; [constructor|]. split; [|lia].
  intros x. split; [intros H; now apply elem_of_nil in H|].
  intros [H _]. now apply elem_of_nil in H.
- destruct (bool_decide_reflect (a ∈ seen)) as [Ha|Ha].
  + destruct (IH seen) as (Hn & Hm & Hl). split; [assumption|]. split; [|lia].
    intros x. rewrite Hm, elem_of_cons. split; [tauto|].
    intros [[->|Hx] Hs]; [contradiction | tauto].
  + destruct (IH (a :: seen)) as (Hn & Hm & Hl). split; [|split; [|simpl; lia]].
    * constructor; [|assumption]. rewrite Hm, elem_of_cons. tauto.
    * intros x. rewrite !elem_of_cons, Hm, elem_of_cons.
      destruct (decide (x = a)) as [->|Hne]; tauto.
Qed.

(** [createConversationState] takes three draws.  The active agents are the
    agents of the last ten messages, each listed once, so at most ten; the
    message count is the length; the priority is an integer of 1 to 5. *)
Theorem createConversationState_spec (c : Conversation.t) (w : World Clock) :
  good w ->
  exists st,
    createConversationState Clock c w = Returns st (after Date_now 3 0 0 w) /\
    NoDup (ConversationState.activeAgents st) /\
    (forall a, a ∈ ConversationState.activeAgents st <->
               exists m, m ∈ drop (length (Conversation.messages c) - 10)
                                  (Conversation.messages c) /\
                         Message.agentId m = a) /\
    (length (ConversationState.activeAgents st) <= 10)%nat /\
    ConversationState.messageCount st = length (Conversation.messages c) /\
    exists topic phase p,
      ConversationState.variables st
      = {[ "topic" := Str topic; "phase" := Str phase; "priority" := Num (ofZ p) ]} /\
      topic ∈ ["planning"; "execution"; "validation"; "reporting"] /\
      phase ∈ ["initial"; "processing"; "finalizing"] /\
      1 <= p <= 5.
Proof.
intros Hw. unfold createConversationState.
set (ms := Conversation.messages c).
set (recent := Message.agentId <$> drop (length ms - 10) ms).
destruct (dedupe_spec recent []) as (Hn & Hm & Hl).
match goal with |- exists st, ?run w = Returns st (after _ ?n ?i ?r w) /\ @?P st =>
  cut (runs Date_now run w n i r P) end.
{ intros (st & E & H). exists st. split; [exact E | exact H]. }
eapply runs_counts.
{ eapply runs_bind; [apply choice_of_runs; [assumption | discriminate]|].
  cbv beta. intros v (topic & -> & Ht).
  eapply runs_bind;
    [apply choice_of_runs; [repeat apply good_after; assumption | discriminate]|].
  cbv beta. intros v (phase & -> & Hp).
  eapply runs_bind; [apply lift_nextInt; [repeat apply good_after; assumption | lia]|].
  cbv beta. intros v (p & -> & Hr).
  apply runs_ret.
  cbn [ConversationState.activeAgents ConversationState.messageCount
       ConversationState.variables].
  split; [assumption|]. split; [|split; [|split; [reflexivity|]]].
  - intros a. rewrite Hm. unfold recent. rewrite list_elem_of_fmap. split.
    + intros [(m & -> & Hin) _]. now exists m.
    + intros (m & Hin & <-). split; [now exists m | apply not_elem_of_nil].
  - etransitivity; [exact Hl|]. unfold recent. rewrite length_fmap, length_drop. lia.
  - now exists topic, phase, p. }
all: reflexivity.
Qed.

End FactoryFacts.

(** *** The statements at a factory of seed 42 *)


Lemma createMessages_ids_distinct_witness :
  good FactoryExamples.factory /\ FactoryExamples.agents <> [] /\
  exists ms w',
    createMessages Z FactoryExamples.millisecond_clock FactoryExamples.agents 3
                   (ofZ 1000000) false false FactoryExamples.factory
    = Returns ms w' /\
    numbered "msg" (idCounter FactoryExamples.factory) (Message.id <$> ms) /\
    NoDup (Message.id <$> ms) /\
    idCounter w' = idCounter FactoryExamples.factory + Z.of_nat (length ms).
Proof.
assert (H1 : good FactoryExamples.factory) by (exists 42; split; [reflexivity | lia]).
assert (H2 : FactoryExamples.agents <> []) by discriminate.
split; [exact H1 | split; [exact H2|]].
exact (createMessages_ids_distinct FactoryExamples.millisecond_clock FactoryExamples.agents
                                   3 1000000 false false FactoryExamples.factory H1 H2).
Defined.


Lemma same_seed_same_messages_witness :
  rng FactoryExamples.factory
  = rng (constructor Z FactoryExamples.millisecond_clock (Some (ofZ 42)) 7 9000) /\
  FactoryExamples.agents <> [] /\
  [FactoryExamples.agent "b1" "Agent-1"] <> [] /\
  alike (fun ms1 ms2 => drawn <$> ms1 = drawn <$> ms2)
        (createMessages Z FactoryExamples.millisecond_clock FactoryExamples.agents 3
                        (ofZ 1000000) true true FactoryExamples.factory)
        (createMessages Z FactoryExamples.millisecond_clock
                        [FactoryExamples.agent "b1" "Agent-1"] 3
                        (ofZ 1000000) true true
                        (constructor Z FactoryExamples.millisecond_clock (Some (ofZ 42)) 7 9000)).
Proof.
assert (H1 : rng FactoryExamples.factory
             = rng (constructor Z FactoryExamples.millisecond_clock (Some (ofZ 42)) 7 9000))
  by reflexivity.
assert (H2 : FactoryExamples.agents <> []) by discriminate.
assert (H3 : [FactoryExamples.agent "b1" "Agent-1"] <> []) by discriminate.
split; [exact H1 | split; [exact H2 | split; [exact H3|]]].
exact (same_seed_same_messages FactoryExamples.millisecond_clock _ _ 3 (ofZ 1000000)
                               true true _ _ H1 H2 H3).
Defined.

Lemma createAgents_spec_witness :
  good FactoryExamples.factory /\
  exists agents,
    createAgents Z FactoryExamples.millisecond_clock 2 FactoryExamples.factory
    = Returns agents (after FactoryExamples.millisecond_clock (Z.to_nat 2 * 7) (Z.to_nat 2)
                            (Z.to_nat 2) FactoryExamples.factory) /\
    length agents = Z.to_nat 2 /\
    enrolled 0 agents /\
    NoDup (Agent.id <$> agents).
Proof.
assert (H1 : good FactoryExamples.factory) by (exists 42; split; [reflexivity | lia]).
split; [exact H1|].
exact (createAgents_spec FactoryExamples.millisecond_clock 2 FactoryExamples.factory H1).
Defined.





Lemma createConversationState_spec_witness :
  good FactoryExamples.factory /\
  exists st,
    createConversationState Z FactoryExamples.conversation FactoryExamples.factory
    = Returns st (after FactoryExamples.millisecond_clock 3 0 0 FactoryExamples.factory) /\
    NoDup (ConversationState.activeAgents st) /\
    (forall a, a ∈ ConversationState.activeAgents st <->
               exists m, m ∈ drop (length (Conversation.messages FactoryExamples.conversation) - 10)
                                  (Conversation.messages FactoryExamples.conversation) /\
                         Message.agentId m = a) /\
    (length (ConversationState.activeAgents st) <= 10)%nat /\
    ConversationState.messageCount st
    = length (Conversation.messages FactoryExamples.conversation) /\
    exists topic phase p,
      ConversationState.variables st
      = {[ "topic" := Str topic; "phase" := Str phase; "priority" := Num (ofZ p) ]} /\
      topic ∈ ["planning"; "execution"; "validation"; "reporting"] /\
      phase ∈ ["initial"; "processing"; "finalizing"] /\
      1 <= p <= 5.
Proof.
assert (H1 : good FactoryExamples.factory) by (exists 42; split; [reflexivity | lia]).
split; [exact H1|].
exact (createConversationState_spec FactoryExamples.millisecond_clock
         FactoryExamples.conversation FactoryExamples.factory H1).
Defined.

(** The conversation of the factory of seed 42 with two agents, three messages
    and a base time stamp of 1000000, at a counter of 0 and a clock that
    reads 5000: what it says, when, and in which state it leaves the
    factory. *)
Example factory_seed_42 :
  match createConversation Z FactoryExamples.millisecond_clock
          (Options.mk None (Some 2) (Some 3) None None None (Some (ofZ 1000000)))
          FactoryExamples.factory with
  | Returns c w =>
      Conversation.id c = "conv_6_5005" /\
      Agent.id <$> Conversation.agents c = ["agent_1_5000"; "agent_2_5001"] /\
      Agent.capabilities <$> Conversation.agents c
      = [[Some "text-generation"; Some "data-analysis"];
         [Some "data-analysis"; Some "api-calls"; Some "file-operations";
          Some "web-search"]] /\
      Message.id <$> Conversation.messages c = ["msg_3_5002"; "msg_4_5003"; "msg_5_5004"] /\
      Message.content <$> Conversation.messages c
      = ["Status update: completed"; "Initiating analyze on model";
         "Status update: completed"] /\
      Message.timestamp <$> Conversation.messages c
      = [ofZ 1001735; ofZ 1002498; ofZ 1003890] /\
      Message.role <$> Conversation.messages c
      = [Some "system"; Some "system"; Some "user"] /\
      Conversation.endTime c = ofZ 1003890 /\
      w = mkWorld (SeededRandom.mk (ofZ 136629220)) 7 5007
  | Throws _ _ => False
  end.
Proof. vm_compute. repeat split. Qed.
